(** * Social-content extraction and normalisation pipeline

    A shallow embedding of the two site-automation scripts
    [src/weibo.ts] and [src/xiaohongshu.ts]: the numeric normaliser,
    the cookie-string parser, the detail-page extractors, the merge step
    and the feed walk, followed by the properties the specification
    states about them.

    Conventions of the embedding.
    - A JavaScript string is the list of its UTF-16 code units
      ([jsstring]); [utf16] turns a literal of this file into that list.
    - A JavaScript number is an IEEE-754 binary64 value, computed with
      the Standard Library's [spec_float] (precision 53, emax 1024), so
      that [parseFloat] and the products taken by the scripts round the
      way they do in the engine.
    - The browser is an external collaborator: a document or an element
      answers a selector with the list of elements that match it, and
      each Puppeteer call either returns or throws, as a [World] says.
    - What a function evaluated in a page returns reaches the script by
      value: a count inside it is a number or [null] ([nullable]). *)

From Stdlib Require Import ZArith NArith String Ascii List Bool Lia.
From Stdlib Require Import Floats.SpecFloat.
From stdpp Require Import base option list sorting gmap.

Local Open Scope Z_scope.

(** ** JavaScript strings *)

Abbreviation jsstring := (list N).

Module JS.

(** UTF-8 bytes of a literal to UTF-16 code units. *)
Fixpoint utf8_to_utf16 (bs : list N) : jsstring :=
  match bs with
  | [] => []
  | b0 :: r0 =>
    if (b0 <? 128)%N then b0 :: utf8_to_utf16 r0
    else match r0 with
    | [] => []
    | b1 :: r1 =>
      if (b0 <? 224)%N
      then ((b0 mod 32) * 64 + b1 mod 64)%N :: utf8_to_utf16 r1
      else match r1 with
      | [] => []
      | b2 :: r2 =>
        if (b0 <? 240)%N
        then ((b0 mod 16) * 4096 + (b1 mod 64) * 64 + b2 mod 64)%N
               :: utf8_to_utf16 r2
        else match r2 with
        | [] => []
        | b3 :: r3 =>
          let cp := ((b0 mod 8) * 262144 + (b1 mod 64) * 4096
                     + (b2 mod 64) * 64 + b3 mod 64 - 65536)%N in
          (55296 + cp / 1024)%N :: (56320 + cp mod 1024)%N
            :: utf8_to_utf16 r3
        end
      end
    end
  end.

Definition utf16 (s : string) : jsstring :=
  utf8_to_utf16 (List.map N_of_ascii (list_ascii_of_string s)).

(** [a === b] on strings. *)
Fixpoint str_eqb (a b : jsstring) : bool :=
  match a, b with
  | [], [] => true
  | x :: a', y :: b' => (x =? y)%N && str_eqb a' b'
  | _, _ => false
  end.

(** ToBoolean on a string: only the empty string is falsy. *)
Definition truthy_str (s : jsstring) : bool :=
  match s with [] => false | _ => true end.

(** [a || b] on strings. *)
Definition or_str (a b : jsstring) : jsstring :=
  if truthy_str a then a else b.

(** WhiteSpace and LineTerminator code units: what [trim] strips and what
    [\s] matches. *)
Definition isWhiteSpace (c : N) : bool :=
  ((9 <=? c) && (c <=? 13) || (c =? 32) || (c =? 160) || (c =? 5760)
   || (8192 <=? c) && (c <=? 8202) || (c =? 8232) || (c =? 8233)
   || (c =? 8239) || (c =? 8287) || (c =? 12288) || (c =? 65279))%N.

(** [\d] *)
Definition isDigit (c : N) : bool := ((48 <=? c) && (c <=? 57))%N.

Fixpoint dropWhile (p : N -> bool) (s : jsstring) : jsstring :=
  match s with
  | [] => []
  | c :: r => if p c then dropWhile p r else s
  end.

Fixpoint takeWhile (p : N -> bool) (s : jsstring) : jsstring :=
  match s with
  | [] => []
  | c :: r => if p c then c :: takeWhile p r else []
  end.

Definition trimStart (s : jsstring) : jsstring := dropWhile isWhiteSpace s.
Definition trimEnd (s : jsstring) : jsstring :=
  rev (dropWhile isWhiteSpace (rev s)).

(** [s.trim()] *)
Definition trim (s : jsstring) : jsstring := trimEnd (trimStart s).

(** [s.startsWith(p)] *)
Fixpoint startsWith (p s : jsstring) : bool :=
  match p, s with
  | [], _ => true
  | x :: p', y :: s' => (x =? y)%N && startsWith p' s'
  | _ :: _, [] => false
  end.

(** [s.includes(p)] *)
Fixpoint includes (p s : jsstring) : bool :=
  startsWith p s || match s with [] => false | _ :: r => includes p r end.

(** [s.replace(p, by)] with a string pattern: the first occurrence only. *)
Fixpoint replace (p by_ s : jsstring) : jsstring :=
  if startsWith p s then by_ ++ drop (length p) s
  else match s with
       | [] => []
       | c :: r => c :: replace p by_ r
       end.

(** [s.replace(/c/g, '')] for a pattern matching one code unit, and
    [s.replace(/\s+/g, '')]: every matching code unit goes. *)
Definition removeAll (p : N -> bool) (s : jsstring) : jsstring :=
  List.filter (fun c => negb (p c)) s.

(** [s.split(c)] for a separator of one code unit; the result always has
    at least one piece. *)
Fixpoint split (sep : N) (s : jsstring) : list jsstring :=
  match s with
  | [] => [[]]
  | c :: r =>
    if (c =? sep)%N then [] :: split sep r
    else match split sep r with
         | [] => [[c]]
         | h :: t => (c :: h) :: t
         end
  end.

(** The number of occurrences of a code unit. *)
Definition count (c : N) (s : jsstring) : nat :=
  length (List.filter (fun x => (x =? c)%N) s).

(** [/^\d+$/.test(s)] *)
Definition allDigits (s : jsstring) : bool :=
  truthy_str s && forallb isDigit s.

End JS.

(** ** JavaScript numbers *)

Abbreviation number := spec_float.

Module Num.

Definition prec : Z := 53.
Definition emax : Z := 1024.

Definition NaN : number := S754_nan.
Definition zero : number := S754_zero false.

(** The double nearest to an integer. *)
Definition ofZ (z : Z) : number := binary_normalize prec emax z 0 false.

(** [x * y] *)
Definition mul (x y : number) : number := SFmul prec emax x y.

(** ToBoolean on a number: [0], [-0] and [NaN] are falsy. *)
Definition truthy (x : number) : bool :=
  match x with
  | S754_zero _ | S754_nan => false
  | _ => true
  end.

(** [x || y] on numbers. *)
Definition or (x y : number) : number := if truthy x then x else y.

(** [Number.isInteger(x)] *)
Definition isInteger (x : number) : bool :=
  match x with
  | S754_zero _ => true
  | S754_finite _ m e =>
    (0 <=? e) || (Z.pos m mod 2 ^ (- e) =? 0)
  | _ => false
  end.

(** Value of a run of decimal digits. *)
Definition digitsValue (ds : jsstring) : Z :=
  fold_left (fun acc d => 10 * acc + (Z.of_N d - 48)) ds 0.

(** The double nearest to [(-1)^neg * m * 10^e10], for [0 <= m]. *)
Definition ofDecimal (neg : bool) (m e10 : Z) : number :=
  match m with
  | Z0 => S754_zero neg
  | Z.pos p =>
    if 0 <=? e10
    then binary_normalize prec emax
           ((if neg then Z.neg p else Z.pos p) * 10 ^ e10) 0 neg
    else SFdiv prec emax (S754_finite neg p 0)
           (S754_finite false (Z.to_pos (10 ^ (- e10))) 0)
  | Z.neg _ => S754_nan
  end.

(** An optional sign: [(negative, rest)]. *)
Definition readSign (s : jsstring) : bool * jsstring :=
  match s with
  | 45%N :: r => (true, r)
  | 43%N :: r => (false, r)
  | _ => (false, s)
  end.

(** [parseInt(s, 10)]: leading white space, an optional sign, then the
    longest run of decimal digits; [NaN] when that run is empty. *)
Definition parseInt (s : jsstring) : number :=
  let '(neg, r) := readSign (JS.trimStart s) in
  match JS.takeWhile JS.isDigit r with
  | [] => NaN
  | ds => ofDecimal neg (digitsValue ds) 0
  end.

(** ExponentPart: [e] or [E], an optional sign and at least one digit;
    the value is 0 when the text has no exponent part. *)
Definition readExponent (s : jsstring) : Z :=
  match s with
  | c :: r =>
    if ((c =? 101) || (c =? 69))%N then
      let '(neg, r') := readSign r in
      match JS.takeWhile JS.isDigit r' with
      | [] => 0
      | ds => if neg then - digitsValue ds else digitsValue ds
      end
    else 0
  | [] => 0
  end.

(** [parseFloat(s)]: leading white space, then the longest prefix that is
    a StrDecimalLiteral; [NaN] when there is none. *)
Definition parseFloat (s : jsstring) : number :=
  let '(neg, r) := readSign (JS.trimStart s) in
  if JS.startsWith (JS.utf16 "Infinity") r then S754_infinity neg
  else
    let ip := JS.takeWhile JS.isDigit r in
    let r1 := JS.dropWhile JS.isDigit r in
    let '(fp, r2) :=
      match r1 with
      | 46%N :: r' => (JS.takeWhile JS.isDigit r', JS.dropWhile JS.isDigit r')
      | _ => ([], r1)
      end in
    match ip ++ fp with
    | [] => NaN
    | ds => ofDecimal neg (digitsValue ds)
              (readExponent r2 - Z.of_nat (length fp))
    end.

End Num.

(** ** Numbers in a value returned by [page.evaluate]

    What the function evaluated in a page returns arrives in the script
    by value, written as JSON: a number inside it that is [NaN] or
    infinite arrives as [null], and [-0] arrives as [0]. *)
Definition nullable : Type := option number.

Definition byValue (x : number) : nullable :=
  match x with
  | S754_nan | S754_infinity _ => None
  | S754_zero _ => Some (S754_zero false)
  | S754_finite _ _ _ => Some x
  end.

(** ToBoolean: [null] is falsy. *)
Definition truthy_nullable (v : nullable) : bool :=
  match v with
  | Some x => Num.truthy x
  | None => false
  end.

(** [v || w] *)
Definition or_nullable (v w : nullable) : nullable :=
  if truthy_nullable v then v else w.

(** ** The numeric normaliser (weibo.ts, [parseNumberWithUnit]) *)

(** The magnitude markers and the placeholder of an unliked item. *)
Definition wan : jsstring := JS.utf16 "万".
Definition yi : jsstring := JS.utf16 "亿".
Definition zan : jsstring := JS.utf16 "赞".
Definition comma : N := 44%N.

Definition stripCommas (s : jsstring) : jsstring :=
  JS.removeAll (fun c => (c =? comma)%N) s.

Definition parseNumberWithUnit (text : jsstring) : number :=
  if negb (JS.truthy_str text) || JS.str_eqb text [] then Num.zero
  else if JS.includes wan text
  then Num.mul (Num.parseFloat (JS.replace wan [] text)) (Num.ofZ 10000)
  else if JS.includes yi text
  then Num.mul (Num.parseFloat (JS.replace yi [] text)) (Num.ofZ 100000000)
  else Num.or (Num.parseInt (stripCommas text)) Num.zero.

(** ** The cookie-string parser ([parseCookieString], both scripts) *)

(** A property value of the parsed object: destructuring a one-element
    array leaves [value] undefined. *)
Inductive jsvalue : Type :=
  | Undefined
  | Str (s : jsstring).

#[global] Instance jsvalue_eq_dec : EqDecision jsvalue.
Proof. solve_decision. Defined.

Definition semicolon : N := 59%N.
Definition equals : N := 61%N.
Definition proto : jsstring := JS.utf16 "__proto__".

(** [acc[key] = value] on an object literal.  Every key becomes an own
    property, except [__proto__]: that assignment reaches the setter
    inherited from [Object.prototype], which ignores a value that is
    neither an object nor [null]. *)
Definition setProperty (acc : gmap jsstring jsvalue) (key : jsstring)
    (value : jsvalue) : gmap jsstring jsvalue :=
  if JS.str_eqb key proto then acc else <[key := value]> acc.

(** [const [key, value] = pair.split('=')] *)
Definition keyValue (pair : jsstring) : jsstring * jsvalue :=
  match JS.split equals pair with
  | [] => ([], Undefined)
  | [key] => (key, Undefined)
  | key :: value :: _ => (key, Str value)
  end.

Definition parseCookieString (cookieString : jsstring)
    : gmap jsstring jsvalue :=
  fold_left
    (fun acc pair => let '(key, value) := keyValue pair in
                     setProperty acc key value)
    (List.map JS.trim (JS.split semicolon cookieString))
    ∅.

(** The parser as the specification words it, for comparison: a pair is
    cut at its first [=], so that the value keeps any further [=], and a
    pair without a value is stored with the empty string. *)
Definition keyValue_spec (pair : jsstring) : jsstring * jsvalue :=
  let key := JS.takeWhile (fun c => negb (c =? equals)%N) pair in
  match JS.dropWhile (fun c => negb (c =? equals)%N) pair with
  | [] => (key, Str [])
  | _ :: value => (key, Str value)
  end.

Definition parseCookieString_spec (cookieString : jsstring)
    : gmap jsstring jsvalue :=
  fold_left
    (fun acc pair => let '(key, value) := keyValue_spec pair in
                     <[key := value]> acc)
    (List.map JS.trim (JS.split semicolon cookieString))
    ∅.

(** ** The rendered page *)

(** An element of the rendered page, as far as the scripts look at it.
    Selectors and attribute names are keys; a double quote inside a
    selector of the source is written as a single quote here. *)
#[local] Unset Elimination Schemes.
Inductive Element : Type := mkElement {
  textContent : option jsstring;
  getAttribute : string -> option jsstring;
  querySelectorAll : string -> list Element;
  closest : string -> option Element;
  parentElement : option Element;
  outerHTML : jsstring
}.
#[local] Set Elimination Schemes.

Record Document : Type := mkDocument {
  doc_querySelectorAll : string -> list Element
}.

(** [querySelector] answers with the first match in document order. *)
Definition querySelector (e : Element) (sel : string) : option Element :=
  head (querySelectorAll e sel).
Definition doc_querySelector (d : Document) (sel : string) : option Element :=
  head (doc_querySelectorAll d sel).

(** [a || b] on element handles: [null] is the only falsy one. *)
Definition or_el (a b : option Element) : option Element :=
  match a with Some _ => a | None => b end.

(** ToBoolean on a NodeList: an object, truthy also when it is empty. *)
Definition truthy_NodeList (l : list Element) : bool := true.

(** [a || b] on NodeLists. *)
Definition or_NodeList (a b : list Element) : list Element :=
  if truthy_NodeList a then a else b.

(** [el.textContent?.trim() || ''] *)
Definition trimmedText (el : Element) : jsstring :=
  match textContent el with
  | Some t => JS.or_str (JS.trim t) []
  | None => []
  end.

(** [el && el.textContent], then [el.textContent.trim()]; the empty
    string when the guard fails. *)
Definition guardedText (el : option Element) : jsstring :=
  match el with
  | Some e =>
    match textContent e with
    | Some t => if JS.truthy_str t then JS.trim t else []
    | None => []
    end
  | None => []
  end.

(** [el.getAttribute(a) || ''] *)
Definition attrOrEmpty (el : Element) (a : string) : jsstring :=
  match getAttribute el a with
  | Some v => JS.or_str v []
  | None => []
  end.

(** The capture of [s.match(/<prefix>([^<stop>]+)/)]: at the leftmost
    occurrence of [prefix] that is followed by a code unit outside [stop],
    the longest run of such code units. *)
Fixpoint matchAfter (prefix : jsstring) (stop : N -> bool) (s : jsstring)
    : option jsstring :=
  let here :=
    if JS.startsWith prefix s
    then match JS.takeWhile (fun c => negb (stop c)) (drop (length prefix) s) with
         | [] => None
         | g => Some g
         end
    else None in
  match here with
  | Some g => Some g
  | None => match s with
            | [] => None
            | _ :: r => matchAfter prefix stop r
            end
  end.

(** [url.split('/').pop()?.split('?')[0] || ''] *)
Definition lastSegment (url : jsstring) : jsstring :=
  match last (JS.split 47%N url) with
  | Some seg =>
    match JS.split 63%N seg with
    | first :: _ => JS.or_str first []
    | [] => []
    end
  | None => []
  end.

Definition http : jsstring := JS.utf16 "http".
Definition avatar_word : jsstring := JS.utf16 "avatar".
Definition emoji_word : jsstring := JS.utf16 "emoji".

(** [href.startsWith('http') ? href : `${origin}${href}`] *)
Definition absolute (origin href : jsstring) : jsstring :=
  if JS.startsWith http href then href else origin ++ href.

(** The test both extractors apply to an image source:
    [src && !src.includes('avatar') && !src.includes('emoji')]. *)
Definition keepImage (src : option jsstring) : bool :=
  match src with
  | Some s => JS.truthy_str s && negb (JS.includes avatar_word s)
              && negb (JS.includes emoji_word s)
  | None => false
  end.

(** ** Records shared by the two scripts *)

Record Author : Type := mkAuthor {
  author_id : jsstring;
  author_name : jsstring;
  author_avatar : jsstring;
  author_url : jsstring
}.

Record Comment : Type := mkComment {
  comment_content : jsstring;
  comment_author : jsstring;
  comment_time : jsstring;
  comment_likes : nullable
}.

(** A Puppeteer call returns a value or throws an error with a message. *)
Inductive outcome (A : Type) : Type :=
  | Returns (a : A)
  | Throws (message : jsstring).
Arguments Returns {A} a.
Arguments Throws {A} message.

(** The result object of a feed walk: [notes] in xiaohongshu.ts and
    [posts] in weibo.ts are [records] here. *)
Record FetchResult (R : Type) : Type := mkFetchResult {
  success : bool;
  records : option (list R);
  error : option jsstring
}.
Arguments mkFetchResult {R} success records error.
Arguments success {R} f.
Arguments records {R} f.
Arguments error {R} f.

(** [items.slice(0, limit)] for an integral [limit]: a negative end counts
    back from the end of the array. *)
Definition slice0 {A : Type} (limit : Z) (items : list A) : list A :=
  let len := Z.of_nat (length items) in
  let final := if limit <? 0 then Z.max (len + limit) 0 else Z.min limit len in
  take (Z.to_nat final) items.

(** ** The feed walk ([fetchLatestNotes], [fetchLatestWeibo])

    The two functions are the same program up to the names of the record
    fields, the selectors and the origin, so the walk is written once over
    the platform's card type, enumeration, extractor and merge step. *)

(** A step that returns nothing: it completes or throws. *)
Inductive step : Type :=
  | Done
  | Fails (message : jsstring).

(** What the browser does for the detail view of one item: opening the
    tab, sizing it, navigating, evaluating the extractor in the page (the
    document it then shows, or an error), and closing the tab.  The pauses
    are timers that cannot throw. *)
Record DetailWorld : Type := mkDetailWorld {
  d_newPage : step;
  d_setViewport : step;
  d_goto : step;
  d_evaluate : outcome Document;
  d_close : step
}.

(** What the browser does during one run; [w_detail i] is the detail view
    of the [i]-th enumerated card. *)
Record World : Type := mkWorld {
  w_launch : step;
  w_newPage : step;
  w_setupCookies : step;
  w_goto : step;
  w_autoScroll : step;
  w_evaluate : outcome Document;
  w_detail : nat -> DetailWorld;
  w_close : step
}.

(** Code that appends to the result array and may throw: the state is the
    array, the outcome is a value or the thrown message. *)
Section Exec.
Context {R : Type}.

Definition exec (A : Type) : Type := list R -> outcome A * list R.

Definition ret {A : Type} (a : A) : exec A := fun st => (Returns a, st).

Definition bind {A B : Type} (m : exec A) (k : A -> exec B) : exec B :=
  fun st =>
    match m st with
    | (Returns a, st') => k a st'
    | (Throws e, st') => (Throws e, st')
    end.

(** [try { m } catch (e) { h e }]: what [m] appended before it threw
    stays in the array. *)
Definition try_catch {A : Type} (m : exec A) (h : jsstring -> exec A)
    : exec A :=
  fun st =>
    match m st with
    | (Returns a, st') => (Returns a, st')
    | (Throws e, st') => h e st'
    end.

(** [completeNotes.push(r)] *)
Definition push (r : R) : exec unit := fun st => (Returns tt, st ++ [r]).

(** [await] of a call of the browser. *)
Definition await (s : step) : exec unit :=
  fun st => match s with
            | Done => (Returns tt, st)
            | Fails e => (Throws e, st)
            end.

Definition await_value {A : Type} (o : outcome A) : exec A :=
  fun st => (o, st).
End Exec.

Notation "m1 >> m2" := (bind m1 (fun _ => m2))
  (at level 90, right associativity).
Notation "'let*' x ':=' m1 'in' m2" := (bind m1 (fun x => m2))
  (at level 10, x name, m1 at level 100, m2 at level 200).

Section FeedWalk.
Context {Card Detail : Type}.
(** [card.url] *)
Variable card_url : Card -> jsstring.
(** the map over the sliced summary cards, evaluated in the listing, as
    it arrives *)
Variable enumerate : Document -> Z -> list Card.
(** the extractor evaluated in a detail page, as its result arrives *)
Variable extract : Document -> Detail.
(** the assignments between [{...card}] and the push *)
Variable merge : Card -> Detail -> Card.

(** The body of the [for] loop for one card. *)
Definition iteration (dw : DetailWorld) (card : Card) : exec (R := Card) unit :=
  try_catch
    (if negb (JS.truthy_str (card_url card))
     then push card
     else
       await (d_newPage dw) >>
       await (d_setViewport dw) >>
       try_catch (await (d_goto dw)) (fun _ => ret tt) >>
       try_catch
         (let* page := await_value (d_evaluate dw) in
          push (merge card (extract page)))
         (fun _ => push card) >>
       await (d_close dw))
    (fun _ => push card).

(** [for (let i = 0; i < cards.length; i++)], from index [i] on. *)
Fixpoint enrich (details : nat -> DetailWorld) (i : nat)
    (cards : list Card) : exec (R := Card) unit :=
  match cards with
  | [] => ret tt
  | card :: rest =>
    iteration (details i) card >> enrich details (S i) rest
  end.

(** The [try] block: everything after the launch. *)
Definition walkBody (w : World) (limit : Z) : exec (R := Card) unit :=
  await (w_newPage w) >>
  await (w_setupCookies w) >>
  await (w_goto w) >>
  await (w_autoScroll w) >>
  let* listing := await_value (w_evaluate w) in
  enrich (w_detail w) 0 (enumerate listing limit).

(** The whole function: the launch comes before the [try]; the [catch]
    turns an error of the body into a failure result; the [finally]
    closes the browser, and an error there replaces the result. *)
Definition walk (w : World) (limit : Z) : outcome (FetchResult Card) :=
  match w_launch w with
  | Fails e => Throws e
  | Done =>
    let result :=
      match walkBody w limit [] with
      | (Returns _, completeNotes) => mkFetchResult true (Some completeNotes) None
      | (Throws e, _) => mkFetchResult false None (Some e)
      end in
    match w_close w with
    | Done => Returns result
    | Fails e => Throws e
    end
  end.

(** What one iteration appends, read off [iteration]: the card alone
    when it has no url or when opening or sizing the tab throws;
    otherwise the merged record (the card, when the evaluation throws),
    followed by the card once more when closing the tab throws. *)
Definition appended (dw : DetailWorld) (card : Card) : list Card :=
  if negb (JS.truthy_str (card_url card)) then [card]
  else match d_newPage dw, d_setViewport dw with
       | Done, Done =>
         match d_evaluate dw with
         | Returns page => merge card (extract page)
         | Throws _ => card
         end
         :: match d_close dw with
            | Done => []
            | Fails _ => [card]
            end
       | _, _ => [card]
       end.

(** The array after a loop over [cards] that started empty. *)
Definition runRecords (w : World) (cards : list Card) : list Card :=
  concat (imap (fun k card => appended (w_detail w k) card) cards).
End FeedWalk.

(** The first error of the [try] block before the loop, if any: opening
    the page, setting the cookies, loading the home page, scrolling, and
    evaluating the enumeration, in this order. *)
Definition preludeError (w : World) : option jsstring :=
  match w_newPage w with
  | Fails e => Some e
  | Done =>
    match w_setupCookies w with
    | Fails e => Some e
    | Done =>
      match w_goto w with
      | Fails e => Some e
      | Done =>
        match w_autoScroll w with
        | Fails e => Some e
        | Done =>
          match w_evaluate w with
          | Throws e => Some e
          | Returns _ => None
          end
        end
      end
    end
  end.

(** ** xiaohongshu.ts *)

Module Xiaohongshu.

Definition origin : jsstring := JS.utf16 "https://www.xiaohongshu.com".

(** [XHSNote]; the optional fields of the interface are always set by the
    code that builds a note.  The records reach the script through
    [page.evaluate], so a count is a number or [null]. *)
Record XHSNote : Type := mkXHSNote {
  id : jsstring;
  title : jsstring;
  summary : jsstring;
  fullContent : jsstring;
  htmlContent : jsstring;
  coverImage : jsstring;
  images : list jsstring;
  publishTime : jsstring;
  likes : nullable;
  collects : nullable;
  comments : nullable;
  url : jsstring;
  tags : list jsstring;
  author : Author;
  commentList : list Comment
}.

Record Interactions : Type := mkInteractions {
  i_likes : nullable;
  i_collects : nullable;
  i_comments : nullable
}.

(** The object [extractNoteDetail] resolves to. *)
Record NoteDetail : Type := mkNoteDetail {
  d_title : jsstring;
  d_content : jsstring;
  d_htmlContent : jsstring;
  d_images : list jsstring;
  d_tags : list jsstring;
  d_author : Author;
  d_interactions : Interactions;
  d_commentList : list Comment
}.

(** The clean-up of a tag's text:
    [.trim().replace(/^#/, '').replace(/\s+/g, '')]. *)
Definition normalizeTag (text : jsstring) : jsstring :=
  let trimmed := JS.trim text in
  let unhashed := match trimmed with
                  | 35%N :: r => r
                  | _ => trimmed
                  end in
  JS.removeAll JS.isWhiteSpace unhashed.

Definition zuozhe : jsstring := JS.utf16 "作者".

(** One step of [tagElements.forEach]: the tag pushed for an element. *)
Definition tagOf (tag : Element) : option jsstring :=
  match textContent tag with
  | Some t =>
    if JS.truthy_str t && negb (JS.includes zuozhe t)
    then let tagText := normalizeTag t in
         if JS.truthy_str tagText then Some tagText else None
    else None
  | None => None
  end.

(** One step of [imageElements.forEach]. *)
Definition imageOf (img : Element) : option jsstring :=
  let src := getAttribute img "src" in
  if keepImage src then src else None.

(** A count of the interaction bar: commas go, and only a run of digits
    is parsed; anything else leaves the initial 0. *)
Definition countOf (el : option Element) : number :=
  match el with
  | Some e =>
    match textContent e with
    | Some t =>
      if JS.truthy_str t
      then let text := stripCommas (JS.trim t) in
           if JS.allDigits text then Num.parseInt text else Num.zero
      else Num.zero
    | None => Num.zero
    end
  | None => Num.zero
  end.

(** One step of [commentItems.forEach]. *)
Definition commentOf (item : Element) : option Comment :=
  let commentContent := guardedText (querySelector item ".content") in
  let commentAuthor := guardedText (querySelector item ".author .name") in
  let commentTime := guardedText (querySelector item ".date span:first-child") in
  let likesText := guardedText (querySelector item ".like .count") in
  let commentLikes :=
    match querySelector item ".like .count" with
    | Some e =>
      match textContent e with
      | Some t =>
        if JS.truthy_str t && negb (JS.str_eqb likesText zan)
           && JS.allDigits likesText
        then Num.parseInt likesText else Num.zero
      | None => Num.zero
      end
    | None => Num.zero
    end in
  if JS.truthy_str commentContent
  then Some (mkComment commentContent commentAuthor commentTime
                       (byValue commentLikes))
  else None.

Definition authorOf (document : Document) : Author :=
  let authorEl := or_el (doc_querySelector document ".author-wrapper .name")
                        (doc_querySelector document ".author-wrapper .username") in
  let '(name, url, id) :=
    match authorEl with
    | Some el =>
      let name := trimmedText el in
      match closest el "a" with
      | Some authorLink =>
        let url := attrOrEmpty authorLink "href" in
        let id := match matchAfter (JS.utf16 "profile/") (fun c => (c =? 63)%N) url with
                  | Some g => g
                  | None => []
                  end in
        (name, url, id)
      | None => (name, [], [])
      end
    | None => ([], [], [])
    end in
  let avatarEl := or_el (doc_querySelector document ".author-wrapper img")
                        (doc_querySelector document ".avatar-item") in
  let avatar := match avatarEl with
                | Some el => attrOrEmpty el "src"
                | None => []
                end in
  mkAuthor id name avatar url.

(** What [page.evaluate] resolves to for the function evaluated in the
    detail page: its fields, the counts as they arrive by value. *)
Definition extractNoteDetail (document : Document) : NoteDetail :=
  let noteContainer := or_el (doc_querySelector document "#noteContainer")
                             (doc_querySelector document ".note-container") in
  let htmlContent := match noteContainer with
                     | Some el => outerHTML el
                     | None => []
                     end in
  let titleEl := or_el (or_el (doc_querySelector document "#detail-title")
                              (doc_querySelector document ".title"))
                       (doc_querySelector document "h1") in
  let title := guardedText titleEl in
  let contentEl :=
    or_el (or_el (or_el (doc_querySelector document "#detail-desc")
                        (doc_querySelector document ".desc"))
                 (doc_querySelector document ".content"))
          (doc_querySelector document ".note-content") in
  let content := match contentEl with
                 | Some el => trimmedText el
                 | None => []
                 end in
  let imageElements :=
    or_NodeList (or_NodeList (doc_querySelectorAll document "img.note-slider-img")
                             (doc_querySelectorAll document ".media-container img"))
                (doc_querySelectorAll document ".img-container img") in
  let images := omap imageOf imageElements in
  let tagElements :=
    or_NodeList (doc_querySelectorAll document ".tag")
                (doc_querySelectorAll document "a[id='hash-tag']") in
  let tags := omap tagOf tagElements in
  let author := authorOf document in
  let interactionBar := or_el (doc_querySelector document ".engage-bar-style")
                              (doc_querySelector document ".buttons") in
  let interactions :=
    match interactionBar with
    | Some bar =>
      mkInteractions
        (byValue (countOf (querySelector bar ".like-wrapper .count")))
        (byValue (countOf (querySelector bar ".collect-wrapper .count")))
        (byValue (countOf (querySelector bar ".chat-wrapper .count")))
    | None =>
      mkInteractions (byValue Num.zero) (byValue Num.zero) (byValue Num.zero)
    end in
  let commentItems :=
    doc_querySelectorAll document ".comment-item:not(.comment-item-sub)" in
  let commentList := omap commentOf commentItems in
  mkNoteDetail title content htmlContent images tags author interactions
               commentList.

(** The summary of one card of the listing (the body of the [map]), its
    counts as they arrive by value. *)
Definition cardOf (card : Element) : XHSNote :=
  let linkElement := or_el (querySelector card "a.cover")
                           (querySelectorAll card "a" !! 1%nat) in
  let href := match linkElement with
              | Some el => getAttribute el "href"
              | None => Some []
              end in
  let url := match href with
             | Some h => if JS.truthy_str h then absolute origin h else []
             | None => []
             end in
  let id := if JS.truthy_str url then lastSegment url else [] in
  let title := match querySelector card ".title span" with
               | Some el => trimmedText el
               | None => []
               end in
  let imgElement := match linkElement with
                    | Some el => querySelector el "img"
                    | None => None
                    end in
  let coverImage := match imgElement with
                    | Some el => attrOrEmpty el "src"
                    | None => []
                    end in
  let authorName := match querySelector card ".author-wrapper .name" with
                    | Some el => trimmedText el
                    | None => []
                    end in
  let authorUrl := match querySelector card ".author-wrapper a.author" with
                   | Some el => attrOrEmpty el "href"
                   | None => []
                   end in
  let authorId := if JS.truthy_str authorUrl then lastSegment authorUrl else [] in
  let authorAvatar :=
    match querySelector card ".author-wrapper .author-avatar" with
    | Some el => attrOrEmpty el "src"
    | None => []
    end in
  let likeCountText :=
    match querySelector card ".like-wrapper .count" with
    | Some el => match textContent el with
                 | Some t => JS.or_str (JS.trim t) (JS.utf16 "0")
                 | None => JS.utf16 "0"
                 end
    | None => JS.utf16 "0"
    end in
  let likes :=
    if JS.truthy_str likeCountText then
      if JS.includes wan likeCountText
      then Num.mul (Num.parseFloat (JS.replace wan [] likeCountText))
                   (Num.ofZ 10000)
      else if negb (JS.str_eqb likeCountText zan)
      then Num.or (Num.parseInt (stripCommas likeCountText)) Num.zero
      else Num.zero
    else Num.zero in
  {| id := id; title := title; summary := title; coverImage := coverImage;
     publishTime := []; likes := byValue likes; collects := byValue Num.zero;
     comments := byValue Num.zero; url := url; fullContent := []; htmlContent := [];
     images := []; tags := []; commentList := [];
     author := mkAuthor authorId authorName authorAvatar
                        (absolute origin authorUrl) |}.

(** What [page.evaluate] resolves to for the function evaluated in the
    listing page. *)
Definition enumerate (document : Document) (limitParam : Z) : list XHSNote :=
  List.map cardOf
    (slice0 limitParam (doc_querySelectorAll document "section.note-item")).

(** The merge step: [const note = {...card}] and the assignments up to
    the push. *)
Definition mergeNote (card : XHSNote) (noteDetail : NoteDetail) : XHSNote :=
  {| id := id card;
     title := JS.or_str (d_title noteDetail) (title card);
     summary := summary card;
     fullContent := d_content noteDetail;
     htmlContent := d_htmlContent noteDetail;
     coverImage := coverImage card;
     images := d_images noteDetail;
     publishTime := publishTime card;
     likes := or_nullable (i_likes (d_interactions noteDetail)) (likes card);
     collects := or_nullable (i_collects (d_interactions noteDetail))
                             (collects card);
     comments := or_nullable (i_comments (d_interactions noteDetail))
                             (comments card);
     url := url card;
     tags := d_tags noteDetail;
     author := if JS.truthy_str (author_id (d_author noteDetail))
               then d_author noteDetail else author card;
     commentList := d_commentList noteDetail |}.

Definition fetchLatestNotes (w : World) (limit : Z)
    : outcome (FetchResult XHSNote) :=
  walk url enumerate extractNoteDetail mergeNote w limit.

End Xiaohongshu.

(** ** weibo.ts *)

Module Weibo.

Definition origin : jsstring := JS.utf16 "https://weibo.com".

(** [WeiboPost]; the optional fields of the interface are always set by
    the code that builds a post.  The records reach the script through
    [page.evaluate], so a count is a number or [null]. *)
Record WeiboPost : Type := mkWeiboPost {
  id : jsstring;
  content : jsstring;
  htmlContent : jsstring;
  coverImage : jsstring;
  images : list jsstring;
  publishTime : jsstring;
  likes : nullable;
  reposts : nullable;
  comments : nullable;
  url : jsstring;
  topics : list jsstring;
  author : Author;
  commentList : list Comment
}.

Record Interactions : Type := mkInteractions {
  i_likes : nullable;
  i_reposts : nullable;
  i_comments : nullable
}.

(** The object [extractWeiboDetail] resolves to. *)
Record WeiboDetail : Type := mkWeiboDetail {
  d_content : jsstring;
  d_htmlContent : jsstring;
  d_images : list jsstring;
  d_topics : list jsstring;
  d_author : Author;
  d_interactions : Interactions;
  d_commentList : list Comment
}.

(** [s.replace(/#$/, '')] *)
Definition dropLastHash (s : jsstring) : jsstring :=
  match rev s with
  | 35%N :: r => rev r
  | _ => s
  end.

(** The clean-up of a topic's text:
    [.trim().replace(/^#/, '').replace(/#$/, '').replace(/\s+/g, '')]. *)
Definition normalizeTag (text : jsstring) : jsstring :=
  let trimmed := JS.trim text in
  let unhashed := match trimmed with
                  | 35%N :: r => r
                  | _ => trimmed
                  end in
  JS.removeAll JS.isWhiteSpace (dropLastHash unhashed).

(** One step of [topicElements.forEach]. *)
Definition topicOf (topic : Element) : option jsstring :=
  match textContent topic with
  | Some t =>
    if JS.truthy_str t
    then let topicText := normalizeTag t in
         if JS.truthy_str topicText then Some topicText else None
    else None
  | None => None
  end.

Definition large : jsstring := JS.utf16 "/large/".

(** [s.replace(/\/<word>\d+\//, '/large/')]: the leftmost [/word] that is
    followed by at least one digit and a slash. *)
Fixpoint replaceSized (word s : jsstring) : jsstring :=
  let matched :=
    if JS.startsWith (47%N :: word) s
    then let rest := drop (S (length word)) s in
         match JS.takeWhile JS.isDigit rest, JS.dropWhile JS.isDigit rest with
         | _ :: _, 47%N :: rest' => Some rest'
         | _, _ => None
         end
    else None in
  match matched with
  | Some rest' => large ++ rest'
  | None => match s with
            | [] => []
            | c :: r => c :: replaceSized word r
            end
  end.

(** One step of [imageElements.forEach]. *)
Definition imageOf (img : Element) : option jsstring :=
  let src := getAttribute img "src" in
  if keepImage src
  then match src with
       | Some s => Some (replaceSized (JS.utf16 "orj")
                           (replaceSized (JS.utf16 "thumb") s))
       | None => None
       end
  else None.

(** A count of the toolbar: [el && el.textContent], then the normaliser
    on the trimmed text; the initial 0 otherwise. *)
Definition countOf (el : option Element) : number :=
  match el with
  | Some e =>
    match textContent e with
    | Some t =>
      if JS.truthy_str t then parseNumberWithUnit (JS.trim t) else Num.zero
    | None => Num.zero
    end
  | None => Num.zero
  end.

(** One step of [commentItems.forEach]. *)
Definition commentOf (item : Element) : option Comment :=
  let commentContent :=
    guardedText (or_el (querySelector item ".Comment_text_20osR")
                       (querySelector item ".WB_text")) in
  let commentAuthor :=
    guardedText (or_el (querySelector item ".Comment_name_24BZa")
                       (querySelector item ".WB_text a[usercard]")) in
  let commentTime :=
    guardedText (or_el (querySelector item ".Comment_time_1gesR")
                       (querySelector item ".WB_from span")) in
  let likesEl := or_el (querySelector item ".Comment_like_3G0g-")
                       (querySelector item ".WB_handle span[node-type='like']") in
  let commentLikes :=
    match likesEl with
    | Some e =>
      match textContent e with
      | Some t =>
        if JS.truthy_str t && negb (JS.str_eqb (JS.trim t) zan)
        then parseNumberWithUnit (JS.trim t) else Num.zero
      | None => Num.zero
      end
    | None => Num.zero
    end in
  if JS.truthy_str commentContent
  then Some (mkComment commentContent commentAuthor commentTime
                       (byValue commentLikes))
  else None.

Definition authorOf (document : Document) : Author :=
  let authorEl := or_el (doc_querySelector document ".Profile_name_3gQf8")
                        (doc_querySelector document ".WB_info a") in
  let '(name, url, id) :=
    match authorEl with
    | Some el =>
      let name := trimmedText el in
      let url := absolute origin (attrOrEmpty el "href") in
      let id := match matchAfter (JS.utf16 "/u/")
                        (fun c => (c =? 63) || (c =? 47))%N url with
                | Some g => g
                | None => []
                end in
      (name, url, id)
    | None => ([], [], [])
    end in
  let avatarEl := or_el (doc_querySelector document ".Profile_avatar_3oBfK img")
                        (doc_querySelector document ".WB_face img") in
  let avatar := match avatarEl with
                | Some el => attrOrEmpty el "src"
                | None => []
                end in
  mkAuthor id name avatar url.

(** What [page.evaluate] resolves to for the function evaluated in the
    detail page: its fields, the counts as they arrive by value. *)
Definition extractWeiboDetail (document : Document) : WeiboDetail :=
  let weiboContainer := or_el (doc_querySelector document ".Feed_body_3R0rO")
                              (doc_querySelector document ".WB_detail") in
  let htmlContent := match weiboContainer with
                     | Some el => outerHTML el
                     | None => []
                     end in
  let contentEl := or_el (doc_querySelector document ".detail_wbtext_4CRf9")
                         (doc_querySelector document ".WB_text") in
  let content := match contentEl with
                 | Some el => trimmedText el
                 | None => []
                 end in
  let imageElements :=
    or_NodeList (doc_querySelectorAll document ".picture_pic_86nBa")
                (doc_querySelectorAll document ".WB_media_wrap img") in
  let images := omap imageOf imageElements in
  let topicElements :=
    or_NodeList (doc_querySelectorAll document "a[href*='/k/']")
                (doc_querySelectorAll document "a.a_topic") in
  let topics := omap topicOf topicElements in
  let author := authorOf document in
  let likeEl :=
    or_el (doc_querySelector document "button[title='赞'] .toolbar_num_JXZul")
          (doc_querySelector document "span[node-type='like_status'] em:last-child") in
  let repostEl :=
    or_el (doc_querySelector document "button[title='转发'] .toolbar_num_JXZul")
          (doc_querySelector document "span[node-type='forward_btn_text'] em:last-child") in
  let commentEl :=
    or_el (doc_querySelector document "button[title='评论'] .toolbar_num_JXZul")
          (doc_querySelector document "span[node-type='comment_btn_text'] em:last-child") in
  let interactions :=
    mkInteractions (byValue (countOf likeEl)) (byValue (countOf repostEl))
                   (byValue (countOf commentEl)) in
  let commentItems :=
    or_NodeList (doc_querySelectorAll document ".Comment_content_22-FY")
                (doc_querySelectorAll document ".WB_comment .list_li") in
  let commentList := omap commentOf commentItems in
  mkWeiboDetail content htmlContent images topics author interactions
                commentList.

(** A count of a summary card: the ten-thousand marker is expanded in
    place, anything else goes through [parseInt]. *)
Definition cardCount (el : option Element) : number :=
  match el with
  | Some e =>
    match textContent e with
    | Some t =>
      if JS.truthy_str t
      then let text := JS.trim t in
           if JS.includes wan text
           then Num.mul (Num.parseFloat (JS.replace wan [] text))
                        (Num.ofZ 10000)
           else Num.or (Num.parseInt (stripCommas text)) Num.zero
      else Num.zero
    | None => Num.zero
    end
  | None => Num.zero
  end.

(** The summary of one card of the listing (the body of the [map]), its
    counts as they arrive by value. *)
Definition cardOf (card : Element) : WeiboPost :=
  let id := match querySelector card ".Feed_card_2hGMK[mid]" with
            | Some el => attrOrEmpty el "mid"
            | None => []
            end in
  let linkElement := querySelector card ".head_name_24eEB" in
  let url :=
    match linkElement with
    | Some el =>
      match parentElement el with
      | Some parent =>
        match getAttribute parent "href" with
        | Some parentLink =>
          if JS.truthy_str parentLink then absolute origin parentLink else []
        | None => []
        end
      | None => []
      end
    | None => []
    end in
  let content := match querySelector card ".detail_wbtext_4CRf9" with
                 | Some el => trimmedText el
                 | None => []
                 end in
  let coverImage := match querySelector card ".picture_pic_86nBa" with
                    | Some el => attrOrEmpty el "src"
                    | None => []
                    end in
  let publishTime := match querySelector card ".head_time_1WJv8" with
                     | Some el => trimmedText el
                     | None => []
                     end in
  let authorElement := querySelector card ".head_name_24eEB" in
  let authorName := match authorElement with
                    | Some el => trimmedText el
                    | None => []
                    end in
  let authorLinkElement := match authorElement with
                           | Some el => closest el "a"
                           | None => None
                           end in
  let authorUrl := match authorLinkElement with
                   | Some el => attrOrEmpty el "href"
                   | None => []
                   end in
  let authorId := if JS.truthy_str authorUrl then lastSegment authorUrl else [] in
  let authorAvatar := match querySelector card ".head_avatar_1pn5W img" with
                      | Some el => attrOrEmpty el "src"
                      | None => []
                      end in
  let likes := cardCount (querySelector card "button[title='赞'] .toolbar_num_JXZul") in
  let reposts := cardCount (querySelector card "button[title='转发'] .toolbar_num_JXZul") in
  let comments := cardCount (querySelector card "button[title='评论'] .toolbar_num_JXZul") in
  {| id := id; content := content; coverImage := coverImage;
     publishTime := publishTime; likes := byValue likes;
     reposts := byValue reposts; comments := byValue comments; url := url; htmlContent := []; images := [];
     topics := []; commentList := [];
     author := mkAuthor authorId authorName authorAvatar
                        (absolute origin authorUrl) |}.

(** What [page.evaluate] resolves to for the function evaluated in the
    listing page. *)
Definition enumerate (document : Document) (limitParam : Z) : list WeiboPost :=
  List.map cardOf
    (slice0 limitParam (doc_querySelectorAll document ".Feed_item_2xmo1")).

(** The merge step: [const post = {...card}] and the assignments up to
    the push. *)
Definition mergePost (card : WeiboPost) (weiboDetail : WeiboDetail) : WeiboPost :=
  {| id := id card;
     content := JS.or_str (d_content weiboDetail) (content card);
     htmlContent := d_htmlContent weiboDetail;
     coverImage := coverImage card;
     images := d_images weiboDetail;
     publishTime := publishTime card;
     likes := or_nullable (i_likes (d_interactions weiboDetail)) (likes card);
     reposts := or_nullable (i_reposts (d_interactions weiboDetail))
                            (reposts card);
     comments := or_nullable (i_comments (d_interactions weiboDetail))
                             (comments card);
     url := url card;
     topics := d_topics weiboDetail;
     author := if JS.truthy_str (author_id (d_author weiboDetail))
               then d_author weiboDetail else author card;
     commentList := d_commentList weiboDetail |}.

Definition fetchLatestWeibo (w : World) (limit : Z)
    : outcome (FetchResult WeiboPost) :=
  walk url enumerate extractWeiboDetail mergePost w limit.

End Weibo.

(** ** Further definitions *)

(** The sign bit of a number ([NaN] has none that the scripts can see):
    set for the negative numbers and for [-0]. *)
Definition signBit (x : number) : bool :=
  match x with
  | S754_zero s | S754_infinity s | S754_finite s _ _ => s
  | S754_nan => false
  end.

Definition minus : N := 45%N.

(** ** The scroll loop ([autoScroll], both scripts)

    The timer callback reads [document.body.scrollHeight], scrolls by 100
    pixels, adds 100 to [totalHeight] and resolves when [totalHeight]
    has reached the height it read.  [scrollHeight k] is the height the
    callback reads at its [k]-th run; the result is the number of runs
    of the callback, within [fuel] runs. *)
Definition distance : Z := 100.

Fixpoint autoScrollFrom (scrollHeight : nat -> Z) (fuel tick : nat)
    (totalHeight : Z) : option nat :=
  match fuel with
  | O => None
  | S fuel' =>
    let height := scrollHeight tick in
    let totalHeight := totalHeight + distance in
    if totalHeight >=? height then Some (S tick)
    else autoScrollFrom scrollHeight fuel' (S tick) totalHeight
  end.

Definition autoScroll (scrollHeight : nat -> Z) (fuel : nat) : option nat :=
  autoScrollFrom scrollHeight fuel 0 0.

(** ** The calls a run makes on the browser

    The same walk with every call on the browser written to a log, next
    to the records pushed: the launch, the steps before the loop, for
    the card of index [i] the calls on its detail tab, and the close of
    the [finally] block.  The delays are not logged. *)
Inductive Call : Type :=
  | Launch
  | NewPage
  | SetupCookies
  | GotoHome
  | AutoScroll
  | EvaluateListing
  | OpenTab (i : nat)
  | SizeTab (i : nat)
  | GotoDetail (i : nat)
  | EvaluateDetail (i : nat)
  | CloseTab (i : nat)
  | CloseBrowser.

Inductive Event (Card : Type) : Type :=
  | Pushed (card : Card)
  | Called (c : Call).
Arguments Pushed {Card} card.
Arguments Called {Card} c.

Definition pushed {Card : Type} (log : list (Event Card)) : list Card :=
  omap (fun ev => match ev with Pushed card => Some card | Called _ => None end) log.

Definition calls {Card : Type} (log : list (Event Card)) : list Call :=
  omap (fun ev => match ev with Pushed _ => None | Called c => Some c end) log.

Section LoggedWalk.
Context {Card Detail : Type}.
Variable card_url : Card -> jsstring.
Variable enumerate : Document -> Z -> list Card.
Variable extract : Document -> Detail.
Variable merge : Card -> Detail -> Card.

Definition call (c : Call) (s : step) : exec (R := Event Card) unit :=
  push (Called c) >> await s.

Definition call_value {A : Type} (c : Call) (o : outcome A)
    : exec (R := Event Card) A :=
  push (Called c) >> await_value o.

Definition iterationLog (i : nat) (dw : DetailWorld) (card : Card)
    : exec (R := Event Card) unit :=
  try_catch
    (if negb (JS.truthy_str (card_url card))
     then push (Pushed card)
     else
       call (OpenTab i) (d_newPage dw) >>
       call (SizeTab i) (d_setViewport dw) >>
       try_catch (call (GotoDetail i) (d_goto dw)) (fun _ => ret tt) >>
       try_catch
         (let* page := call_value (EvaluateDetail i) (d_evaluate dw) in
          push (Pushed (merge card (extract page))))
         (fun _ => push (Pushed card)) >>
       call (CloseTab i) (d_close dw))
    (fun _ => push (Pushed card)).

Fixpoint enrichLog (details : nat -> DetailWorld) (i : nat)
    (cards : list Card) : exec (R := Event Card) unit :=
  match cards with
  | [] => ret tt
  | card :: rest =>
    iterationLog i (details i) card >> enrichLog details (S i) rest
  end.

Definition walkBodyLog (w : World) (limit : Z) : exec (R := Event Card) unit :=
  call NewPage (w_newPage w) >>
  call SetupCookies (w_setupCookies w) >>
  call GotoHome (w_goto w) >>
  call AutoScroll (w_autoScroll w) >>
  let* listing := call_value EvaluateListing (w_evaluate w) in
  enrichLog (w_detail w) 0 (enumerate listing limit).

Definition walkLog (w : World) (limit : Z)
    : outcome (FetchResult Card) * list (Event Card) :=
  match w_launch w with
  | Fails e => (Throws e, [Called Launch])
  | Done =>
    let '(o, log) := walkBodyLog w limit [Called Launch] in
    let result :=
      match o with
      | Returns _ => mkFetchResult true (Some (pushed log)) None
      | Throws e => mkFetchResult false None (Some e)
      end in
    (match w_close w with
     | Done => Returns result
     | Fails e => Throws e
     end, log ++ [Called CloseBrowser])
  end.

(** The calls of the steps before the loop. *)
Definition preludeCalls (w : World) : list Call :=
  NewPage ::
  match w_newPage w with
  | Fails _ => []
  | Done =>
    SetupCookies ::
    match w_setupCookies w with
    | Fails _ => []
    | Done =>
      GotoHome ::
      match w_goto w with
      | Fails _ => []
      | Done =>
        AutoScroll ::
        match w_autoScroll w with
        | Fails _ => []
        | Done => [EvaluateListing]
        end
      end
    end
  end.

(** The calls on the detail tab of the card of index [i], read off
    [iterationLog]. *)
Definition tabCalls (i : nat) (dw : DetailWorld) (card : Card) : list Call :=
  if negb (JS.truthy_str (card_url card)) then []
  else OpenTab i ::
       match d_newPage dw with
       | Fails _ => []
       | Done =>
         SizeTab i ::
         match d_setViewport dw with
         | Fails _ => []
         | Done => [GotoDetail i; EvaluateDetail i; CloseTab i]
         end
       end.

(** The calls of the loop, made when no step before it has thrown. *)
Definition loopCalls (w : World) (limit : Z) : list Call :=
  match preludeError w, w_evaluate w with
  | None, Returns listing =>
    concat (imap (fun k card => tabCalls k (w_detail w k) card)
                 (enumerate listing limit))
  | _, _ => []
  end.
End LoggedWalk.

(** The detail tab a call is made on. *)
Definition tabOf (c : Call) : option nat :=
  match c with
  | OpenTab i | SizeTab i | GotoDetail i | EvaluateDetail i | CloseTab i => Some i
  | _ => None
  end.

(** The logs of the two scripts. *)
Definition fetchLatestNotesLog (w : World) (limit : Z) : list Call :=
  calls (snd (walkLog Xiaohongshu.url Xiaohongshu.enumerate
                Xiaohongshu.extractNoteDetail Xiaohongshu.mergeNote w limit)).

Definition fetchLatestWeiboLog (w : World) (limit : Z) : list Call :=
  calls (snd (walkLog Weibo.url Weibo.enumerate
                Weibo.extractWeiboDetail Weibo.mergePost w limit)).

(** The place of a call among the calls on one tab, in the order of the
    loop body. *)
Definition stage (c : Call) : nat :=
  match c with
  | OpenTab _ => 0
  | SizeTab _ => 1
  | GotoDetail _ => 2
  | EvaluateDetail _ => 3
  | CloseTab _ => 4
  | _ => 0
  end.

(** When both calls are on detail tabs: [c] is on an earlier tab than
    [d], or on the same tab at an earlier stage. *)
Definition tabBefore (c d : Call) : Prop :=
  forall j i, tabOf c = Some j -> tabOf d = Some i ->
    (j < i)%nat \/ (j = i /\ (stage c < stage d)%nat).

(** ** The digests ([getLatestNotes], [getLatestWeibo])

    The template literals, with the conversion of a number to a string
    left to [numberToString]. *)
Definition nl : jsstring := [10%N].
Definition ellipsis : jsstring := JS.utf16 "...".

(** [s.substring(0, n)] followed by ['...'] when [s.length > n] *)
Definition preview (n : nat) (s : jsstring) : jsstring :=
  take n s ++ (if (n <? length s)%nat then ellipsis else []).

(** [parts.join(sep)] *)
Fixpoint join (sep : jsstring) (parts : list jsstring) : jsstring :=
  match parts with
  | [] => []
  | part :: rest =>
    match rest with
    | [] => part
    | _ :: _ => part ++ sep ++ join sep rest
    end
  end.

Section Digest.
Variable numberToString : number -> jsstring.

Definition natToString (n : nat) : jsstring :=
  numberToString (Num.ofZ (Z.of_nat n)).

(** One line of the comment preview. *)
Definition commentLine (i : nat) (comment : Comment) : jsstring :=
  nl ++ JS.utf16 "  " ++ natToString (i + 1) ++ JS.utf16 ". "
  ++ comment_author comment ++ JS.utf16 ": "
  ++ preview 30 (comment_content comment).

(** The comment preview: nothing for an empty list, otherwise a header
    and the first three comments. *)
Definition commentPreview (commentList : list Comment) : jsstring :=
  if (0 <? length commentList)%nat
  then nl ++ JS.utf16 "热门评论(" ++ natToString (Nat.min 3 (length commentList))
       ++ JS.utf16 "条):"
       ++ concat (imap commentLine (take 3 commentList))
  else [].

(** A count in a template literal: [null] is written [null]. *)
Definition countToString (v : nullable) : jsstring :=
  match v with
  | Some x => numberToString x
  | None => JS.utf16 "null"
  end.

(** [images?.length || 0] *)
Definition imageCount (images : list jsstring) : jsstring :=
  numberToString (Num.or (Num.ofZ (Z.of_nat (length images))) (Num.ofZ 0)).

(** The callback of [result.notes.forEach] in xiaohongshu.ts. *)
Definition noteItem (index : nat) (note : Xiaohongshu.XHSNote) : jsstring :=
  (nl ++ nl ++ JS.utf16 "[" ++ natToString (index + 1) ++ JS.utf16 "] "
   ++ JS.or_str (Xiaohongshu.title note) (JS.utf16 "无标题"))
  ++ (nl ++ JS.utf16 "摘要: " ++ preview 50 (Xiaohongshu.summary note))
  ++ (if JS.truthy_str (Xiaohongshu.fullContent note)
      then nl ++ JS.utf16 "详细内容: " ++ preview 100 (Xiaohongshu.fullContent note)
      else [])
  ++ (if (0 <? length (Xiaohongshu.tags note))%nat
      then nl ++ JS.utf16 "标签: " ++ join (JS.utf16 ", ") (Xiaohongshu.tags note)
      else [])
  ++ (nl ++ JS.utf16 "作者: " ++ author_name (Xiaohongshu.author note))
  ++ (nl ++ JS.utf16 "图片数量: " ++ imageCount (Xiaohongshu.images note))
  ++ (nl ++ JS.utf16 "点赞: " ++ countToString (Xiaohongshu.likes note)
      ++ JS.utf16 ", 收藏: " ++ countToString (Xiaohongshu.collects note)
      ++ JS.utf16 ", 评论: " ++ countToString (Xiaohongshu.comments note))
  ++ commentPreview (Xiaohongshu.commentList note)
  ++ (nl ++ JS.utf16 "链接: " ++ Xiaohongshu.url note).

(** The callback of [result.posts.forEach] in weibo.ts. *)
Definition postItem (index : nat) (post : Weibo.WeiboPost) : jsstring :=
  (nl ++ nl ++ JS.utf16 "[" ++ natToString (index + 1) ++ JS.utf16 "] "
   ++ preview 50 (Weibo.content post))
  ++ (if (0 <? length (Weibo.topics post))%nat
      then nl ++ JS.utf16 "话题: " ++ join (JS.utf16 ", ") (Weibo.topics post)
      else [])
  ++ (nl ++ JS.utf16 "作者: " ++ author_name (Weibo.author post))
  ++ (nl ++ JS.utf16 "发布时间: " ++ Weibo.publishTime post)
  ++ (nl ++ JS.utf16 "图片数量: " ++ imageCount (Weibo.images post))
  ++ (nl ++ JS.utf16 "点赞: " ++ countToString (Weibo.likes post)
      ++ JS.utf16 ", 转发: " ++ countToString (Weibo.reposts post)
      ++ JS.utf16 ", 评论: " ++ countToString (Weibo.comments post))
  ++ commentPreview (Weibo.commentList post)
  ++ (nl ++ JS.utf16 "链接: " ++ Weibo.url post).

(** The digest of a result: [undefined] unless the result has
    [success] and records. *)
Definition digestOf {Card : Type} (item : nat -> Card -> jsstring)
    (result : FetchResult Card) : option jsstring :=
  if success result
  then match records result with
       | Some cards => Some (join nl (imap item cards))
       | None => None
       end
  else None.

(** [options.limit], with the default of the parameter when it is
    [undefined]. *)
Definition limitOf (limit : option Z) : Z := default 10 limit.

Definition getLatestNotes (w : World) (limit : option Z)
    : outcome (option jsstring) :=
  match Xiaohongshu.fetchLatestNotes w (limitOf limit) with
  | Throws e => Throws e
  | Returns result => Returns (digestOf noteItem result)
  end.

Definition getLatestWeibo (w : World) (limit : option Z)
    : outcome (option jsstring) :=
  match Weibo.fetchLatestWeibo w (limitOf limit) with
  | Throws e => Throws e
  | Returns result => Returns (digestOf postItem result)
  end.
End Digest.

(** A record as far as the digest reads it: no id, html content, cover
    image or (in xiaohongshu.ts) publish time; the summary (in weibo.ts
    the content) cut after 51 code units, the full content after 101;
    the first three comments, without time and likes, their contents cut
    after 31. *)
Definition clipComment (comment : Comment) : Comment :=
  mkComment (take 31 (comment_content comment)) (comment_author comment)
            [] None.

Definition clipNote (note : Xiaohongshu.XHSNote) : Xiaohongshu.XHSNote :=
  Xiaohongshu.mkXHSNote
    [] (Xiaohongshu.title note)
    (take 51 (Xiaohongshu.summary note))
    (take 101 (Xiaohongshu.fullContent note))
    [] [] (Xiaohongshu.images note) []
    (Xiaohongshu.likes note) (Xiaohongshu.collects note)
    (Xiaohongshu.comments note) (Xiaohongshu.url note)
    (Xiaohongshu.tags note) (Xiaohongshu.author note)
    (clipComment <$> take 3 (Xiaohongshu.commentList note)).

Definition clipPost (post : Weibo.WeiboPost) : Weibo.WeiboPost :=
  Weibo.mkWeiboPost
    [] (take 51 (Weibo.content post)) [] [] (Weibo.images post)
    (Weibo.publishTime post)
    (Weibo.likes post) (Weibo.reposts post) (Weibo.comments post)
    (Weibo.url post) (Weibo.topics post) (Weibo.author post)
    (clipComment <$> take 3 (Weibo.commentList post)).

(** ** Posting ([postWeibo], [postXiaohongshu])

    The two posting functions, with the calls they make on the browser
    written to a log.  The delays are not logged. *)
Record PostResult : Type := mkPostResult {
  post_success : bool;
  post_url : option jsstring;
  post_error : option jsstring
}.

Inductive PostCall : Type :=
  | LaunchBrowser
  | OpenPage
  | SetCookies
  | GotoPublish
  | EvaluateHandle
  | ClickHandle
  | WaitFor (selector : string)
  | Click (selector : string)
  | TypeText (text : jsstring)
  | UploadFile (files : list jsstring)
  | WaitUploaded
  | CloseTheBrowser.

(** What the page answers to one use of [waitForSelector]: the wait,
    the query of the element (an element is given by what happens when
    the script acts on it: a click, or the upload for a file input). *)
Record Lookup : Type := mkLookup {
  waited : step;
  queried : outcome (option step)
}.

(** [waitForSelector]: the element, or [null] when the wait or the query
    throws. *)
Definition waitForSelector (l : Lookup) : option step :=
  match waited l with
  | Fails _ => None
  | Done =>
    match queried l with
    | Returns element => element
    | Throws _ => None
    end
  end.

Definition throwError {A : Type} (message : jsstring)
    : exec (R := PostCall) A :=
  fun st => (Throws message, st).

Definition perform (c : PostCall) (s : step) : exec (R := PostCall) unit :=
  push c >> await s.

Definition lookup (selector : string) (l : Lookup)
    : exec (R := PostCall) (option step) :=
  push (WaitFor selector) >> ret (waitForSelector l).

(** The frame shared by the two functions: the launch before the [try],
    the [catch] that turns an error of the body into a failure result,
    the [finally] that closes the browser. *)
Definition attempt (launch close : step) (body : exec (R := PostCall) unit)
    : outcome PostResult * list PostCall :=
  match launch with
  | Fails e => (Throws e, [LaunchBrowser])
  | Done =>
    let '(o, log) := body [LaunchBrowser] in
    let result :=
      match o with
      | Returns _ => mkPostResult true None None
      | Throws e => mkPostResult false None (Some e)
      end in
    (match close with
     | Done => Returns result
     | Fails e => Throws e
     end, log ++ [CloseTheBrowser])
  end.

Module WeiboPosting.

(** [WeiboPostOptions]; an omitted list is the empty list and an omitted
    location the empty string. *)
Record Options : Type := mkOptions {
  content : jsstring;
  images : list jsstring;
  topics : list jsstring;
  location : jsstring
}.

Record PostWorld : Type := mkPostWorld {
  launch : step;
  newPage : step;
  setupCookies : step;
  goto : step;
  publishBox : Lookup;
  typeContent : step;
  imageButton : Lookup;
  uploadInput : Lookup;
  uploaded : step;
  submitButton : Lookup;
  close : step
}.

Definition publishBoxSelector : string := ".Form_input_2gtXx".
Definition imageButtonSelector : string := ".VPlus_file_n7Xjc".
Definition uploadInputSelector : string := "input[type='file']".
Definition submitButtonSelector : string := ".Tool_btn_2Eane".

(** The [if] over the images. *)
Definition uploadImages (options : Options) (pw : PostWorld)
    : exec (R := PostCall) unit :=
  if (0 <? length (images options))%nat
  then
    let* imageButton := lookup imageButtonSelector (imageButton pw) in
    match imageButton with
    | None => throwError (JS.utf16 "找不到图片上传按钮")
    | Some click =>
      perform (Click imageButtonSelector) click >>
      let* uploadInput := lookup uploadInputSelector (uploadInput pw) in
      match uploadInput with
      | None => throwError (JS.utf16 "找不到图片上传输入框")
      | Some upload =>
        perform (UploadFile (images options)) upload >>
        perform WaitUploaded (uploaded pw)
      end
    end
  else ret tt.

(** The [try] block. *)
Definition postBody (options : Options) (pw : PostWorld)
    : exec (R := PostCall) unit :=
  perform OpenPage (newPage pw) >>
  perform SetCookies (setupCookies pw) >>
  perform GotoPublish (goto pw) >>
  let* publishBox := lookup publishBoxSelector (publishBox pw) in
  match publishBox with
  | None => throwError (JS.utf16 "找不到微博发布框")
  | Some click =>
    perform (Click publishBoxSelector) click >>
    perform (TypeText (content options)) (typeContent pw) >>
    uploadImages options pw >>
    let* submitButton := lookup submitButtonSelector (submitButton pw) in
    match submitButton with
    | None => throwError (JS.utf16 "找不到发布按钮")
    | Some click => perform (Click submitButtonSelector) click
    end
  end.

Definition postWeibo (options : Options) (pw : PostWorld)
    : outcome PostResult * list PostCall :=
  attempt (launch pw) (close pw) (postBody options pw).

End WeiboPosting.

Module XhsPosting.

(** [XHSPostOptions]; omitted tags are the empty list and an omitted
    location the empty string. *)
Record Options : Type := mkOptions {
  title : jsstring;
  content : jsstring;
  images : list jsstring;
  tags : list jsstring;
  location : jsstring
}.

(** [tagInput], [typeTag] and [tagItem] are indexed by the place of the
    tag in [options.tags]. *)
Record PostWorld : Type := mkPostWorld {
  launch : step;
  newPage : step;
  setupCookies : step;
  goto : step;
  evaluateHandle : step;
  toPublishBtn : step;
  uploadInput : Lookup;
  uploaded : step;
  titleInput : Lookup;
  typeTitle : step;
  contentInput : Lookup;
  typeContent : step;
  tagBtn : Lookup;
  tagInput : nat -> Lookup;
  typeTag : nat -> step;
  tagItem : nat -> Lookup;
  closeBtn : Lookup;
  locationBtn : Lookup;
  locationInput : Lookup;
  typeLocation : step;
  locationItem : Lookup;
  submitBtn : Lookup;
  close : step
}.

Definition uploadInputSelector : string := "input[type='file']".
Definition titleInputSelector : string := "input[placeholder*='标题']".
Definition contentInputSelector : string := "div[contenteditable='true']".
Definition tagBtnSelector : string := "button:has-text('添加话题')".
Definition tagInputSelector : string := "input[placeholder*='搜索话题']".
Definition tagItemSelector : string := ".topic-item".
Definition closeBtnSelector : string := "button[aria-label='关闭']".
Definition locationBtnSelector : string := "button:has-text('添加位置')".
Definition locationInputSelector : string := "input[placeholder*='搜索地点']".
Definition locationItemSelector : string := ".location-item".
Definition submitBtnSelector : string := "button.publishBtn".

(** [if (element) { await element.click(); then }] *)
Definition whenFound (selector : string) (l : Lookup)
    (then_ : exec (R := PostCall) unit) : exec (R := PostCall) unit :=
  let* element := lookup selector l in
  match element with
  | Some click => perform (Click selector) click >> then_
  | None => ret tt
  end.

(** [for (const tag of options.tags)], from the tag of index [i] on. *)
Fixpoint addTags (pw : PostWorld) (i : nat) (tags : list jsstring)
    : exec (R := PostCall) unit :=
  match tags with
  | [] => ret tt
  | tag :: rest =>
    whenFound tagInputSelector (tagInput pw i)
      (perform (TypeText tag) (typeTag pw i) >>
       whenFound tagItemSelector (tagItem pw i) (ret tt)) >>
    addTags pw (S i) rest
  end.

(** The steps between the upload and the publish button, none of which
    is required to find its element. *)
Definition fillIn (options : Options) (pw : PostWorld)
    : exec (R := PostCall) unit :=
  whenFound titleInputSelector (titleInput pw)
    (perform (TypeText (title options)) (typeTitle pw)) >>
  whenFound contentInputSelector (contentInput pw)
    (perform (TypeText (content options)) (typeContent pw)) >>
  (if (0 <? length (tags options))%nat
   then whenFound tagBtnSelector (tagBtn pw)
          (addTags pw 0 (tags options) >>
           whenFound closeBtnSelector (closeBtn pw) (ret tt))
   else ret tt) >>
  (if JS.truthy_str (location options)
   then whenFound locationBtnSelector (locationBtn pw)
          (whenFound locationInputSelector (locationInput pw)
             (perform (TypeText (location options)) (typeLocation pw) >>
              whenFound locationItemSelector (locationItem pw) (ret tt)))
   else ret tt).

(** The [try] block.  [page.evaluateHandle] resolves to a handle, an
    object, also when no span has the text: the [else] branch of
    [if (toPublishBtn)] is never taken and the click is always called. *)
Definition postBody (options : Options) (pw : PostWorld)
    : exec (R := PostCall) unit :=
  perform OpenPage (newPage pw) >>
  perform SetCookies (setupCookies pw) >>
  perform GotoPublish (goto pw) >>
  perform EvaluateHandle (evaluateHandle pw) >>
  perform ClickHandle (toPublishBtn pw) >>
  let* uploadInput := lookup uploadInputSelector (uploadInput pw) in
  match uploadInput with
  | None => throwError (JS.utf16 "找不到图片上传输入框")
  | Some upload =>
    (if (0 <? length (images options))%nat
     then perform (UploadFile (images options)) upload
     else throwError (JS.utf16 "没有提供图片")) >>
    perform WaitUploaded (uploaded pw) >>
    fillIn options pw >>
    let* submitBtn := lookup submitBtnSelector (submitBtn pw) in
    match submitBtn with
    | None => throwError (JS.utf16 "找不到发布按钮")
    | Some click => perform (Click submitBtnSelector) click
    end
  end.

Definition postXiaohongshu (options : Options) (pw : PostWorld)
    : outcome PostResult * list PostCall :=
  attempt (launch pw) (close pw) (postBody options pw).

End XhsPosting.

(** *** Predicates on the steps of a posting function *)

(** [m] only appends to the log, and never the call [c]. *)
Definition without {A : Type} (c : PostCall) (m : exec (R := PostCall) A) : Prop :=
  forall st, exists more, snd (m st) = st ++ more /\ c ∉ more.

(** [m] always throws. *)
Definition throws {A : Type} (m : exec (R := PostCall) A) : Prop :=
  forall st, exists e, fst (m st) = Throws e.

(** The log [more] of a run that ended with [o], for the publish button
    of selector [selector] that [submit] looks up: when the run returned,
    the click on the button is its last call, made once, and did not
    throw; when it threw, the button was not clicked, or the click is
    the last call, made once, and is what threw. *)
Definition clickedLast (selector : string) (submit : option step)
    (o : outcome unit) (more : list PostCall) : Prop :=
  match o with
  | Returns _ =>
    exists before, more = before ++ [Click selector]
      /\ Click selector ∉ before /\ submit = Some Done
  | Throws e =>
    Click selector ∉ more
    \/ exists before, more = before ++ [Click selector]
         /\ Click selector ∉ before /\ submit = Some (Fails e)
  end.

Definition endsWithClick (selector : string) (submit : option step)
    (m : exec (R := PostCall) unit) : Prop :=
  forall st, exists more,
    snd (m st) = st ++ more /\ clickedLast selector submit (fst (m st)) more.

(** [m] always returns. *)
Definition returns (m : exec (R := PostCall) unit) : Prop :=
  forall st, fst (m st) = Returns tt.

(** An element that is not found, or is found and can be acted on. *)
Definition harmless (l : Lookup) : Prop :=
  waitForSelector l = None \/ waitForSelector l = Some Done.

(** ** Sample pages and runs

    Small concrete inputs, used below to instantiate the statements. *)

Module Samples.

Definition noAttribute : string -> option jsstring := fun _ => None.
Definition noMatch : string -> list Element := fun _ => [].
Definition noAncestor : string -> option Element := fun _ => None.

(** An element with a text and nothing else. *)
Definition textElement (text : string) : Element :=
  mkElement (Some (JS.utf16 text)) noAttribute noMatch noAncestor None [].

(** An element with one attribute. *)
Definition attrElement (name value : string) : Element :=
  mkElement (Some []) 
    (fun a => if String.eqb a name then Some (JS.utf16 value) else None)
    noMatch noAncestor None [].

(** An element that answers one selector. *)
Definition parentOf (sel : string) (children : list Element) : Element :=
  mkElement (Some []) noAttribute
    (fun s => if String.eqb s sel then children else [])
    noAncestor None [].

(** A document that answers one selector. *)
Definition pageOf (sel : string) (matches : list Element) : Document :=
  mkDocument (fun s => if String.eqb s sel then matches else []).

(** A page on which no selector of the scripts matches. *)
Definition blankPage : Document := mkDocument noMatch.

Definition cardAuthor : Author :=
  mkAuthor (JS.utf16 "c9") (JS.utf16 "card author") []
           (JS.utf16 "https://www.xiaohongshu.com/user/profile/c9").

Definition detailAuthor (id : string) : Author :=
  mkAuthor (JS.utf16 id) (JS.utf16 "detail author") (JS.utf16 "a.png")
           (JS.utf16 "/user/profile/u123").

(** A summary card of xiaohongshu.ts with 25000 likes. *)
Definition xhsCard : Xiaohongshu.XHSNote :=
  {| Xiaohongshu.id := JS.utf16 "n1"; Xiaohongshu.title := JS.utf16 "t";
     Xiaohongshu.summary := JS.utf16 "t"; Xiaohongshu.fullContent := [];
     Xiaohongshu.htmlContent := []; Xiaohongshu.coverImage := [];
     Xiaohongshu.images := []; Xiaohongshu.publishTime := [];
     Xiaohongshu.likes := Some (Num.ofZ 25000);
     Xiaohongshu.collects := Some Num.zero;
     Xiaohongshu.comments := Some Num.zero;
     Xiaohongshu.url := JS.utf16 "https://www.xiaohongshu.com/explore/n1";
     Xiaohongshu.tags := []; Xiaohongshu.author := cardAuthor;
     Xiaohongshu.commentList := [] |}.

(** A detail extraction with 7 collects, no likes, a comment count that
    arrived as [null], and a given author id. *)
Definition xhsDetail (authorId : string) : Xiaohongshu.NoteDetail :=
  {| Xiaohongshu.d_title := []; Xiaohongshu.d_content := JS.utf16 "body";
     Xiaohongshu.d_htmlContent := []; Xiaohongshu.d_images := [];
     Xiaohongshu.d_tags := []; Xiaohongshu.d_author := detailAuthor authorId;
     Xiaohongshu.d_interactions :=
       Xiaohongshu.mkInteractions (Some Num.zero) (Some (Num.ofZ 7)) None;
     Xiaohongshu.d_commentList := [] |}.


(** A summary card of the listing whose cover link has the given href. *)
Definition linkCard (href : string) : Element :=
  parentOf "a.cover" [attrElement "href" href].

(** A summary card without any link. *)
Definition bareCard : Element := parentOf "a.cover" [].

(** A listing of xiaohongshu.ts with five cards. *)
Definition listing5 : Document :=
  pageOf "section.note-item"
    [linkCard "/explore/n1"; linkCard "/explore/n2"; linkCard "/explore/n3";
     linkCard "/explore/n4"; linkCard "/explore/n5"].

(** A detail page that shows a body text. *)
Definition bodyPage : Document :=
  pageOf "#detail-desc" [textElement "full text"].

(** Detail views: all calls succeed; the tab fails to close; the
    navigation times out while the page has rendered; the evaluation of
    the extractor throws. *)
Definition detailOk (page : Document) : DetailWorld :=
  mkDetailWorld Done Done Done (Returns page) Done.
Definition detailCloseFails (page : Document) : DetailWorld :=
  mkDetailWorld Done Done Done (Returns page) (Fails (JS.utf16 "Target closed")).

(** A run in which every step outside the detail views succeeds. *)
Definition run (listing : Document) (details : nat -> DetailWorld) : World :=
  mkWorld Done Done Done Done Done (Returns listing) details Done.

(** A run in which the browser cannot be launched. *)
Definition runNoLaunch : World :=
  mkWorld (Fails (JS.utf16 "Failed to launch the browser process"))
          Done Done Done Done (Returns listing5) (fun _ => detailOk bodyPage) Done.

(** A run in which the first page cannot be opened. *)
Definition runNoPage : World :=
  mkWorld Done (Fails (JS.utf16 "Protocol error")) Done Done Done
          (Returns listing5) (fun _ => detailOk bodyPage) Done.

(** A run in which the detail tab of the first card fails to close. *)
Definition runCloseFails : World :=
  run listing5 (fun i => match i with
                         | O => detailCloseFails bodyPage
                         | _ => detailOk bodyPage
                         end).

(** A run in which all detail views succeed. *)
Definition runOk : World := run listing5 (fun _ => detailOk bodyPage).




(** A cookie string with a value that contains [=] and a pair without a
    value. *)
Definition cookies : jsstring := JS.utf16 "sid=abc==; theme".

(** A detail page of xiaohongshu.ts in the alternate markup only: one
    image under [.media-container] and one tag link. *)
Definition alternateNotePage : Document :=
  mkDocument (fun s =>
    if String.eqb s ".media-container img"
    then [attrElement "src" "https://ci.xiaohongshu.com/a.jpg"]
    else if String.eqb s "a[id='hash-tag']" then [textElement "#AI"]
    else []).

(** A detail page of weibo.ts in the legacy markup only. *)
Definition legacyWeiboPage : Document :=
  mkDocument (fun s =>
    if String.eqb s ".WB_media_wrap img"
    then [attrElement "src" "https://wx1.sinaimg.cn/thumb150/a.jpg"]
    else if String.eqb s "a.a_topic" then [textElement "#AI#"]
    else if String.eqb s ".WB_comment .list_li"
    then [parentOf ".WB_text" [textElement "nice"]]
    else if String.eqb s ".WB_text" then [textElement "legacy body"]
    else []).

(** A detail page of xiaohongshu.ts with the three counts of its bar. *)
Definition barPage (likes collects chats : string) : Document :=
  pageOf ".engage-bar-style"
    [mkElement (Some []) noAttribute
       (fun s => if String.eqb s ".like-wrapper .count" then [textElement likes]
                 else if String.eqb s ".collect-wrapper .count" then [textElement collects]
                 else if String.eqb s ".chat-wrapper .count" then [textElement chats]
                 else [])
       noAncestor None []].

(** A detail page of weibo.ts that shows a like count of [2.5万] and no
    other counter. *)
Definition likesOnlyPage : Document :=
  mkDocument (fun s =>
    if String.eqb s "button[title='赞'] .toolbar_num_JXZul"
    then [textElement "2.5万"] else []).

(** A detail page of weibo.ts with the three counts of its toolbar. *)
Definition toolbarPage (likes reposts comments : string) : Document :=
  mkDocument (fun s =>
    if String.eqb s "button[title='赞'] .toolbar_num_JXZul" then [textElement likes]
    else if String.eqb s "button[title='转发'] .toolbar_num_JXZul" then [textElement reposts]
    else if String.eqb s "button[title='评论'] .toolbar_num_JXZul" then [textElement comments]
    else []).


(** A listing whose only card has no link, and a run over it. *)
Definition listingBare : Document := pageOf "section.note-item" [bareCard].
Definition runBare : World := run listingBare (fun _ => detailOk bodyPage).


(** A detail page of xiaohongshu.ts with two comments, the second one
    blank, three tag elements and an author link. *)
Definition richNotePage : Document :=
  mkDocument (fun s =>
    if String.eqb s ".comment-item:not(.comment-item-sub)"
    then [parentOf ".content" [textElement "nice"];
          parentOf ".content" [textElement "   "]]
    else if String.eqb s ".tag"
    then [textElement "#AI 学习"; textElement "#"; textElement "作者"]
    else if String.eqb s ".author-wrapper .name"
    then [mkElement (Some (JS.utf16 " Ann ")) noAttribute noMatch
            (fun a => if String.eqb a "a"
                      then Some (attrElement "href" "/user/profile/u123?tab=note")
                      else None)
            None []]
    else []).


(** A listing of weibo.ts with one card, whose name element sits in a
    link to [/1234567/Nabc], and a detail page with a thumbnail and an
    avatar image. *)
Definition weiboListing : Document :=
  pageOf ".Feed_item_2xmo1"
    [parentOf ".head_name_24eEB"
       [mkElement (Some (JS.utf16 "Bob")) noAttribute noMatch noAncestor
          (Some (attrElement "href" "/1234567/Nabc")) []]].

Definition weiboImagesPage : Document :=
  pageOf ".picture_pic_86nBa"
    [attrElement "src" "https://wx1.sinaimg.cn/thumb150/a.jpg";
     attrElement "src" "https://tvax1.sinaimg.cn/avatar/b.jpg"].

Definition weiboRun : World := run weiboListing (fun _ => detailOk weiboImagesPage).

(** A run in which the detail tab of the first card opens but cannot be
    sized. *)
Definition detailNoViewport (page : Document) : DetailWorld :=
  mkDetailWorld Done (Fails (JS.utf16 "Protocol error")) Done (Returns page) Done.
Definition runNoViewport : World :=
  run listing5 (fun i => match i with
                         | O => detailNoViewport bodyPage
                         | _ => detailOk bodyPage
                         end).

(** Lookups: an element that is found and can be clicked, and a wait
    that times out. *)
Definition found : Lookup := mkLookup Done (Returns (Some Done)).
Definition timedOut : Lookup :=
  mkLookup (Fails (JS.utf16 "Waiting for selector failed")) (Returns None).

(** A page of weibo.ts on which everything works, and one without the
    publish button. *)
Definition weiboPage : WeiboPosting.PostWorld :=
  WeiboPosting.mkPostWorld Done Done Done Done found Done found found Done
    found Done.
Definition weiboPageNoButton : WeiboPosting.PostWorld :=
  WeiboPosting.mkPostWorld Done Done Done Done found Done found found Done
    timedOut Done.
Definition weiboText : WeiboPosting.Options :=
  WeiboPosting.mkOptions (JS.utf16 "hello") [] [] [].

(** A page of xiaohongshu.ts on which only the file input and the
    publish button are found. *)
Definition xhsPageBare : XhsPosting.PostWorld :=
  XhsPosting.mkPostWorld Done Done Done Done Done Done found Done
    timedOut Done timedOut Done timedOut (fun _ => timedOut) (fun _ => Done)
    (fun _ => timedOut) timedOut timedOut timedOut Done timedOut found Done.
Definition xhsNote : XhsPosting.Options :=
  XhsPosting.mkOptions (JS.utf16 "title") (JS.utf16 "text")
    [JS.utf16 "a.png"] [JS.utf16 "tag"] (JS.utf16 "here").
Definition xhsNoteNoImages : XhsPosting.Options :=
  XhsPosting.mkOptions (JS.utf16 "title") (JS.utf16 "text") [] [] [].

End Samples.

(** * Properties *)

(** ** Rounding an integer to a double *)

Module NumFacts.

Lemma digits2_pos_size p : digits2_pos p = Pos.size p.
Proof. induction p; simpl; congruence. Qed.

Lemma digits2_pos_lower p : 2 ^ (Z.pos (digits2_pos p) - 1) <= Z.pos p.
Proof.
  rewrite digits2_pos_size.
  pose proof (Pos.size_le p) as H.
  assert (Hp : (2 ^ Pos.size p <= p~0)%positive) by exact H.
  apply Pos2Z.pos_le_pos in Hp. rewrite Pos2Z.inj_pow in Hp.
  replace (Z.pos (Pos.size p)) with (Z.succ (Z.pos (Pos.size p) - 1)) in Hp by lia.
  rewrite Z.pow_succ_r in Hp by lia. lia.
Qed.

Lemma digits2_pos_iter_xO p k :
  digits2_pos (Pos.iter xO p k) = (digits2_pos p + k)%positive.
Proof.
  revert p. induction k using Pos.peano_ind; intros p.
  - simpl. lia.
  - rewrite Pos.iter_succ. simpl. rewrite IHk. lia.
Qed.

Lemma iter_xO_value p k : Z.pos (Pos.iter xO p k) = Z.pos p * 2 ^ Z.pos k.
Proof.
  revert p. induction k using Pos.peano_ind; intros p.
  - simpl. lia.
  - rewrite Pos.iter_succ, Pos2Z.inj_succ, Z.pow_succ_r by lia.
    change (Z.pos (Pos.iter xO p k)~0) with (2 * Z.pos (Pos.iter xO p k)).
    rewrite IHk. lia.
Qed.

Lemma shr_1_m mrs : 0 <= shr_m mrs -> shr_m (shr_1 mrs) = shr_m mrs / 2.
Proof.
  destruct mrs as [m r s]. simpl. intros Hm.
  destruct m as [|[p|p|]|p]; simpl; try lia; try reflexivity.
  - apply Z.div_unique with 1; lia.
  - apply Z.div_unique with 0; lia.
Qed.

Lemma pow2_xO n : 2 ^ Z.pos n~0 = 2 ^ Z.pos n * 2 ^ Z.pos n.
Proof. replace (Z.pos n~0) with (Z.pos n + Z.pos n) by lia. apply Z.pow_add_r; lia. Qed.

Lemma pow2_xI n : 2 ^ Z.pos n~1 = 2 * (2 ^ Z.pos n * 2 ^ Z.pos n).
Proof.
  replace (Z.pos n~1) with (1 + (Z.pos n + Z.pos n)) by lia.
  rewrite Z.pow_add_r, Z.pow_add_r by lia. reflexivity.
Qed.

Lemma pow2_pos n : 0 < 2 ^ Z.pos n.
Proof. apply Z.pow_pos_nonneg; lia. Qed.

Lemma iter_shr_1_m n mrs :
  0 <= shr_m mrs -> shr_m (SpecFloat.iter_pos shr_1 n mrs) = shr_m mrs / 2 ^ Z.pos n.
Proof.
  revert mrs. induction n as [n IH|n IH|]; intros mrs Hm; simpl.
  - assert (H1 : 0 <= shr_m (shr_1 mrs)).
    { rewrite shr_1_m by done. apply Z.div_pos; lia. }
    assert (H2 : 0 <= shr_m (SpecFloat.iter_pos shr_1 n (shr_1 mrs))).
    { rewrite IH by done. apply Z.div_pos; [done|apply pow2_pos]. }
    pose proof (pow2_pos n).
    rewrite IH, IH, shr_1_m by done.
    rewrite !Z.div_div by lia. by rewrite pow2_xI.
  - assert (H2 : 0 <= shr_m (SpecFloat.iter_pos shr_1 n mrs)).
    { rewrite IH by done. apply Z.div_pos; [done|apply pow2_pos]. }
    pose proof (pow2_pos n).
    rewrite IH, IH by done.
    rewrite !Z.div_div by lia. by rewrite pow2_xO.
  - by rewrite shr_1_m.
Qed.

(** A right shift decided by [fexp] keeps a positive mantissa positive and
    does not lower the exponent. *)
Lemma shr_fexp_pos p e l :
  0 <= e ->
  0 < shr_m (fst (shr_fexp Num.prec Num.emax (Z.pos p) e l))
  /\ e <= snd (shr_fexp Num.prec Num.emax (Z.pos p) e l).
Proof.
  intros He. unfold shr_fexp, shr.
  set (d := Zdigits2 (Z.pos p)).
  assert (Hm : shr_m (shr_record_of_loc (Z.pos p) l) = Z.pos p)
    by (destruct l as [|[]]; reflexivity).
  destruct (fexp Num.prec Num.emax (d + e) - e) as [|n|n] eqn:Hn; simpl;
    rewrite ?Hm; try lia.
  rewrite iter_shr_1_m by (rewrite Hm; lia). rewrite Hm. split; [|lia].
  assert (Hle : 2 ^ Z.pos n <= Z.pos p).
  { pose proof (digits2_pos_lower p) as Hlow.
    unfold fexp, emin, Num.prec, Num.emax in Hn. subst d. simpl Zdigits2 in Hn.
    transitivity (2 ^ (Z.pos (digits2_pos p) - 1)); [|done].
    apply Z.pow_le_mono_r; lia. }
  pose proof (pow2_pos n).
  apply Z.div_str_pos. lia.
Qed.

Lemma round_nearest_even_ge m l : 0 < m -> 0 < round_nearest_even m l.
Proof. destruct l as [|[]]; simpl; try lia. destruct (Z.even m); lia. Qed.

(** Rounding a positive integer mantissa at a non-negative exponent ends
    in a finite value with a non-negative exponent, or in an infinity. *)
Lemma binary_round_aux_pos sx p e l :
  0 <= e ->
  (exists m e', binary_round_aux Num.prec Num.emax sx (Z.pos p) e l = S754_finite sx m e' /\ 0 <= e')
  \/ binary_round_aux Num.prec Num.emax sx (Z.pos p) e l = S754_infinity sx.
Proof.
  intros He. unfold binary_round_aux.
  pose proof (shr_fexp_pos p e l He) as [Hm1 He1].
  destruct (shr_fexp Num.prec Num.emax (Z.pos p) e l) as [mrs' e'] eqn:H1. simpl in Hm1, He1.
  pose proof (round_nearest_even_ge (shr_m mrs') (loc_of_shr_record mrs') Hm1) as Hr.
  destruct (round_nearest_even (shr_m mrs') (loc_of_shr_record mrs')) as [|q|q] eqn:Hq; try lia.
  pose proof (shr_fexp_pos q e' loc_Exact ltac:(lia)) as [Hm2 He2].
  destruct (shr_fexp Num.prec Num.emax (Z.pos q) e' loc_Exact) as [mrs'' e''] eqn:H2. simpl in Hm2, He2.
  destruct (shr_m mrs'') as [|m|m]; try lia.
  destruct (e'' <=? Num.emax - Num.prec); [left|right; done].
  exists m, e''. split; [done|lia].
Qed.

Lemma binary_round_int sx p :
  Num.truthy (binary_round Num.prec Num.emax sx p 0) = true
  /\ (Num.isInteger (binary_round Num.prec Num.emax sx p 0) = true
      \/ binary_round Num.prec Num.emax sx p 0 = S754_infinity sx).
Proof.
  unfold binary_round, shl_align.
  destruct (fexp Num.prec Num.emax (Z.pos (digits2_pos p) + 0) - 0) as [|k|k] eqn:Hk.
  1,2: destruct (binary_round_aux_pos sx p 0 loc_Exact ltac:(lia))
         as [(m & e' & -> & He')| ->]; simpl; split; auto;
       left; apply orb_true_iff; left; lia.
  assert (Hf : fexp Num.prec Num.emax (Z.pos (digits2_pos p) + 0) = Z.neg k) by lia.
  rewrite Hf. unfold binary_round_aux, shr_fexp.
  simpl Zdigits2. rewrite digits2_pos_iter_xO.
  assert (Hs : fexp Num.prec Num.emax (Z.pos (digits2_pos p + k) + Z.neg k) - Z.neg k = 0).
  { rewrite Pos2Z.inj_add. 
    replace (Z.pos (digits2_pos p) + Z.pos k + Z.neg k) with (Z.pos (digits2_pos p) + 0) by lia.
    lia. }
  rewrite Hs. simpl. rewrite digits2_pos_iter_xO, Hs. simpl.
  split; [done|left]. apply Z.eqb_eq.
  rewrite iter_xO_value. apply Z.mod_mul. pose proof (pow2_pos k). simpl. lia.
Qed.

End NumFacts.

(** ** Strings *)

Module JSFacts.

Lemma takeWhile_forallb p s : forallb p (JS.takeWhile p s) = true.
Proof.
  induction s as [|c r IH]; simpl; [done|].
  destruct (p c) eqn:Hc; simpl; [|done]. by rewrite Hc.
Qed.

Lemma takeWhile_all p s : forallb p s = true -> JS.takeWhile p s = s.
Proof.
  induction s as [|c r IH]; simpl; [done|].
  intros [Hc Hr]%andb_true_iff. rewrite Hc. f_equal. auto.
Qed.

(** A pattern of one code unit occurs in a string exactly when that code
    unit does. *)
Lemma includes_single c s :
  JS.includes [c] s = existsb (fun x => (c =? x)%N) s.
Proof.
  induction s as [|x r IH]; [done|].
  simpl. rewrite IH. by rewrite andb_true_r.
Qed.

Lemma existsb_false_forallb {A} (p q : A -> bool) (s : list A) :
  (forall x, q x = true -> p x = false) ->
  forallb q s = true -> existsb p s = false.
Proof.
  intros Hpq. induction s as [|x r IH]; simpl; [done|].
  intros [Hx Hr]%andb_true_iff. rewrite (Hpq x Hx). auto.
Qed.

Lemma filter_forallb {A} (p q : A -> bool) (s : list A) :
  forallb q (List.filter p s) = true ->
  forallb (fun x => q x || negb (p x)) s = true.
Proof.
  induction s as [|x r IH]; simpl; [done|].
  destruct (p x) eqn:Hp; simpl.
  - intros [Hx Hr]%andb_true_iff. rewrite Hx. simpl. auto.
  - rewrite orb_true_r. simpl. auto.
Qed.

End JSFacts.


(** ** The numeric normaliser *)

Module NormaliserFacts.

Lemma isDigit_value d : JS.isDigit d = true -> 0 <= Z.of_N d - 48 <= 9.
Proof.
  unfold JS.isDigit. intros [H1 H2]%andb_true_iff.
  apply N.leb_le in H1, H2. lia.
Qed.

(** A digit is no white space, no sign, no comma and no marker. *)
Lemma isDigit_cases c :
  JS.isDigit c = true ->
  JS.isWhiteSpace c = false
  /\ (forall r, Num.readSign (c :: r) = (false, c :: r))
  /\ (c =? comma)%N = false
  /\ JS.startsWith wan [c] = false /\ JS.startsWith yi [c] = false.
Proof.
  unfold JS.isDigit. intros [H1 H2]%andb_true_iff.
  apply N.leb_le in H1, H2.
  assert (Hc : (c = 48 \/ c = 49 \/ c = 50 \/ c = 51 \/ c = 52 \/ c = 53
                \/ c = 54 \/ c = 55 \/ c = 56 \/ c = 57)%N) by lia.
  repeat (destruct Hc as [->|Hc]); try subst c; repeat split.
Qed.

Lemma fold_digits_nonneg ds acc :
  0 <= acc -> forallb JS.isDigit ds = true ->
  0 <= fold_left (fun acc d => 10 * acc + (Z.of_N d - 48)) ds acc.
Proof.
  revert acc. induction ds as [|d r IH]; simpl; intros acc Hacc Hds; [done|].
  apply andb_true_iff in Hds as [Hd Hr]. apply IH; [|done].
  pose proof (isDigit_value d Hd). lia.
Qed.

Lemma digitsValue_nonneg ds :
  forallb JS.isDigit ds = true -> 0 <= Num.digitsValue ds.
Proof. apply fold_digits_nonneg. lia. Qed.

(** The double of a non-negative integer: a zero, or a truthy value that
    is an integer or, past the largest double, an infinity. *)
Lemma ofDecimal_integer neg v :
  0 <= v ->
  Num.ofDecimal neg v 0 = S754_zero neg
  \/ Num.truthy (Num.ofDecimal neg v 0) = true
     /\ (Num.isInteger (Num.ofDecimal neg v 0) = true
         \/ Num.ofDecimal neg v 0 = S754_infinity neg).
Proof.
  intros Hv. destruct v as [|p|p]; [by left| |lia].
  right. unfold Num.ofDecimal. simpl (0 <=? 0). cbv iota.
  rewrite Z.pow_0_r, Z.mul_1_r.
  destruct neg; apply NumFacts.binary_round_int.
Qed.

Lemma parseInt_shape s :
  Num.parseInt s = Num.NaN
  \/ (exists sx, Num.parseInt s = S754_zero sx)
  \/ Num.truthy (Num.parseInt s) = true
     /\ (Num.isInteger (Num.parseInt s) = true
         \/ exists sx, Num.parseInt s = S754_infinity sx).
Proof.
  unfold Num.parseInt. destruct (Num.readSign (JS.trimStart s)) as [neg r].
  pose proof (JSFacts.takeWhile_forallb JS.isDigit r) as Hds.
  destruct (JS.takeWhile JS.isDigit r) as [|d ds]; [by left|].
  right. destruct (ofDecimal_integer neg _ (digitsValue_nonneg _ Hds))
    as [->|[Ht [Hi|Hi]]]; eauto.
Qed.

(** [parseInt(..) || 0] is never [NaN]. *)
Lemma parseInt_or_zero s :
  Num.or (Num.parseInt s) Num.zero = Num.zero
  \/ Num.or (Num.parseInt s) Num.zero = Num.parseInt s
     /\ Num.truthy (Num.parseInt s) = true
     /\ (Num.isInteger (Num.parseInt s) = true
         \/ exists sx, Num.parseInt s = S754_infinity sx).
Proof.
  unfold Num.or.
  destruct (parseInt_shape s) as [->|[[sx ->]|[Ht Hi]]]; [by left|by left|].
  right. by rewrite Ht.
Qed.

(** On a run of digits [parseInt] needs no fallback: the result is [+0]
    or truthy. *)
Lemma parseInt_digits s :
  JS.allDigits s = true ->
  Num.or (Num.parseInt s) Num.zero = Num.parseInt s.
Proof.
  unfold JS.allDigits. intros [Hne Hds]%andb_true_iff.
  unfold Num.parseInt, JS.trimStart.
  destruct s as [|c r]; [done|].
  assert (Hc : JS.isDigit c = true) by (simpl in Hds; by apply andb_true_iff in Hds as [? _]).
  destruct (isDigit_cases c Hc) as (Hws & Hsign & _).
  simpl JS.dropWhile. rewrite Hws, Hsign.
  rewrite (JSFacts.takeWhile_all _ _ Hds).
  unfold Num.or.
  destruct (ofDecimal_integer false _ (digitsValue_nonneg _ Hds))
    as [->|[-> _]]; done.
Qed.

(** Without a marker the normaliser is [parseInt(..) || 0] of the text
    without its commas. *)
Lemma parseNumberWithUnit_plain text :
  JS.includes wan text = false -> JS.includes yi text = false ->
  parseNumberWithUnit text = Num.or (Num.parseInt (stripCommas text)) Num.zero.
Proof.
  intros Hw Hy. unfold parseNumberWithUnit. rewrite Hw, Hy.
  destruct text; reflexivity.
Qed.

End NormaliserFacts.

(** C1, as stated, fails: the product of the ten-thousand branch is not
    truncated, so [1.23456万] gives the double 12345.6 (not the integer
    12345), and the result is not an integer for every token. *)
Lemma C1_counterexample :
  parseNumberWithUnit (JS.utf16 "1.23456万")
    = S754_finite false 6787065375935693 (-39)
  /\ Num.isInteger (parseNumberWithUnit (JS.utf16 "1.23456万")) = false
  /\ parseNumberWithUnit (JS.utf16 "1.23456万") <> Num.ofZ 12345.
Proof. repeat split; vm_compute; congruence. Qed.

(** C1, amended: the normaliser returns 0 for the empty string; for a
    token containing the ten-thousand marker it removes the first marker,
    parses the rest with [parseFloat] and multiplies by 10000, without
    truncating; for a token containing the hundred-million marker and no
    ten-thousand marker it multiplies by 100000000 in the same way;
    otherwise it removes the commas and takes [parseInt(.., 10) || 0],
    which is never [NaN] and is an integer (or an infinity when the digits
    exceed the range of a double).  The four examples of the
    specification hold. *)
Theorem C1_parseNumberWithUnit :
  parseNumberWithUnit [] = Num.zero
  /\ (forall text, JS.includes wan text = true ->
        parseNumberWithUnit text
          = Num.mul (Num.parseFloat (JS.replace wan [] text)) (Num.ofZ 10000))
  /\ (forall text, JS.includes wan text = false -> JS.includes yi text = true ->
        parseNumberWithUnit text
          = Num.mul (Num.parseFloat (JS.replace yi [] text)) (Num.ofZ 100000000))
  /\ (forall text, JS.includes wan text = false -> JS.includes yi text = false ->
        parseNumberWithUnit text
          = Num.or (Num.parseInt (stripCommas text)) Num.zero
        /\ parseNumberWithUnit text <> Num.NaN
        /\ (Num.isInteger (parseNumberWithUnit text) = true
            \/ exists sx, parseNumberWithUnit text = S754_infinity sx))
  /\ parseNumberWithUnit (JS.utf16 "2.5万") = Num.ofZ 25000
  /\ parseNumberWithUnit (JS.utf16 "1,234") = Num.ofZ 1234
  /\ parseNumberWithUnit (JS.utf16 "") = Num.zero
  /\ parseNumberWithUnit (JS.utf16 "赞") = Num.zero.
Proof.
  split; [reflexivity|]. split; [|split; [|split]].
  - intros text Hw. unfold parseNumberWithUnit. rewrite Hw.
    destruct text; [discriminate Hw|reflexivity].
  - intros text Hw Hy. unfold parseNumberWithUnit. rewrite Hw, Hy.
    destruct text; [discriminate Hy|reflexivity].
  - intros text Hw Hy.
    rewrite (NormaliserFacts.parseNumberWithUnit_plain text Hw Hy).
    split; [reflexivity|].
    destruct (NormaliserFacts.parseInt_or_zero (stripCommas text))
      as [->|(-> & Ht & Hi)].
    + split; [discriminate|by left].
    + split; [|exact Hi]. intros HN. rewrite HN in Ht. discriminate Ht.
  - repeat split; vm_compute; reflexivity.
Qed.

(** The amended C1 at the tokens [12万], [3亿] and [1,234]. *)
Lemma C1_parseNumberWithUnit_witness :
  parseNumberWithUnit (JS.utf16 "12万") = Num.ofZ 120000
  /\ parseNumberWithUnit (JS.utf16 "3亿") = Num.ofZ 300000000
  /\ Num.isInteger (parseNumberWithUnit (JS.utf16 "1,234")) = true.
Proof.
  destruct C1_parseNumberWithUnit as (_ & Hwan & Hyi & Hplain & _).
  split; [|split].
  - rewrite (Hwan (JS.utf16 "12万")) by (vm_compute; reflexivity).
    vm_compute. reflexivity.
  - rewrite (Hyi (JS.utf16 "3亿")) by (vm_compute; reflexivity).
    vm_compute. reflexivity.
  - destruct (Hplain (JS.utf16 "1,234")) as (_ & _ & [Hi|[sx Hsx]]);
      [vm_compute; reflexivity|vm_compute; reflexivity|exact Hi|].
    vm_compute in Hsx. discriminate Hsx.
Defined.

(** ** The merge step *)

Module MergeFacts.

(** The falsy numbers are the two zeros and [NaN]. *)
Lemma truthy_false x :
  Num.truthy x = false <-> (exists s, x = S754_zero s) \/ x = Num.NaN.
Proof.
  destruct x; simpl; split; try done; eauto.
  - intros [[s' [=]]|[=]].
  - intros [[s' [=]]|[=]].
Qed.

Lemma or_truthy x y : Num.truthy x = true -> Num.or x y = x.
Proof. unfold Num.or. by intros ->. Qed.

Lemma or_falsy x y : Num.truthy x = false -> Num.or x y = y.
Proof. unfold Num.or. by intros ->. Qed.

(** The falsy counts are [null], the two zeros and [NaN]. *)
Lemma truthy_nullable_false v :
  truthy_nullable v = false
  <-> v = None \/ (exists s, v = Some (S754_zero s)) \/ v = Some Num.NaN.
Proof.
  destruct v as [x|]; simpl.
  - rewrite truthy_false. split.
    + intros [[s ->]| ->]; eauto.
    + intros [[=]|[[s [= ->]]|[= ->]]]; eauto.
  - split; [by left|done].
Qed.

Lemma or_nullable_truthy v w : truthy_nullable v = true -> or_nullable v w = v.
Proof. unfold or_nullable. by intros ->. Qed.

Lemma or_nullable_falsy v w : truthy_nullable v = false -> or_nullable v w = w.
Proof. unfold or_nullable. by intros ->. Qed.

Lemma truthy_str_false s : JS.truthy_str s = false <-> s = [].
Proof. destruct s; simpl; split; done. Qed.

End MergeFacts.

(** C2: in the merge step of both scripts each interaction count of the
    merged record is the detail value when that value is truthy (neither
    [null], a zero nor [NaN]) and the card's value otherwise, and the author is
    the detail author as a whole exactly when the detail author's id is
    not empty, the card's author otherwise. *)
Theorem C2_merge_policy :
  (forall (card : Xiaohongshu.XHSNote) (detail : Xiaohongshu.NoteDetail),
     let note := Xiaohongshu.mergeNote card detail in
     let i := Xiaohongshu.d_interactions detail in
     (truthy_nullable (Xiaohongshu.i_likes i) = true ->
        Xiaohongshu.likes note = Xiaohongshu.i_likes i)
     /\ (truthy_nullable (Xiaohongshu.i_likes i) = false ->
        Xiaohongshu.likes note = Xiaohongshu.likes card)
     /\ (truthy_nullable (Xiaohongshu.i_collects i) = true ->
        Xiaohongshu.collects note = Xiaohongshu.i_collects i)
     /\ (truthy_nullable (Xiaohongshu.i_collects i) = false ->
        Xiaohongshu.collects note = Xiaohongshu.collects card)
     /\ (truthy_nullable (Xiaohongshu.i_comments i) = true ->
        Xiaohongshu.comments note = Xiaohongshu.i_comments i)
     /\ (truthy_nullable (Xiaohongshu.i_comments i) = false ->
        Xiaohongshu.comments note = Xiaohongshu.comments card)
     /\ (author_id (Xiaohongshu.d_author detail) <> [] ->
        Xiaohongshu.author note = Xiaohongshu.d_author detail)
     /\ (author_id (Xiaohongshu.d_author detail) = [] ->
        Xiaohongshu.author note = Xiaohongshu.author card))
  /\ (forall (card : Weibo.WeiboPost) (detail : Weibo.WeiboDetail),
     let post := Weibo.mergePost card detail in
     let i := Weibo.d_interactions detail in
     (truthy_nullable (Weibo.i_likes i) = true ->
        Weibo.likes post = Weibo.i_likes i)
     /\ (truthy_nullable (Weibo.i_likes i) = false ->
        Weibo.likes post = Weibo.likes card)
     /\ (truthy_nullable (Weibo.i_reposts i) = true ->
        Weibo.reposts post = Weibo.i_reposts i)
     /\ (truthy_nullable (Weibo.i_reposts i) = false ->
        Weibo.reposts post = Weibo.reposts card)
     /\ (truthy_nullable (Weibo.i_comments i) = true ->
        Weibo.comments post = Weibo.i_comments i)
     /\ (truthy_nullable (Weibo.i_comments i) = false ->
        Weibo.comments post = Weibo.comments card)
     /\ (author_id (Weibo.d_author detail) <> [] ->
        Weibo.author post = Weibo.d_author detail)
     /\ (author_id (Weibo.d_author detail) = [] ->
        Weibo.author post = Weibo.author card))
  /\ (forall v, truthy_nullable v = false <->
                v = None \/ (exists s, v = Some (S754_zero s))
                \/ v = Some Num.NaN)
  /\ (forall x, Num.truthy x = false <->
                (exists s, x = S754_zero s) \/ x = Num.NaN).
Proof.
  split; [|split; [|split]];
    [| |exact MergeFacts.truthy_nullable_false|exact MergeFacts.truthy_false].
  - intros card detail. simpl.
    repeat split;
      try (apply MergeFacts.or_nullable_truthy);
      try (apply MergeFacts.or_nullable_falsy).
    + intros Hid. destruct (author_id (Xiaohongshu.d_author detail)); done.
    + by intros ->.
  - intros card detail. simpl.
    repeat split;
      try (apply MergeFacts.or_nullable_truthy);
      try (apply MergeFacts.or_nullable_falsy).
    + intros Hid. destruct (author_id (Weibo.d_author detail)); done.
    + by intros ->.
Qed.

(** C2 at a card with 25000 likes: a detail extraction with 0 likes, 7
    collects, a comment count that arrived as [null] and the author id
    [u123] keeps the likes and the comments, takes the collects and
    replaces the author; with an empty author id the card's author
    stays. *)
Lemma C2_merge_policy_witness :
  Xiaohongshu.likes (Xiaohongshu.mergeNote Samples.xhsCard (Samples.xhsDetail "u123"))
    = Some (Num.ofZ 25000)
  /\ Xiaohongshu.collects (Xiaohongshu.mergeNote Samples.xhsCard (Samples.xhsDetail "u123"))
    = Some (Num.ofZ 7)
  /\ Xiaohongshu.comments (Xiaohongshu.mergeNote Samples.xhsCard (Samples.xhsDetail "u123"))
    = Some Num.zero
  /\ Xiaohongshu.author (Xiaohongshu.mergeNote Samples.xhsCard (Samples.xhsDetail "u123"))
    = Samples.detailAuthor "u123"
  /\ Xiaohongshu.author (Xiaohongshu.mergeNote Samples.xhsCard (Samples.xhsDetail ""))
    = Samples.cardAuthor.
Proof.
  destruct C2_merge_policy as (HX & _ & _ & _).
  destruct (HX Samples.xhsCard (Samples.xhsDetail "u123"))
    as (_ & Hl & Hc & _ & _ & Hm & Ha & _).
  destruct (HX Samples.xhsCard (Samples.xhsDetail ""))
    as (_ & _ & _ & _ & _ & _ & _ & Hb).
  split; [|split; [|split; [|split]]].
  - apply Hl. reflexivity.
  - apply Hc. reflexivity.
  - apply Hm. reflexivity.
  - apply Ha. vm_compute. discriminate.
  - apply Hb. reflexivity.
Defined.

(** ** The feed walk *)

Section ConcatFacts.
Context {A B : Type}.

Lemma concat_imap_split (f : nat -> A -> list B) l k a :
  l !! k = Some a ->
  concat (imap f l)
  = concat (imap f (take k l)) ++ f k a
    ++ concat (imap (fun j => f (S k + j)%nat) (drop (S k) l)).
Proof.
  intros Hk. rewrite <- (take_drop_middle l k a Hk) at 1.
  rewrite imap_app, concat_app. f_equal.
  assert (Hlen : length (take k l) = k).
  { apply length_take_le. apply lookup_lt_Some in Hk. lia. }
  rewrite Hlen. simpl. rewrite Nat.add_0_r. f_equal. f_equal.
  apply imap_ext. intros j c _. simpl. f_equal. lia.
Qed.

Lemma concat_imap_length_ge (f : nat -> A -> list B) l :
  (forall k a, (1 <= length (f k a))%nat) ->
  (length l <= length (concat (imap f l)))%nat.
Proof.
  intros Hf. revert f Hf. induction l as [|a l IH]; intros f Hf; simpl; [lia|].
  rewrite length_app. pose proof (Hf 0%nat a).
  pose proof (IH (f ∘ S) (fun k b => Hf (S k) b)). lia.
Qed.

Lemma concat_imap_singletons (f : nat -> A -> list B) l :
  (forall k a, l !! k = Some a -> exists b, f k a = [b]) ->
  length (concat (imap f l)) = length l
  /\ forall k a, l !! k = Some a ->
       exists b, concat (imap f l) !! k = Some b /\ f k a = [b].
Proof.
  revert f. induction l as [|x l IH]; intros f Hf; simpl.
  - split; [done|]. intros k a Hk. done.
  - destruct (Hf 0%nat x eq_refl) as [b0 Hb0].
    destruct (IH (f ∘ S) (fun k a Hk => Hf (S k) a Hk)) as [Hlen Hlook].
    rewrite Hb0. simpl. split; [by rewrite Hlen|].
    intros [|k] a Hk; simpl in *.
    + injection Hk as <-. eauto.
    + apply Hlook. exact Hk.
Qed.
End ConcatFacts.

Section WalkFacts.
Context {Card Detail : Type}.
Variable card_url : Card -> jsstring.
Variable enumerate : Document -> Z -> list Card.
Variable extract : Document -> Detail.
Variable merge : Card -> Detail -> Card.

Local Abbreviation iteration_ := (iteration card_url extract merge).
Local Abbreviation enrich_ := (enrich card_url extract merge).
Local Abbreviation appended_ := (appended card_url extract merge).
Local Abbreviation records_ := (runRecords card_url extract merge).
Local Abbreviation walk_ := (walk card_url enumerate extract merge).

(** An iteration never throws, and appends [appended]. *)
Lemma iteration_appended dw card st :
  iteration_ dw card st = (Returns tt, st ++ appended_ dw card).
Proof.
  unfold iteration, appended, try_catch, bind, push, await,
    await_value, ret.
  destruct (JS.truthy_str (card_url card)); simpl; [|done].
  destruct (d_newPage dw); simpl; [|done].
  destruct (d_setViewport dw); simpl; [|done].
  destruct (d_goto dw); simpl;
    destruct (d_evaluate dw); simpl;
    destruct (d_close dw); simpl; by rewrite <- ?app_assoc.
Qed.

Lemma enrich_appended details i cards st :
  enrich_ details i cards st
  = (Returns tt,
     st ++ concat (imap (fun k card => appended_ (details (i + k)%nat) card) cards)).
Proof.
  revert i st. induction cards as [|card rest IH]; intros i st; simpl.
  - unfold ret. by rewrite app_nil_r.
  - unfold bind. rewrite iteration_appended, IH.
    rewrite Nat.add_0_r, <- app_assoc. do 4 f_equal.
    apply imap_ext. intros k c _. simpl. do 2 f_equal. lia.
Qed.

Lemma walkBody_ok w limit listing :
  preludeError w = None -> w_evaluate w = Returns listing ->
  walkBody card_url enumerate extract merge w limit []
  = (Returns tt, records_ w (enumerate listing limit)).
Proof.
  unfold preludeError, walkBody, bind, await, await_value. intros Hp He.
  destruct (w_newPage w); [|done]. destruct (w_setupCookies w); [|done].
  destruct (w_goto w); [|done]. destruct (w_autoScroll w); [|done].
  rewrite He. by rewrite enrich_appended.
Qed.

Lemma walkBody_error w limit e :
  preludeError w = Some e ->
  exists st, walkBody card_url enumerate extract merge w limit [] = (Throws e, st).
Proof.
  unfold preludeError, walkBody, bind, await, await_value. intros Hp.
  destruct (w_newPage w); [|injection Hp as ->; eauto].
  destruct (w_setupCookies w); [|injection Hp as ->; eauto].
  destruct (w_goto w); [|injection Hp as ->; eauto].
  destruct (w_autoScroll w); [|injection Hp as ->; eauto].
  destruct (w_evaluate w); [done|injection Hp as ->; eauto].
Qed.

Lemma preludeError_None w :
  preludeError w = None -> exists listing, w_evaluate w = Returns listing.
Proof.
  unfold preludeError.
  destruct (w_newPage w); [|done]. destruct (w_setupCookies w); [|done].
  destruct (w_goto w); [|done]. destruct (w_autoScroll w); [|done].
  destruct (w_evaluate w); [eauto|done].
Qed.

(** The three ways a run ends. *)
Lemma walk_cases w limit :
  match w_launch w, w_close w with
  | Fails e, _ => walk_ w limit = Throws e
  | Done, Fails e => walk_ w limit = Throws e
  | Done, Done =>
    match preludeError w with
    | Some e => walk_ w limit = Returns (mkFetchResult false None (Some e))
    | None =>
      exists listing, w_evaluate w = Returns listing
        /\ walk_ w limit
           = Returns (mkFetchResult true
                        (Some (records_ w (enumerate listing limit))) None)
    end
  end.
Proof.
  unfold walk. destruct (w_launch w); [|done].
  destruct (w_close w); [|done].
  destruct (preludeError w) as [e|] eqn:Hp.
  - destruct (walkBody_error w limit e Hp) as [st ->]. done.
  - destruct (preludeError_None w Hp) as [listing Hl].
    exists listing. split; [done|].
    by rewrite (walkBody_ok w limit listing Hp Hl).
Qed.

(** What an iteration appends starts with the merged record or the
    card, and goes on with at most one more copy of the card. *)
Lemma appended_shape dw card :
  exists r rest,
    appended_ dw card = r :: rest
    /\ (r = card
        \/ exists page, d_evaluate dw = Returns page
                        /\ r = merge card (extract page))
    /\ (rest = [] \/ rest = [card]).
Proof.
  unfold appended. destruct (JS.truthy_str (card_url card)); simpl; [|by eauto 8].
  destruct (d_newPage dw); [|by eauto 8].
  destruct (d_setViewport dw); [|by eauto 8].
  destruct (d_evaluate dw) as [page|e]; destruct (d_close dw); eauto 10.
Qed.

Lemma appended_close_fails dw card e :
  JS.truthy_str (card_url card) = true ->
  d_newPage dw = Done -> d_setViewport dw = Done -> d_close dw = Fails e ->
  exists r, appended_ dw card = [r; card].
Proof.
  unfold appended. intros -> -> -> ->. simpl. eauto.
Qed.

Lemma appended_close_ok dw card :
  d_close dw = Done ->
  exists r,
    appended_ dw card = [r]
    /\ (r = card
        \/ exists page, d_evaluate dw = Returns page
                        /\ r = merge card (extract page))
    /\ (card_url card = []
        \/ (exists e, d_newPage dw = Fails e)
        \/ (exists e, d_setViewport dw = Fails e)
        \/ (exists e, d_evaluate dw = Throws e) -> r = card).
Proof.
  unfold appended. intros ->.
  destruct (card_url card) as [|c u] eqn:Hu; simpl; [by eauto|].
  destruct (d_newPage dw) as [|e1]; [|by eauto].
  destruct (d_setViewport dw) as [|e2]; [|by eauto].
  destruct (d_evaluate dw) as [page|e3]; [|by eauto].
  eexists. split; [done|]. split; [by eauto|].
  intros [?|[[? ?]|[[? ?]|[? ?]]]]; done.
Qed.




(** When no detail tab fails to close, the run returns one record per
    enumerated card, in the order of the cards; the record is the card
    itself when the card has no url or when opening the tab, sizing it
    or the evaluation of the extractor throws, and the merge of the card
    with the extraction otherwise. *)
Lemma walk_one_per_card w limit listing :
  w_launch w = Done -> w_close w = Done -> preludeError w = None ->
  w_evaluate w = Returns listing ->
  (forall i, d_close (w_detail w i) = Done) ->
  exists notes,
    walk_ w limit = Returns (mkFetchResult true (Some notes) None)
    /\ length notes = length (enumerate listing limit)
    /\ forall i card, enumerate listing limit !! i = Some card ->
         exists r,
           notes !! i = Some r
           /\ (r = card
               \/ exists page, d_evaluate (w_detail w i) = Returns page
                               /\ r = merge card (extract page))
           /\ (card_url card = []
               \/ (exists e, d_newPage (w_detail w i) = Fails e)
               \/ (exists e, d_setViewport (w_detail w i) = Fails e)
               \/ (exists e, d_evaluate (w_detail w i) = Throws e) ->
               r = card).
Proof.
  intros Hl Hc Hp He Hclose.
  pose proof (walk_cases w limit) as Hw. rewrite Hl, Hc, Hp in Hw.
  destruct Hw as (listing' & He' & Hw). rewrite He in He'.
  injection He' as <-.
  set (cards := enumerate listing limit) in *.
  set (f := fun k card => appended_ (w_detail w k) card).
  exists (records_ w cards). split; [exact Hw|].
  destruct (concat_imap_singletons f cards) as [Hlen Hlook].
  { intros k a _. unfold f.
    destruct (appended_close_ok (w_detail w k) a (Hclose k)) as (r & -> & _).
    eauto. }
  split; [exact Hlen|].
  intros i card Hi. destruct (Hlook i card Hi) as (r & Hr & Hf).
  exists r. split; [exact Hr|].
  destruct (appended_close_ok (w_detail w i) card (Hclose i))
    as (r' & Hap & H1 & H2).
  unfold f in Hf. rewrite Hap in Hf. injection Hf as ->. done.
Qed.

End WalkFacts.

(** ** The two scripts as instances of the walk *)

Module PlatformFacts.

(** A non-negative limit takes a prefix of that length. *)
Lemma slice0_take {A} (limit : Z) (items : list A) :
  0 <= limit -> slice0 limit items = take (Z.to_nat limit) items.
Proof.
  intros Hl. unfold slice0.
  destruct (limit <? 0) eqn:Hneg; [apply Z.ltb_lt in Hneg; lia|].
  destruct (Z.le_gt_cases limit (Z.of_nat (length items))) as [Hle|Hgt].
  - by rewrite Z.min_l.
  - rewrite Z.min_r, Nat2Z.id by lia.
    rewrite firstn_all. symmetry. apply take_ge. lia.
Qed.


Lemma extractWeiboDetail_blank page :
  (forall sel, doc_querySelectorAll page sel = []) ->
  Weibo.extractWeiboDetail page
  = Weibo.mkWeiboDetail [] [] [] [] (mkAuthor [] [] [] [])
      (Weibo.mkInteractions (Some Num.zero) (Some Num.zero) (Some Num.zero)) [].
Proof.
  intros Hb. unfold Weibo.extractWeiboDetail, Weibo.authorOf,
    doc_querySelector, or_NodeList.
  rewrite !Hb. reflexivity.
Qed.


Lemma mergePost_blank el page :
  (forall sel, doc_querySelectorAll page sel = []) ->
  Weibo.mergePost (Weibo.cardOf el) (Weibo.extractWeiboDetail page)
  = Weibo.cardOf el.
Proof.
  intros Hb. rewrite (extractWeiboDetail_blank page Hb).
  unfold Weibo.mergePost, Weibo.cardOf. simpl. reflexivity.
Qed.

End PlatformFacts.


(** ** The enumeration step *)

Section EnumerationFacts.
Context {Card Detail : Type}.
Variable card_url : Card -> jsstring.
Variable cardOf : Element -> Card.
Variable selector : string.
Variable extract : Document -> Detail.
Variable merge : Card -> Detail -> Card.

Local Abbreviation enumerate_ :=
  (fun (document : Document) (limitParam : Z) =>
     List.map cardOf (slice0 limitParam (doc_querySelectorAll document selector))).

Lemma enumerate_prefix document limit :
  0 <= limit ->
  enumerate_ document limit
  = List.map cardOf (take (Z.to_nat limit) (doc_querySelectorAll document selector))
  /\ Z.of_nat (length (enumerate_ document limit)) <= limit.
Proof.
  intros Hl. cbv beta. rewrite PlatformFacts.slice0_take by done. split; [done|].
  rewrite length_map, length_take. lia.
Qed.

(** With a non-negative limit and no detail tab that fails to close,
    the run returns the records of the first [limit] cards of the
    listing, one each, in document order. *)
Lemma walk_limit w limit listing :
  0 <= limit ->
  w_launch w = Done -> w_close w = Done -> preludeError w = None ->
  w_evaluate w = Returns listing ->
  (forall i, d_close (w_detail w i) = Done) ->
  exists notes,
    walk card_url enumerate_ extract merge w limit
      = Returns (mkFetchResult true (Some notes) None)
    /\ Z.of_nat (length notes)
       = Z.min limit (Z.of_nat (length (doc_querySelectorAll listing selector)))
    /\ forall i r, notes !! i = Some r ->
         (Z.of_nat i < limit)
         /\ exists el,
              doc_querySelectorAll listing selector !! i = Some el
              /\ (r = cardOf el
                  \/ exists page, r = merge (cardOf el) (extract page)).
Proof.
  intros Hlim Hl Hc Hp He Hclose.
  destruct (walk_one_per_card card_url enumerate_ extract merge w limit listing
              Hl Hc Hp He Hclose) as (notes & Hw & Hlen & Hcards).
  exists notes. split; [exact Hw|].
  destruct (enumerate_prefix listing limit Hlim) as [Henum _].
  rewrite Henum in Hlen, Hcards.
  rewrite length_map, length_take in Hlen.
  split; [lia|].
  intros i r Hr.
  assert (Hi : (i < length notes)%nat) by (eapply lookup_lt_Some; eauto).
  split; [lia|].
  destruct (lookup_lt_is_Some_2 (take (Z.to_nat limit)
              (doc_querySelectorAll listing selector)) i) as [el Hel].
  { rewrite length_take. lia. }
  exists el. split.
  { rewrite lookup_take_Some in Hel. tauto. }
  destruct (Hcards i (cardOf el)) as (r' & Hr' & Hshape & _).
  { rewrite list_lookup_fmap, Hel. done. }
  rewrite Hr in Hr'. injection Hr' as <-.
  destruct Hshape as [->|(page & _ & ->)]; eauto.
Qed.
End EnumerationFacts.

(** C7, as stated, fails for a negative limit, which [slice] counts back
    from the end of the listing (four of five cards for -1), and for a run
    in which a detail tab fails to close, which returns one record more
    than it enumerated cards (four records for limit 3). *)
Lemma C7_counterexample :
  length (Xiaohongshu.enumerate Samples.listing5 (-1)) = 4%nat
  /\ exists notes,
       Xiaohongshu.fetchLatestNotes Samples.runCloseFails 3
         = Returns (mkFetchResult true (Some notes) None)
       /\ length notes = 4%nat.
Proof.
  split; [vm_compute; reflexivity|].
  eexists. split; vm_compute; reflexivity.
Qed.

(** C7, amended: for every listing and every limit [0 <= L] the
    enumeration of both scripts maps the first [L] summary cards of the
    listing (all of them when there are fewer), in document order; and a
    run with such a limit in which no detail tab fails to close returns
    exactly one record for each of these cards, in the same order. *)
Theorem C7_enumerate_limit (limit : Z) (Hlimit : 0 <= limit) :
  (forall document,
     Xiaohongshu.enumerate document limit
     = List.map Xiaohongshu.cardOf
         (take (Z.to_nat limit) (doc_querySelectorAll document "section.note-item"))
     /\ Z.of_nat (length (Xiaohongshu.enumerate document limit)) <= limit)
  /\ (forall document,
     Weibo.enumerate document limit
     = List.map Weibo.cardOf
         (take (Z.to_nat limit) (doc_querySelectorAll document ".Feed_item_2xmo1"))
     /\ Z.of_nat (length (Weibo.enumerate document limit)) <= limit)
  /\ (forall w listing,
     w_launch w = Done -> w_close w = Done -> preludeError w = None ->
     w_evaluate w = Returns listing ->
     (forall i, d_close (w_detail w i) = Done) ->
     exists notes,
       Xiaohongshu.fetchLatestNotes w limit
         = Returns (mkFetchResult true (Some notes) None)
       /\ Z.of_nat (length notes)
          = Z.min limit
              (Z.of_nat (length (doc_querySelectorAll listing "section.note-item")))
       /\ forall i r, notes !! i = Some r ->
            (Z.of_nat i < limit)
            /\ exists el,
                 doc_querySelectorAll listing "section.note-item" !! i = Some el
                 /\ (r = Xiaohongshu.cardOf el
                     \/ exists page,
                          r = Xiaohongshu.mergeNote (Xiaohongshu.cardOf el)
                                (Xiaohongshu.extractNoteDetail page)))
  /\ (forall w listing,
     w_launch w = Done -> w_close w = Done -> preludeError w = None ->
     w_evaluate w = Returns listing ->
     (forall i, d_close (w_detail w i) = Done) ->
     exists posts,
       Weibo.fetchLatestWeibo w limit
         = Returns (mkFetchResult true (Some posts) None)
       /\ Z.of_nat (length posts)
          = Z.min limit
              (Z.of_nat (length (doc_querySelectorAll listing ".Feed_item_2xmo1")))
       /\ forall i r, posts !! i = Some r ->
            (Z.of_nat i < limit)
            /\ exists el,
                 doc_querySelectorAll listing ".Feed_item_2xmo1" !! i = Some el
                 /\ (r = Weibo.cardOf el
                     \/ exists page,
                          r = Weibo.mergePost (Weibo.cardOf el)
                                (Weibo.extractWeiboDetail page))).
Proof.
  split; [|split; [|split]].
  - intros document.
    apply (enumerate_prefix Xiaohongshu.cardOf "section.note-item" document limit Hlimit).
  - intros document.
    apply (enumerate_prefix Weibo.cardOf ".Feed_item_2xmo1" document limit Hlimit).
  - intros w listing.
    apply (walk_limit Xiaohongshu.url Xiaohongshu.cardOf "section.note-item"
             Xiaohongshu.extractNoteDetail Xiaohongshu.mergeNote w limit listing Hlimit).
  - intros w listing.
    apply (walk_limit Weibo.url Weibo.cardOf ".Feed_item_2xmo1"
             Weibo.extractWeiboDetail Weibo.mergePost w limit listing Hlimit).
Qed.

(** The amended C7 at limit 3 over the listing of five cards: exactly
    three records. *)
Lemma C7_enumerate_limit_witness :
  0 <= 3
  /\ exists notes,
       Xiaohongshu.fetchLatestNotes Samples.runOk 3
         = Returns (mkFetchResult true (Some notes) None)
       /\ Z.of_nat (length notes) = 3.
Proof.
  assert (H3 : 0 <= 3) by lia. split; [exact H3|].
  destruct (C7_enumerate_limit 3 H3) as (_ & _ & Hwalk & _).
  destruct (Hwalk Samples.runOk Samples.listing5 eq_refl eq_refl eq_refl eq_refl
              (fun _ => eq_refl)) as (notes & Hw & Hlen & _).
  exists notes. split; [exact Hw|exact Hlen].
Defined.

(** ** The cookie-string parser *)

(** C4 at the cookie string [sid=abc==; theme]: the parser cuts the pair
    at every [=] and keeps the first two pieces, so the value [abc==] is
    stored as [abc] where the specification keeps it whole, and the pair
    without a value is stored as [undefined] where the specification
    stores the empty string. *)
Theorem C4_parseCookieString_cuts_value :
  parseCookieString Samples.cookies !! JS.utf16 "sid" = Some (Str (JS.utf16 "abc"))
  /\ parseCookieString_spec Samples.cookies !! JS.utf16 "sid"
     = Some (Str (JS.utf16 "abc=="))
  /\ parseCookieString Samples.cookies !! JS.utf16 "theme" = Some Undefined
  /\ parseCookieString_spec Samples.cookies !! JS.utf16 "theme" = Some (Str []).
Proof. repeat split; vm_compute; reflexivity. Qed.

(** ** The selector fallback *)

(** C5 fails on the code for the fields read with [querySelectorAll]: an
    empty NodeList is truthy, so the alternate selector after [||] is
    never consulted, and a page on which the primary selector matches
    nothing yields an empty field whatever the alternate selectors match.
    The fields read with [querySelector] do fall back. *)
Theorem C5_nodelist_fallback_unreachable :
  (forall document,
     doc_querySelectorAll document "img.note-slider-img" = [] ->
     Xiaohongshu.d_images (Xiaohongshu.extractNoteDetail document) = [])
  /\ (forall document,
     doc_querySelectorAll document ".tag" = [] ->
     Xiaohongshu.d_tags (Xiaohongshu.extractNoteDetail document) = [])
  /\ (forall document,
     doc_querySelectorAll document ".picture_pic_86nBa" = [] ->
     Weibo.d_images (Weibo.extractWeiboDetail document) = [])
  /\ (forall document,
     doc_querySelectorAll document "a[href*='/k/']" = [] ->
     Weibo.d_topics (Weibo.extractWeiboDetail document) = [])
  /\ (forall document,
     doc_querySelectorAll document ".Comment_content_22-FY" = [] ->
     Weibo.d_commentList (Weibo.extractWeiboDetail document) = [])
  /\ (forall document el,
     doc_querySelectorAll document ".detail_wbtext_4CRf9" = [] ->
     doc_querySelector document ".WB_text" = Some el ->
     Weibo.d_content (Weibo.extractWeiboDetail document) = trimmedText el).
Proof.
  repeat split; intros document.
  1-5: intros H; simpl; unfold or_NodeList; simpl; by rewrite H.
  intros el H1 H2. simpl. unfold doc_querySelector at 1. rewrite H1. simpl.
  by rewrite H2.
Qed.

(** C5 on pages in the alternate markup only: the image, the tag, the
    topic and the comment that the alternate selectors match are not
    extracted, while the body text, read with [querySelector], is. *)
Lemma C5_nodelist_fallback_unreachable_witness :
  omap Xiaohongshu.imageOf
    (doc_querySelectorAll Samples.alternateNotePage ".media-container img")
    = [JS.utf16 "https://ci.xiaohongshu.com/a.jpg"]
  /\ Xiaohongshu.d_images (Xiaohongshu.extractNoteDetail Samples.alternateNotePage) = []
  /\ Xiaohongshu.d_tags (Xiaohongshu.extractNoteDetail Samples.alternateNotePage) = []
  /\ Weibo.d_images (Weibo.extractWeiboDetail Samples.legacyWeiboPage) = []
  /\ Weibo.d_topics (Weibo.extractWeiboDetail Samples.legacyWeiboPage) = []
  /\ Weibo.d_commentList (Weibo.extractWeiboDetail Samples.legacyWeiboPage) = []
  /\ Weibo.d_content (Weibo.extractWeiboDetail Samples.legacyWeiboPage)
     = JS.utf16 "legacy body".
Proof.
  destruct C5_nodelist_fallback_unreachable as (H1 & H2 & H3 & H4 & H5 & H6).
  split; [vm_compute; reflexivity|].
  split; [apply H1; reflexivity|]. split; [apply H2; reflexivity|].
  split; [apply H3; reflexivity|]. split; [apply H4; reflexivity|].
  split; [apply H5; reflexivity|].
  rewrite (H6 Samples.legacyWeiboPage (Samples.textElement "legacy body"))
    by reflexivity.
  vm_compute. reflexivity.
Defined.

(** ** Interaction counts of the detail view *)

Module CountFacts.

Lemma wan_unit : wan = [19975%N].
Proof. reflexivity. Qed.

Lemma yi_unit : yi = [20159%N].
Proof. reflexivity. Qed.

(** A text that is a run of digits once its commas are gone contains
    neither marker. *)
Lemma digits_no_marker s :
  JS.allDigits (stripCommas s) = true ->
  JS.includes wan s = false /\ JS.includes yi s = false.
Proof.
  unfold JS.allDigits, stripCommas, JS.removeAll.
  intros [_ Hds]%andb_true_iff.
  apply JSFacts.filter_forallb in Hds.
  rewrite wan_unit, yi_unit, !JSFacts.includes_single.
  split; eapply JSFacts.existsb_false_forallb; try exact Hds;
    intros x Hx; apply N.eqb_neq; intros <-; vm_compute in Hx; discriminate Hx.
Qed.

(** The count of xiaohongshu.ts against the normaliser. *)
Lemma xhs_countOf el t :
  textContent el = Some t ->
  Xiaohongshu.countOf (Some el)
  = if JS.allDigits (stripCommas (JS.trim t))
    then parseNumberWithUnit (JS.trim t) else Num.zero.
Proof.
  intros Ht. unfold Xiaohongshu.countOf. rewrite Ht.
  destruct (JS.allDigits (stripCommas (JS.trim t))) eqn:Hd.
  - destruct (digits_no_marker _ Hd) as [Hw Hy].
    rewrite (NormaliserFacts.parseNumberWithUnit_plain _ Hw Hy).
    rewrite (NormaliserFacts.parseInt_digits _ Hd).
    destruct t; [discriminate Hd|reflexivity].
  - by destruct (JS.truthy_str t).
Qed.

(** The count of weibo.ts is the normaliser on the trimmed text. *)
Lemma weibo_countOf el t :
  textContent el = Some t ->
  Weibo.countOf (Some el) = parseNumberWithUnit (JS.trim t).
Proof.
  intros Ht. unfold Weibo.countOf. rewrite Ht.
  destruct t; reflexivity.
Qed.

(** What arrives by value. *)
Lemma byValue_cases x :
  (byValue x = None <-> x = Num.NaN \/ exists s, x = S754_infinity s)
  /\ (forall s, x = S754_zero s -> byValue x = Some Num.zero)
  /\ (forall s m e, x = S754_finite s m e -> byValue x = Some x).
Proof.
  split; [|split].
  - destruct x; simpl; split; try done; eauto.
    + intros [[=]|[s' [=]]].
    + intros [[=]|[s' [=]]].
  - by intros s ->.
  - by intros s m e ->.
Qed.

Lemma xhs_countOf_none el :
  match el with
  | Some e => textContent e = None
  | None => True
  end ->
  Xiaohongshu.countOf el = Num.zero.
Proof. destruct el as [e|]; [|done]. unfold Xiaohongshu.countOf. by intros ->. Qed.

Lemma weibo_countOf_none el :
  match el with
  | Some e => textContent e = None
  | None => True
  end ->
  Weibo.countOf el = Num.zero.
Proof. destruct el as [e|]; [|done]. unfold Weibo.countOf. by intros ->. Qed.

End CountFacts.

(** C6, as stated, fails for xiaohongshu.ts: a like count of [2.5万] in
    the detail view is left at 0, not expanded to 25000.  And what the
    extractor of weibo.ts resolves to is not always the normaliser's
    value: for the text [万] the normaliser gives [NaN], which arrives
    as [null]. *)
Lemma C6_counterexample :
  Xiaohongshu.i_likes
    (Xiaohongshu.d_interactions
       (Xiaohongshu.extractNoteDetail (Samples.barPage "2.5万" "1,234" "7")))
  = Some Num.zero
  /\ parseNumberWithUnit (JS.trim (JS.utf16 "2.5万")) = Num.ofZ 25000
  /\ Weibo.i_likes
       (Weibo.d_interactions
          (Weibo.extractWeiboDetail (Samples.toolbarPage "万" "1,234" "7")))
     = None
  /\ parseNumberWithUnit (JS.trim (JS.utf16 "万")) = Num.NaN.
Proof. repeat split; vm_compute; reflexivity. Qed.

(** C6, amended: in the detail extractor of weibo.ts each of the three
    counts, whatever the other two elements are, is the numeric
    normaliser applied to the trimmed text of its element, as it
    arrives by value; in the detail extractor of xiaohongshu.ts each
    count is that value only when the trimmed text without its commas
    is a run of digits, and 0 for any other text, magnitude-suffixed
    ones included.  A count whose element or text is missing is 0.  By
    value, [NaN] and the infinities arrive as [null], a zero as 0 and
    any other number as itself. *)
Theorem C6_detail_counts :
  (forall document,
     let i := Weibo.d_interactions (Weibo.extractWeiboDetail document) in
     let likeEl :=
       or_el (doc_querySelector document "button[title='赞'] .toolbar_num_JXZul")
             (doc_querySelector document "span[node-type='like_status'] em:last-child") in
     let repostEl :=
       or_el (doc_querySelector document "button[title='转发'] .toolbar_num_JXZul")
             (doc_querySelector document "span[node-type='forward_btn_text'] em:last-child") in
     let commentEl :=
       or_el (doc_querySelector document "button[title='评论'] .toolbar_num_JXZul")
             (doc_querySelector document "span[node-type='comment_btn_text'] em:last-child") in
     (forall el t, likeEl = Some el -> textContent el = Some t ->
        Weibo.i_likes i = byValue (parseNumberWithUnit (JS.trim t)))
     /\ (forall el t, repostEl = Some el -> textContent el = Some t ->
        Weibo.i_reposts i = byValue (parseNumberWithUnit (JS.trim t)))
     /\ (forall el t, commentEl = Some el -> textContent el = Some t ->
        Weibo.i_comments i = byValue (parseNumberWithUnit (JS.trim t)))
     /\ (match likeEl with Some el => textContent el = None | None => True end ->
         Weibo.i_likes i = Some Num.zero)
     /\ (match repostEl with Some el => textContent el = None | None => True end ->
         Weibo.i_reposts i = Some Num.zero)
     /\ (match commentEl with Some el => textContent el = None | None => True end ->
         Weibo.i_comments i = Some Num.zero))
  /\ (forall document,
     let i := Xiaohongshu.d_interactions (Xiaohongshu.extractNoteDetail document) in
     let interactionBar :=
       or_el (doc_querySelector document ".engage-bar-style")
             (doc_querySelector document ".buttons") in
     let count t := if JS.allDigits (stripCommas (JS.trim t))
                    then byValue (parseNumberWithUnit (JS.trim t))
                    else Some Num.zero in
     (forall bar el t, interactionBar = Some bar ->
        querySelector bar ".like-wrapper .count" = Some el ->
        textContent el = Some t -> Xiaohongshu.i_likes i = count t)
     /\ (forall bar el t, interactionBar = Some bar ->
        querySelector bar ".collect-wrapper .count" = Some el ->
        textContent el = Some t -> Xiaohongshu.i_collects i = count t)
     /\ (forall bar el t, interactionBar = Some bar ->
        querySelector bar ".chat-wrapper .count" = Some el ->
        textContent el = Some t -> Xiaohongshu.i_comments i = count t)
     /\ (forall bar, interactionBar = Some bar ->
         match querySelector bar ".like-wrapper .count" with
         | Some el => textContent el = None
         | None => True
         end -> Xiaohongshu.i_likes i = Some Num.zero)
     /\ (forall bar, interactionBar = Some bar ->
         match querySelector bar ".collect-wrapper .count" with
         | Some el => textContent el = None
         | None => True
         end -> Xiaohongshu.i_collects i = Some Num.zero)
     /\ (forall bar, interactionBar = Some bar ->
         match querySelector bar ".chat-wrapper .count" with
         | Some el => textContent el = None
         | None => True
         end -> Xiaohongshu.i_comments i = Some Num.zero)
     /\ (interactionBar = None ->
         i = Xiaohongshu.mkInteractions (Some Num.zero) (Some Num.zero)
               (Some Num.zero)))
  /\ (forall x,
       (byValue x = None <-> x = Num.NaN \/ exists s, x = S754_infinity s)
       /\ (forall s, x = S754_zero s -> byValue x = Some Num.zero)
       /\ (forall s m e, x = S754_finite s m e -> byValue x = Some x))
  /\ byValue (parseNumberWithUnit (JS.trim (JS.utf16 "2.5万")))
     = Some (Num.ofZ 25000).
Proof.
  split; [|split; [|split; [exact CountFacts.byValue_cases|]]].
  - intros document i likeEl repostEl commentEl. subst i. simpl.
    fold likeEl repostEl commentEl.
    repeat split.
    + intros el t -> Ht. by rewrite (CountFacts.weibo_countOf el t).
    + intros el t -> Ht. by rewrite (CountFacts.weibo_countOf el t).
    + intros el t -> Ht. by rewrite (CountFacts.weibo_countOf el t).
    + intros H. by rewrite (CountFacts.weibo_countOf_none likeEl H).
    + intros H. by rewrite (CountFacts.weibo_countOf_none repostEl H).
    + intros H. by rewrite (CountFacts.weibo_countOf_none commentEl H).
  - intros document i interactionBar count. subst i. simpl.
    fold interactionBar.
    assert (Hcount : forall el t, textContent el = Some t ->
              byValue (Xiaohongshu.countOf (Some el)) = count t).
    { intros el t Ht. rewrite (CountFacts.xhs_countOf el t Ht). unfold count.
      by destruct (JS.allDigits _). }
    repeat split.
    + intros bar el t -> Hel Ht. simpl. rewrite Hel. by apply Hcount.
    + intros bar el t -> Hel Ht. simpl. rewrite Hel. by apply Hcount.
    + intros bar el t -> Hel Ht. simpl. rewrite Hel. by apply Hcount.
    + intros bar -> H. simpl. by rewrite (CountFacts.xhs_countOf_none _ H).
    + intros bar -> H. simpl. by rewrite (CountFacts.xhs_countOf_none _ H).
    + intros bar -> H. simpl. by rewrite (CountFacts.xhs_countOf_none _ H).
    + by intros ->.
  - vm_compute. reflexivity.
Qed.

(** The amended C6 at a toolbar of weibo.ts that shows [2.5万] and no
    other count, and at a bar of xiaohongshu.ts that shows [2.5万],
    [1,234] and [7]: the first expands the marker, the second leaves
    that count at 0. *)
Lemma C6_detail_counts_witness :
  Weibo.i_likes
    (Weibo.d_interactions (Weibo.extractWeiboDetail Samples.likesOnlyPage))
  = Some (Num.ofZ 25000)
  /\ Xiaohongshu.i_collects
       (Xiaohongshu.d_interactions
          (Xiaohongshu.extractNoteDetail (Samples.barPage "2.5万" "1,234" "7")))
     = Some (Num.ofZ 1234).
Proof.
  destruct C6_detail_counts as (HW & HX & _ & _). split.
  - destruct (HW Samples.likesOnlyPage) as (Hl & _).
    rewrite (Hl (Samples.textElement "2.5万") (JS.utf16 "2.5万") eq_refl eq_refl).
    vm_compute. reflexivity.
  - destruct (HX (Samples.barPage "2.5万" "1,234" "7")) as (_ & Hc & _).
    match goal with
    | |- context [Xiaohongshu.extractNoteDetail ?page] =>
      match eval hnf in (doc_querySelector page ".engage-bar-style") with
      | Some ?bar =>
        rewrite (Hc bar (Samples.textElement "1,234") (JS.utf16 "1,234")
                   eq_refl eq_refl eq_refl)
      end
    end.
    vm_compute. reflexivity.
Defined.

(** ** Tags and topics *)

Module TagFacts.

Lemma removeAll_clean p s : forallb (fun c => negb (p c)) (JS.removeAll p s) = true.
Proof.
  unfold JS.removeAll. induction s as [|c r IH]; simpl; [done|].
  destruct (p c) eqn:Hc; simpl; [done|]. by rewrite Hc.
Qed.

Lemma count_app c a b : JS.count c (a ++ b) = (JS.count c a + JS.count c b)%nat.
Proof. unfold JS.count. by rewrite List.filter_app, length_app. Qed.

Lemma count_rev c s : JS.count c (rev s) = JS.count c s.
Proof.
  induction s as [|x r IH]; [done|].
  simpl rev. rewrite count_app, IH. unfold JS.count. simpl.
  destruct (x =? c)%N; simpl; lia.
Qed.

Lemma count_dropWhile c p s :
  p c = false -> JS.count c (JS.dropWhile p s) = JS.count c s.
Proof.
  intros Hc. induction s as [|x r IH]; [done|]. simpl.
  destruct (p x) eqn:Hx; [|done]. rewrite IH. unfold JS.count. simpl.
  destruct (x =? c)%N eqn:Hxc; [|done].
  apply N.eqb_eq in Hxc. congruence.
Qed.

Lemma count_removeAll c p s :
  p c = false -> JS.count c (JS.removeAll p s) = JS.count c s.
Proof.
  intros Hc. unfold JS.removeAll, JS.count.
  induction s as [|x r IH]; [done|]. simpl.
  destruct (p x) eqn:Hx; simpl.
  - destruct (x =? c)%N eqn:Hxc; [|done].
    apply N.eqb_eq in Hxc. congruence.
  - destruct (x =? c)%N; simpl; by rewrite IH.
Qed.

Lemma count_trim c s :
  JS.isWhiteSpace c = false -> JS.count c (JS.trim s) = JS.count c s.
Proof.
  intros Hc. unfold JS.trim, JS.trimEnd, JS.trimStart.
  by rewrite count_rev, count_dropWhile, count_rev, count_dropWhile.
Qed.

Lemma startsWith_single c x r : JS.startsWith [c] (x :: r) = (c =? x)%N.
Proof.
  change (JS.startsWith [c] (x :: r)) with ((c =? x)%N && true).
  apply andb_true_r.
Qed.

(** Matching on a first code unit other than [#] takes the default
    branch. *)
Lemma unhash_other {A} x (r : jsstring) (a : jsstring -> A) (b : A) :
  x <> 35%N ->
  match x :: r with 35%N :: r0 => a r0 | _ => b end = b.
Proof.
  intros Hx. destruct x as [|p]; [reflexivity|].
  do 6 (try (destruct p as [p|p|]; try reflexivity)).
  by destruct Hx.
Qed.

(** [replace(/^#/, '')] removes one [#] exactly when the text starts
    with one. *)
Lemma count_unhash s :
  (JS.count 35 (match s with 35%N :: r => r | _ => s end)
   + (if JS.startsWith [35%N] s then 1 else 0))%nat
  = JS.count 35 s.
Proof.
  destruct s as [|x r]; [done|].
  destruct (decide (x = 35%N)) as [->|Hx].
  - unfold JS.count. simpl. lia.
  - assert (Hs : JS.startsWith [35%N] (x :: r) = false).
    { rewrite startsWith_single. apply N.eqb_neq. congruence. }
    rewrite Hs, (unhash_other x r (fun r0 => r0) (x :: r) Hx). lia.
Qed.

(** [replace(/#$/, '')] removes one [#] exactly when the text ends with
    one. *)
Lemma count_dropLastHash s :
  (JS.count 35 (Weibo.dropLastHash s)
   + (if JS.startsWith [35%N] (rev s) then 1 else 0))%nat
  = JS.count 35 s.
Proof.
  unfold Weibo.dropLastHash.
  assert (Hs : s = rev (rev s)) by (symmetry; apply rev_involutive).
  destruct (rev s) as [|x r] eqn:Hr.
  - simpl. lia.
  - destruct (decide (x = 35%N)) as [->|Hx].
    + rewrite startsWith_single. simpl (35 =? 35)%N. cbv iota.
      rewrite Hs. simpl rev. rewrite count_app. reflexivity.
    + rewrite (unhash_other x r (fun r0 => rev r0) s Hx).
      rewrite startsWith_single.
      assert (He : (35 =? x)%N = false) by (apply N.eqb_neq; congruence).
      rewrite He. lia.
Qed.

(** White space that [trim] strips is white space that the last
    replacement would have removed. *)
Lemma removeAll_dropWhile p s :
  JS.removeAll p (JS.dropWhile p s) = JS.removeAll p s.
Proof.
  unfold JS.removeAll. induction s as [|c r IH]; [done|]. simpl.
  destruct (p c) eqn:Hc; simpl; [done|]. by rewrite Hc.
Qed.

Lemma removeAll_rev p s : JS.removeAll p (rev s) = rev (JS.removeAll p s).
Proof.
  unfold JS.removeAll. induction s as [|c r IH]; [done|]. simpl.
  rewrite List.filter_app, IH. simpl. destruct (negb (p c)); simpl; [done|].
  by rewrite app_nil_r.
Qed.

Lemma removeAll_trim s :
  JS.removeAll JS.isWhiteSpace (JS.trim s) = JS.removeAll JS.isWhiteSpace s.
Proof.
  unfold JS.trim, JS.trimEnd, JS.trimStart.
  by rewrite removeAll_rev, removeAll_dropWhile, removeAll_rev, rev_involutive,
    removeAll_dropWhile.
Qed.

Lemma dropWhile_head p s c r : JS.dropWhile p s = c :: r -> p c = false.
Proof.
  induction s as [|x s IH]; [done|]. simpl.
  destruct (p x) eqn:Hx; [done|]. by intros [= <- _].
Qed.

Lemma dropWhile_suffix p s : exists front, s = front ++ JS.dropWhile p s.
Proof.
  induction s as [|x s [front IH]]; [by exists []|]. simpl.
  destruct (p x); [|by exists []].
  exists (x :: front). simpl. by rewrite <- IH.
Qed.

(** The trimmed text starts and ends with code units that are not white
    space. *)
Lemma trim_head s c r : JS.trim s = c :: r -> JS.isWhiteSpace c = false.
Proof.
  unfold JS.trim, JS.trimEnd, JS.trimStart. intros Ht.
  destruct (dropWhile_suffix JS.isWhiteSpace (rev (JS.dropWhile JS.isWhiteSpace s)))
    as [front Hf].
  apply (f_equal (@rev N)) in Hf. rewrite rev_involutive, rev_app_distr, Ht in Hf.
  simpl in Hf. by apply dropWhile_head in Hf.
Qed.

Lemma trim_last s front c : JS.trim s = front ++ [c] -> JS.isWhiteSpace c = false.
Proof.
  unfold JS.trim, JS.trimEnd. intros Ht.
  apply (f_equal (@rev N)) in Ht. rewrite rev_involutive, rev_app_distr in Ht.
  simpl in Ht. by apply dropWhile_head in Ht.
Qed.

Lemma removeAll_cons_keep p c r :
  p c = false -> JS.removeAll p (c :: r) = c :: JS.removeAll p r.
Proof. unfold JS.removeAll. simpl. by intros ->. Qed.

Lemma removeAll_snoc_keep p front c :
  p c = false -> JS.removeAll p (front ++ [c]) = JS.removeAll p front ++ [c].
Proof. unfold JS.removeAll. rewrite List.filter_app. simpl. by intros ->. Qed.

(** The text left by [replace(/^#/, '')] on the trimmed text is empty
    or ends with a code unit that is not white space. *)
Lemma unhashed_last s :
  let unhashed := match JS.trim s with 35%N :: r => r | _ => JS.trim s end in
  unhashed = []
  \/ exists front c, unhashed = front ++ [c] /\ JS.isWhiteSpace c = false.
Proof.
  intros unhashed.
  assert (Hcases : forall u : jsstring, u = [] \/ exists front c, u = front ++ [c]).
  { intros u. induction u as [|c front _] using rev_ind; [by left|right; eauto]. }
  destruct (Hcases unhashed) as [?|(front & c & Hu)]; [by left|].
  right. exists front, c. split; [done|].
  subst unhashed. destruct (JS.trim s) as [|x r] eqn:Ht; [by destruct front|].
  destruct (decide (x = 35%N)) as [->|Hx].
  - apply (trim_last s (35%N :: front) c). by rewrite Ht, Hu.
  - rewrite (unhash_other x r (fun r0 => r0) (x :: r) Hx) in Hu.
    apply (trim_last s front c). by rewrite Ht.
Qed.

Lemma dropLastHash_hash front : Weibo.dropLastHash (front ++ [35%N]) = front.
Proof.
  unfold Weibo.dropLastHash. rewrite rev_app_distr. simpl.
  apply rev_involutive.
Qed.

Lemma dropLastHash_other front c :
  c <> 35%N -> Weibo.dropLastHash (front ++ [c]) = front ++ [c].
Proof.
  intros Hc. unfold Weibo.dropLastHash. rewrite rev_app_distr. simpl.
  apply (unhash_other c (rev front) (fun r0 => rev r0) (front ++ [c]) Hc).
Qed.

(** The clean-up of xiaohongshu.ts on the text without its white
    space. *)
Lemma xhs_normalizeTag_body text :
  let body := JS.removeAll JS.isWhiteSpace text in
  (forall r, body = 35%N :: r -> Xiaohongshu.normalizeTag text = r)
  /\ ((forall r, body <> 35%N :: r) -> Xiaohongshu.normalizeTag text = body).
Proof.
  intros body. unfold Xiaohongshu.normalizeTag.
  assert (Hb : body = JS.removeAll JS.isWhiteSpace (JS.trim text))
    by (symmetry; apply removeAll_trim).
  destruct (JS.trim text) as [|x r0] eqn:Ht.
  - simpl in *. split; [by rewrite Hb|by rewrite Hb].
  - pose proof (trim_head text x r0 Ht) as Hx.
    rewrite (removeAll_cons_keep _ x r0 Hx) in Hb.
    destruct (decide (x = 35%N)) as [->|Hne].
    + split.
      * intros r Hr. rewrite Hb in Hr. by injection Hr as <-.
      * intros Hno. by destruct (Hno _ Hb).
    + rewrite (unhash_other x r0 (fun r1 => r1) (x :: r0) Hne).
      rewrite (removeAll_cons_keep _ x r0 Hx), <- Hb. split; [|done].
      intros r Hr. rewrite Hb in Hr. by injection Hr as ->.
Qed.

(** The clean-up of weibo.ts is that of xiaohongshu.ts followed by the
    removal of one [#] at the end. *)
Lemma weibo_normalizeTag_after text :
  let first := Xiaohongshu.normalizeTag text in
  (forall r, first = r ++ [35%N] -> Weibo.normalizeTag text = r)
  /\ ((forall r, first <> r ++ [35%N]) -> Weibo.normalizeTag text = first).
Proof.
  intros first. subst first.
  unfold Xiaohongshu.normalizeTag, Weibo.normalizeTag.
  destruct (unhashed_last text) as [Hu|(front & c & Hu & Hc)]; cbv zeta in Hu;
    rewrite Hu.
  - simpl. split; [|done]. intros r Hr. by destruct r.
  - rewrite (removeAll_snoc_keep _ front c Hc).
    destruct (decide (c = 35%N)) as [->|Hne].
    + rewrite dropLastHash_hash. split.
      * intros r Hr. by apply app_inj_tail in Hr as [-> _].
      * intros Hno. by destruct (Hno (JS.removeAll JS.isWhiteSpace front)).
    + rewrite (dropLastHash_other front c Hne),
        (removeAll_snoc_keep _ front c Hc). split; [|done].
      intros r Hr. by apply app_inj_tail in Hr as [_ ->].
Qed.

(** The text without its white space starts with [#] exactly when the
    trimmed text does. *)
Lemma startsWith_hash_trim text :
  JS.startsWith [35%N] (JS.removeAll JS.isWhiteSpace text)
  = JS.startsWith [35%N] (JS.trim text).
Proof.
  rewrite <- (removeAll_trim text).
  destruct (JS.trim text) as [|x r] eqn:Ht; [done|].
  by rewrite (removeAll_cons_keep _ x r (trim_head text x r Ht)),
    !startsWith_single.
Qed.

End TagFacts.

(** C8, as stated, fails: the clean-up of xiaohongshu.ts does not remove
    a trailing [#], and both clean-ups remove one leading [#] only. *)
Lemma C8_counterexample :
  Xiaohongshu.normalizeTag (JS.utf16 "#话题#") = JS.utf16 "话题#"
  /\ Xiaohongshu.normalizeTag (JS.utf16 "##AI") = JS.utf16 "#AI"
  /\ Weibo.normalizeTag (JS.utf16 "##AI") = JS.utf16 "#AI".
Proof. repeat split; vm_compute; reflexivity. Qed.

(** C8, amended: for every raw tag text the normalised tag of both
    scripts contains no white space.  With the white space of the raw
    text set aside, the clean-up of xiaohongshu.ts removes the [#] that
    starts the text, if there is one, and nothing else; the clean-up of
    weibo.ts removes that one and then the [#] that ends what is left,
    if there is one, and nothing else.  So of the [#] of the raw text
    exactly these go, every other one staying;
    [normalizeTag("  #AI 学习  ")] is [AI学习] in both. *)
Theorem C8_normalizeTag :
  (forall text,
     forallb (fun c => negb (JS.isWhiteSpace c)) (Xiaohongshu.normalizeTag text) = true
     /\ forallb (fun c => negb (JS.isWhiteSpace c)) (Weibo.normalizeTag text) = true)
  /\ (forall text,
     let body := JS.removeAll JS.isWhiteSpace text in
     (forall r, body = 35%N :: r -> Xiaohongshu.normalizeTag text = r)
     /\ ((forall r, body <> 35%N :: r) -> Xiaohongshu.normalizeTag text = body)
     /\ JS.startsWith [35%N] body = JS.startsWith [35%N] (JS.trim text))
  /\ (forall text,
     let first := Xiaohongshu.normalizeTag text in
     (forall r, first = r ++ [35%N] -> Weibo.normalizeTag text = r)
     /\ ((forall r, first <> r ++ [35%N]) -> Weibo.normalizeTag text = first))
  /\ (forall text,
     (JS.count 35 (Xiaohongshu.normalizeTag text)
      + (if JS.startsWith [35%N] (JS.trim text) then 1 else 0))%nat
     = JS.count 35 text)
  /\ (forall text,
     let unhashed := match JS.trim text with
                     | 35%N :: r => r
                     | _ => JS.trim text
                     end in
     (JS.count 35 (Weibo.normalizeTag text)
      + (if JS.startsWith [35%N] (JS.trim text) then 1 else 0)
      + (if JS.startsWith [35%N] (rev unhashed) then 1 else 0))%nat
     = JS.count 35 text)
  /\ Xiaohongshu.normalizeTag (JS.utf16 "  #AI 学习  ") = JS.utf16 "AI学习"
  /\ Weibo.normalizeTag (JS.utf16 "  #AI 学习  ") = JS.utf16 "AI学习".
Proof.
  split; [|split; [|split; [|split; [|split; [|split; vm_compute; reflexivity]]]]].
  - intros text. split; apply TagFacts.removeAll_clean.
  - intros text body.
    destruct (TagFacts.xhs_normalizeTag_body text) as [H1 H2].
    split; [exact H1|]. split; [exact H2|].
    apply TagFacts.startsWith_hash_trim.
  - intros text. apply TagFacts.weibo_normalizeTag_after.
  - intros text. unfold Xiaohongshu.normalizeTag.
    rewrite TagFacts.count_removeAll by reflexivity.
    rewrite <- (TagFacts.count_trim 35 text) by reflexivity.
    apply TagFacts.count_unhash.
  - intros text unhashed. unfold Weibo.normalizeTag. fold unhashed.
    rewrite TagFacts.count_removeAll by reflexivity.
    rewrite <- (TagFacts.count_trim 35 text) by reflexivity.
    rewrite <- (TagFacts.count_unhash (JS.trim text)). fold unhashed.
    pose proof (TagFacts.count_dropLastHash unhashed) as H.
    lia.
Qed.

(** The amended C8 at the text [ #a#b# ]: xiaohongshu.ts gives [a#b#],
    weibo.ts [a#b]. *)
Lemma C8_normalizeTag_witness :
  Xiaohongshu.normalizeTag (JS.utf16 " #a#b# ") = JS.utf16 "a#b#"
  /\ Weibo.normalizeTag (JS.utf16 " #a#b# ") = JS.utf16 "a#b".
Proof.
  destruct C8_normalizeTag as (_ & HX & HW & _).
  assert (H1 : Xiaohongshu.normalizeTag (JS.utf16 " #a#b# ") = JS.utf16 "a#b#").
  { apply (proj1 (HX (JS.utf16 " #a#b# "))). vm_compute. reflexivity. }
  split; [exact H1|].
  apply (proj1 (HW (JS.utf16 " #a#b# "))). rewrite H1. vm_compute. reflexivity.
Defined.

(** ** Urls and images of the records *)

Section RecordOrigin.
Context {Card Detail : Type}.
Variable card_url : Card -> jsstring.
Variable enumerate : Document -> Z -> list Card.
Variable extract : Document -> Detail.
Variable merge : Card -> Detail -> Card.

(** Every record of a returned result is an enumerated card or the
    merge of one with an extraction. *)
Lemma walk_record_origin w limit r notes x :
  walk card_url enumerate extract merge w limit = Returns r ->
  records r = Some notes -> x ∈ notes ->
  exists listing card,
    card ∈ enumerate listing limit
    /\ (x = card \/ exists page, x = merge card (extract page)).
Proof.
  intros Hw Hr Hx.
  pose proof (walk_cases card_url enumerate extract merge w limit) as Hc.
  destruct (w_launch w); [|congruence].
  destruct (w_close w); [|congruence].
  destruct (preludeError w).
  { rewrite Hc in Hw. injection Hw as <-. discriminate Hr. }
  destruct Hc as (listing & _ & Hc). rewrite Hc in Hw.
  injection Hw as <-. simpl in Hr. injection Hr as <-.
  unfold runRecords in Hx.
  apply list_elem_of_In, in_concat in Hx as (group & Hg & Hx).
  apply list_elem_of_In, elem_of_lookup_imap in Hg as (i & card & -> & Hi).
  destruct (appended_shape card_url extract merge (w_detail w i) card)
    as (r0 & rest & Hap & Hr0 & Hrest).
  rewrite Hap in Hx.
  exists listing, card. split; [by eapply list_elem_of_lookup_2|].
  destruct Hx as [<-|Hx].
  - destruct Hr0 as [->|(page & _ & ->)]; eauto.
  - destruct Hrest as [-> | ->]; [done|].
    destruct Hx as [<-|Hf]; [by left|destruct Hf].
Qed.
End RecordOrigin.

Module UrlFacts.

Lemma startsWith_app p s t :
  JS.startsWith p s = true -> JS.startsWith p (s ++ t) = true.
Proof.
  revert s. induction p as [|x p IH]; intros s; [done|].
  destruct s as [|y s]; [done|]. simpl.
  intros [Hxy Hp]%andb_true_iff. rewrite Hxy. simpl. by apply IH.
Qed.

(** An origin that starts with [http] makes every prefixed url start
    with [http]. *)
Lemma absolute_http origin href :
  JS.startsWith http origin = true ->
  JS.startsWith http (absolute origin href) = true.
Proof.
  intros Ho. unfold absolute.
  destruct (JS.startsWith http href) eqn:Hh; [done|].
  by apply startsWith_app.
Qed.

Lemma xhs_card_url el :
  Xiaohongshu.url (Xiaohongshu.cardOf el) = []
  \/ JS.startsWith http (Xiaohongshu.url (Xiaohongshu.cardOf el)) = true.
Proof.
  unfold Xiaohongshu.cardOf. simpl.
  destruct (or_el _ _) as [link|]; [|by left].
  destruct (getAttribute link "href") as [href|]; [|by left].
  destruct (JS.truthy_str href); [|by left].
  right. apply absolute_http. vm_compute. reflexivity.
Qed.

Lemma weibo_card_url el :
  Weibo.url (Weibo.cardOf el) = []
  \/ JS.startsWith http (Weibo.url (Weibo.cardOf el)) = true.
Proof.
  unfold Weibo.cardOf. simpl.
  destruct (querySelector el ".head_name_24eEB") as [link|]; [|by left].
  destruct (parentElement link) as [parent|]; [|by left].
  destruct (getAttribute parent "href") as [href|]; [|by left].
  destruct (JS.truthy_str href); [|by left].
  right. apply absolute_http. vm_compute. reflexivity.
Qed.

Lemma keepImage_clean src :
  keepImage (Some src) = true ->
  JS.includes avatar_word src = false /\ JS.includes emoji_word src = false.
Proof.
  unfold keepImage. intros [[_ Ha]%andb_true_iff He]%andb_true_iff.
  by apply negb_true_iff in Ha, He.
Qed.

Lemma xhs_detail_images page img :
  img ∈ Xiaohongshu.d_images (Xiaohongshu.extractNoteDetail page) ->
  JS.includes avatar_word img = false /\ JS.includes emoji_word img = false.
Proof.
  simpl. intros (el & _ & Hel)%list_elem_of_omap.
  unfold Xiaohongshu.imageOf in Hel.
  destruct (keepImage (getAttribute el "src")) eqn:Hk; [|done].
  rewrite Hel in Hk. by apply keepImage_clean.
Qed.

End UrlFacts.

(** C9, as stated, fails: a summary card without a link has the empty
    url, and a run over it succeeds with that record. *)
Lemma C9_counterexample :
  exists note,
    Xiaohongshu.fetchLatestNotes Samples.runBare 10
      = Returns (mkFetchResult true (Some [note]) None)
    /\ Xiaohongshu.url note = []
    /\ JS.startsWith http (Xiaohongshu.url note) = false.
Proof.
  eexists. split; [vm_compute; reflexivity|].
  split; vm_compute; reflexivity.
Qed.

(** C9, amended: for every record of a returned result of
    [fetchLatestNotes], the url is empty (the card had no link, or its
    link no href) or starts with [http]: an href that starts with [http]
    is kept and any other non-empty href is prefixed with the origin; and
    no url of its images contains [avatar] or [emoji]. *)
Theorem C9_record_url_images :
  (forall w limit r notes note,
     Xiaohongshu.fetchLatestNotes w limit = Returns r ->
     records r = Some notes -> note ∈ notes ->
     (Xiaohongshu.url note = []
      \/ JS.startsWith http (Xiaohongshu.url note) = true)
     /\ forall img, img ∈ Xiaohongshu.images note ->
          JS.includes avatar_word img = false
          /\ JS.includes emoji_word img = false)
  /\ (forall el link href,
     or_el (querySelector el "a.cover") (querySelectorAll el "a" !! 1%nat)
       = Some link ->
     getAttribute link "href" = Some href -> href <> [] ->
     Xiaohongshu.url (Xiaohongshu.cardOf el)
     = if JS.startsWith http href then href else Xiaohongshu.origin ++ href).
Proof.
  split.
  - intros w limit r notes note Hw Hr Hn.
    destruct (walk_record_origin _ _ _ _ w limit r notes note Hw Hr Hn)
      as (listing & card & Hcard & Hshape).
    unfold Xiaohongshu.enumerate in Hcard.
    apply list_elem_of_In, in_map_iff in Hcard as (el & <- & _).
    destruct Hshape as [->|(page & ->)].
    + split; [apply UrlFacts.xhs_card_url|].
      intros img Himg. simpl in Himg. by apply elem_of_nil in Himg.
    + split; [apply UrlFacts.xhs_card_url|].
      intros img Himg. exact (UrlFacts.xhs_detail_images page img Himg).
  - intros el link href Hl Hh Hne. unfold Xiaohongshu.cardOf. simpl.
    rewrite Hl, Hh. destruct href; [done|reflexivity].
Qed.

(** The amended C9 at a successful run over the five cards. *)
Lemma C9_record_url_images_witness :
  exists notes,
    Xiaohongshu.fetchLatestNotes Samples.runOk 2
      = Returns (mkFetchResult true (Some notes) None)
    /\ Forall (fun note =>
                 Xiaohongshu.url note = []
                 \/ JS.startsWith http (Xiaohongshu.url note) = true) notes.
Proof.
  destruct C9_record_url_images as [Hrec _].
  eexists. split; [vm_compute; reflexivity|].
  apply Forall_forall. intros note Hn.
  match type of Hn with
  | _ ∈ ?l =>
    refine (proj1 (Hrec Samples.runOk 2 (mkFetchResult true (Some l) None)
                     l note _ eq_refl Hn))
  end.
  vm_compute. reflexivity.
Defined.

(** * Further properties of the two scripts *)

(** ** The cookie-string parser, in general *)

Module CookieFacts.

Lemma str_eqb_eq a b : JS.str_eqb a b = true <-> a = b.
Proof.
  revert b. induction a as [|x a IH]; intros [|y b]; simpl; try done.
  rewrite andb_true_iff, N.eqb_eq, IH. split; [by intros [-> ->]|by intros [= -> ->]].
Qed.

Lemma str_eqb_neq a b : JS.str_eqb a b = false <-> a <> b.
Proof.
  rewrite <- str_eqb_eq. destruct (JS.str_eqb a b); split; congruence.
Qed.

(** The first piece of a split is the text before the first separator,
    the other pieces are the split of the text after it. *)
Lemma split_unfold sep s :
  JS.split sep s
  = JS.takeWhile (fun c => negb (c =? sep)%N) s
    :: match JS.dropWhile (fun c => negb (c =? sep)%N) s with
       | [] => []
       | _ :: rest => JS.split sep rest
       end.
Proof.
  induction s as [|c r IH]; [done|]. simpl.
  destruct (c =? sep)%N eqn:Hc; simpl; [done|].
  rewrite IH. done.
Qed.

Lemma split_nonempty sep s : JS.split sep s <> [].
Proof. by rewrite split_unfold. Qed.

(** The reducer of [parseCookieString]. *)
Local Abbreviation step_ :=
  (fun (acc : gmap jsstring jsvalue) (pair : jsstring) =>
     let '(key, value) := keyValue pair in setProperty acc key value).

Lemma step_lookup acc pair k :
  JS.str_eqb k proto = false ->
  step_ acc pair !! k
  = if decide ((keyValue pair).1 = k) then Some (keyValue pair).2 else acc !! k.
Proof.
  intros Hk. cbv beta. destruct (keyValue pair) as [key value]. simpl.
  unfold setProperty. destruct (JS.str_eqb key proto) eqn:Hp.
  - apply str_eqb_eq in Hp. apply str_eqb_neq in Hk.
    destruct (decide (key = k)); congruence.
  - destruct (decide (key = k)) as [->|Hne].
    + apply lookup_insert_eq.
    + by apply lookup_insert_ne.
Qed.

Lemma step_lookup_proto acc pair : step_ acc pair !! proto = acc !! proto.
Proof.
  cbv beta. destruct (keyValue pair) as [key value].
  unfold setProperty. destruct (JS.str_eqb key proto) eqn:Hp; [done|].
  apply str_eqb_neq in Hp. by apply lookup_insert_ne.
Qed.

Lemma fold_lookup pairs acc k :
  JS.str_eqb k proto = false ->
  fold_left step_ pairs acc !! k
  = match last (filter (fun kv => kv.1 = k) (keyValue <$> pairs)) with
    | Some kv => Some kv.2
    | None => acc !! k
    end.
Proof.
  intros Hk. revert acc. induction pairs as [|pair rest IH]; intros acc; [done|].
  simpl fold_left. rewrite IH. rewrite fmap_cons, filter_cons.
  destruct (decide ((keyValue pair).1 = k)) as [Heq|Hne].
  - rewrite last_cons.
    destruct (last (filter _ (keyValue <$> rest))); [done|].
    rewrite step_lookup by done. by rewrite decide_True.
  - destruct (last (filter _ (keyValue <$> rest))); [done|].
    rewrite step_lookup by done. by rewrite decide_False.
Qed.

Lemma fold_lookup_proto pairs acc :
  fold_left step_ pairs acc !! proto = acc !! proto.
Proof.
  revert acc. induction pairs as [|pair rest IH]; intros acc; [done|].
  simpl fold_left. by rewrite IH, step_lookup_proto.
Qed.

End CookieFacts.

(** X1: a pair is cut at every [=]: the key is the text before the first
    [=]; the value is [undefined] when the pair has no [=], and otherwise
    the text between the first [=] and the second one (or the end), so
    that whatever follows a second [=] is lost. *)
Theorem X1_keyValue_pieces (pair : jsstring) :
  keyValue pair
  = (JS.takeWhile (fun c => negb (c =? equals)%N) pair,
     match JS.dropWhile (fun c => negb (c =? equals)%N) pair with
     | [] => Undefined
     | _ :: rest => Str (JS.takeWhile (fun c => negb (c =? equals)%N) rest)
     end).
Proof.
  unfold keyValue. rewrite CookieFacts.split_unfold.
  destruct (JS.dropWhile _ pair) as [|c rest]; [done|].
  rewrite CookieFacts.split_unfold. done.
Qed.

(** X2: the last pair wins.  For every cookie string and every key other
    than [__proto__], the parsed object holds under that key the value of
    the last trimmed pair that has this key, and nothing when no pair has
    it; the key [__proto__] is never stored. *)
Theorem X2_parseCookieString_last_wins (cookieString key : jsstring) :
  let pairs := keyValue <$> (JS.trim <$> JS.split semicolon cookieString) in
  (key <> proto ->
   parseCookieString cookieString !! key
   = snd <$> last (filter (fun kv => kv.1 = key) pairs))
  /\ parseCookieString cookieString !! proto = None.
Proof.
  intros pairs. unfold parseCookieString. split.
  - intros Hk. apply CookieFacts.str_eqb_neq in Hk.
    rewrite (CookieFacts.fold_lookup _ _ _ Hk). fold pairs.
    by destruct (last _).
  - by rewrite CookieFacts.fold_lookup_proto.
Qed.

(** X2 at the string [a=1; b=2; a=3]: the key [a] holds [3]. *)
Lemma X2_parseCookieString_last_wins_witness :
  parseCookieString (JS.utf16 "a=1; b=2; a=3") !! JS.utf16 "a"
  = Some (Str (JS.utf16 "3")).
Proof.
  destruct (X2_parseCookieString_last_wins (JS.utf16 "a=1; b=2; a=3") (JS.utf16 "a"))
    as [H _].
  rewrite H; [|vm_compute; discriminate].
  vm_compute. reflexivity.
Defined.

Module CookieMoreFacts.

Local Abbreviation step_ :=
  (fun (acc : gmap jsstring jsvalue) (pair : jsstring) =>
     let '(key, value) := keyValue pair in setProperty acc key value).

Lemma step_size acc pair : (size (step_ acc pair) <= S (size acc))%nat.
Proof.
  cbv beta. destruct (keyValue pair) as [key value]. unfold setProperty.
  destruct (JS.str_eqb key proto); [lia|].
  rewrite map_size_insert. destruct (acc !! key); simpl; lia.
Qed.

Lemma fold_size pairs acc :
  (size (fold_left step_ pairs acc) <= size acc + length pairs)%nat.
Proof.
  revert acc. induction pairs as [|pair rest IH]; intros acc; simpl; [lia|].
  pose proof (IH (step_ acc pair)). pose proof (step_size acc pair). lia.
Qed.

Lemma step_dom acc pair :
  (keyValue pair).1 <> proto ->
  dom (step_ acc pair) = {[ (keyValue pair).1 ]} ∪ dom acc.
Proof.
  cbv beta. destruct (keyValue pair) as [key value]. simpl. intros Hk.
  unfold setProperty. apply CookieFacts.str_eqb_neq in Hk. rewrite Hk.
  apply dom_insert_L.
Qed.

Lemma fold_dom pairs acc :
  Forall (fun pair => (keyValue pair).1 <> proto) pairs ->
  dom (fold_left step_ pairs acc)
  = list_to_set ((fun pair => (keyValue pair).1) <$> pairs) ∪ dom acc.
Proof.
  revert acc. induction pairs as [|pair rest IH]; intros acc Hp; simpl.
  - set_solver.
  - apply Forall_cons in Hp as [Hp Hrest].
    rewrite IH, step_dom by done. set_solver.
Qed.

(** A piece of a split is made of code units of the text, none of them
    the separator. *)
Lemma split_pieces sep s piece x :
  piece ∈ JS.split sep s -> x ∈ piece -> x ∈ s /\ x <> sep.
Proof.
  revert piece. induction s as [|c r IH]; intros piece; simpl.
  - intros ->%list_elem_of_singleton Hx. by apply elem_of_nil in Hx.
  - destruct (c =? sep)%N eqn:Hc.
    + intros [->|Hp]%elem_of_cons Hx; [by apply elem_of_nil in Hx|].
      destruct (IH piece Hp Hx). split; [by right|done].
    + apply N.eqb_neq in Hc.
      destruct (JS.split sep r) as [|h t] eqn:Hs.
      * intros ->%list_elem_of_singleton ->%list_elem_of_singleton.
        split; [by left|done].
      * intros [->|Hp]%elem_of_cons Hx.
        -- apply elem_of_cons in Hx as [->|Hx]; [split; [by left|done]|].
           destruct (IH h ltac:(by left) Hx). split; [by right|done].
        -- destruct (IH piece ltac:(by right) Hx). split; [by right|done].
Qed.

Lemma takeWhile_elem p s x : x ∈ JS.takeWhile p s -> x ∈ s /\ p x = true.
Proof.
  induction s as [|c r IH]; simpl; [by intros ?%elem_of_nil|].
  destruct (p c) eqn:Hc; [|by intros ?%elem_of_nil].
  intros [->|Hx]%elem_of_cons; [split; [by left|done]|].
  destruct (IH Hx). split; [by right|done].
Qed.

Lemma dropWhile_elem p s x : x ∈ JS.dropWhile p s -> x ∈ s.
Proof.
  induction s as [|c r IH]; simpl; [done|].
  destruct (p c); [|done]. intros Hx. right. auto.
Qed.

Lemma trim_elem s x : x ∈ JS.trim s -> x ∈ s.
Proof.
  unfold JS.trim, JS.trimEnd, JS.trimStart. intros Hx.
  apply list_elem_of_In, in_rev, list_elem_of_In in Hx.
  apply dropWhile_elem in Hx.
  apply list_elem_of_In, in_rev, list_elem_of_In in Hx.
  by apply dropWhile_elem in Hx.
Qed.

(** The code units of a key and of a value are code units of the pair,
    and none of them is [=]. *)
Lemma keyValue_elem pair x :
  (x ∈ (keyValue pair).1 -> x ∈ pair /\ x <> equals)
  /\ (forall t, (keyValue pair).2 = Str t -> x ∈ t -> x ∈ pair /\ x <> equals).
Proof.
  rewrite X1_keyValue_pieces. simpl. split.
  - intros [Hx Hp]%takeWhile_elem. split; [done|].
    apply negb_true_iff, N.eqb_neq in Hp. done.
  - intros t Ht Hx.
    destruct (JS.dropWhile _ pair) as [|c rest] eqn:Hd; [done|].
    injection Ht as <-. apply takeWhile_elem in Hx as [Hx Hp].
    split; [|by apply negb_true_iff, N.eqb_neq in Hp].
    eapply dropWhile_elem. rewrite Hd. by right.
Qed.

End CookieMoreFacts.

(** X3: a cookie string that is empty, or whose text after the last [;]
    is white space only, is parsed into an object with a property whose
    name is the empty string and whose value is [undefined]. *)
Theorem X3_parseCookieString_empty_key (cookieString : jsstring) :
  JS.trim <$> last (JS.split semicolon cookieString) = Some [] ->
  parseCookieString cookieString !! ([] : jsstring) = Some Undefined.
Proof.
  intros Hlast.
  destruct (X2_parseCookieString_last_wins cookieString []) as [Hk _].
  rewrite Hk by (vm_compute; discriminate).
  rewrite <- fmap_last in Hlast.
  apply last_Some in Hlast as [pieces Hp]. rewrite Hp.
  rewrite fmap_app, filter_app. simpl.
  rewrite filter_cons, decide_True by reflexivity.
  rewrite filter_nil, last_snoc. reflexivity.
Qed.

(** X3 at the empty string and at [a=1;]. *)
Lemma X3_parseCookieString_empty_key_witness :
  parseCookieString [] !! ([] : jsstring) = Some Undefined
  /\ parseCookieString (JS.utf16 "a=1; ") !! ([] : jsstring) = Some Undefined.
Proof.
  split; apply X3_parseCookieString_empty_key; vm_compute; reflexivity.
Defined.

(** X4: the parsed object never has more properties than the string has
    pairs (one more than it has [;]), and has exactly as many when the
    keys of the pairs are pairwise distinct and none is [__proto__]. *)
Theorem X4_parseCookieString_size (cookieString : jsstring) :
  let pieces := JS.trim <$> JS.split semicolon cookieString in
  let keys := (fun pair => (keyValue pair).1) <$> pieces in
  (size (parseCookieString cookieString) <= length pieces)%nat
  /\ length pieces = S (JS.count semicolon cookieString)
  /\ (NoDup keys -> proto ∉ keys ->
      size (parseCookieString cookieString) = length pieces).
Proof.
  intros pieces keys. split; [|split].
  - unfold parseCookieString.
    pose proof (CookieMoreFacts.fold_size pieces ∅) as H.
    rewrite map_size_empty in H. exact H.
  - unfold pieces. rewrite length_fmap. clear.
    induction cookieString as [|c r IH]; [done|]. simpl.
    unfold JS.count in *. simpl. destruct (c =? semicolon)%N; simpl.
    + by rewrite IH.
    + destruct (JS.split semicolon r); simpl in *; lia.
  - intros Hnd Hproto. unfold parseCookieString. fold pieces.
    rewrite <- size_dom, CookieMoreFacts.fold_dom.
    + rewrite dom_empty_L, union_empty_r_L. fold keys.
      rewrite size_list_to_set by done. unfold keys. by rewrite length_fmap.
    + apply Forall_forall. intros pair Hpair Heq. apply Hproto.
      unfold keys. apply list_elem_of_fmap. exists pair. by rewrite Heq.
Qed.

(** X4 at [a=1; b=2; c]: three pairs with distinct keys, three
    properties. *)
Lemma X4_parseCookieString_size_witness :
  size (parseCookieString (JS.utf16 "a=1; b=2; c")) = 3%nat.
Proof.
  destruct (X4_parseCookieString_size (JS.utf16 "a=1; b=2; c")) as (_ & _ & H).
  rewrite H; [vm_compute; reflexivity| |].
  - vm_compute. repeat constructor; set_solver.
  - vm_compute. set_solver.
Defined.

(** X5: no name and no value of the parsed object contains [;] or [=],
    and all their code units are code units of the cookie string. *)
Theorem X5_parseCookieString_no_separator
    (cookieString key : jsstring) (value : jsvalue) (x : N) :
  parseCookieString cookieString !! key = Some value ->
  (x ∈ key -> x ∈ cookieString /\ x <> semicolon /\ x <> equals)
  /\ (forall t, value = Str t -> x ∈ t ->
        x ∈ cookieString /\ x <> semicolon /\ x <> equals).
Proof.
  intros Hlook.
  destruct (decide (key = proto)) as [->|Hk].
  { destruct (X2_parseCookieString_last_wins cookieString proto) as [_ H].
    rewrite H in Hlook. discriminate Hlook. }
  destruct (X2_parseCookieString_last_wins cookieString key) as [H _].
  rewrite (H Hk) in Hlook. clear H.
  destruct (last _) as [[k v]|] eqn:Hlast; [|discriminate Hlook].
  injection Hlook as <-.
  apply last_Some in Hlast as [pre Hpre].
  assert (Hin : (k, v) ∈ filter (fun kv : jsstring * jsvalue => kv.1 = key)
                  (keyValue <$> (JS.trim <$> JS.split semicolon cookieString))).
  { rewrite Hpre. apply elem_of_app. right. by left. }
  apply list_elem_of_filter in Hin as [Hkey Hin]. simpl in Hkey. subst k.
  apply list_elem_of_fmap in Hin as (pair & Hkv & Hin).
  apply list_elem_of_fmap in Hin as (piece & -> & Hpiece).
  pose proof (CookieMoreFacts.keyValue_elem (JS.trim piece) x) as [Hk1 Hv1].
  rewrite <- Hkv in Hk1, Hv1. simpl in Hk1, Hv1.
  split.
  - intros Hx. destruct (Hk1 Hx) as [Hxp Hne].
    apply CookieMoreFacts.trim_elem in Hxp.
    destruct (CookieMoreFacts.split_pieces _ _ _ _ Hpiece Hxp). done.
  - intros t -> Hx. destruct (Hv1 t eq_refl Hx) as [Hxp Hne].
    apply CookieMoreFacts.trim_elem in Hxp.
    destruct (CookieMoreFacts.split_pieces _ _ _ _ Hpiece Hxp). done.
Qed.

(** X5 at [sid=abc==; theme]: the stored value [abc] has no [=]. *)
Lemma X5_parseCookieString_no_separator_witness :
  equals ∉ JS.utf16 "abc".
Proof.
  intros Hx.
  destruct (X5_parseCookieString_no_separator Samples.cookies (JS.utf16 "sid")
              (Str (JS.utf16 "abc")) equals) as [_ H].
  { vm_compute. reflexivity. }
  destruct (H (JS.utf16 "abc") eq_refl Hx) as (_ & _ & Hne). by apply Hne.
Defined.

(** ** Signs of the parsed numbers *)

Module SignFacts.

Lemma shr_fexp_nonneg m e l :
  0 <= m -> 0 <= shr_m (fst (shr_fexp Num.prec Num.emax m e l)).
Proof.
  intros Hm. unfold shr_fexp, shr.
  assert (Hr : shr_m (shr_record_of_loc m l) = m)
    by (destruct l as [|[]]; reflexivity).
  destruct (fexp _ _ _ - e) as [|n|n]; simpl; rewrite ?Hr; try done.
  rewrite NumFacts.iter_shr_1_m by (rewrite Hr; done). rewrite Hr.
  apply Z.div_pos; [done|apply NumFacts.pow2_pos].
Qed.

Lemma round_nearest_even_nonneg m l : 0 <= m -> 0 <= round_nearest_even m l.
Proof. destruct l as [|[]]; simpl; try lia. destruct (Z.even m); lia. Qed.

(** Rounding a non-negative mantissa gives a value of the requested
    sign, never [NaN]. *)
Lemma binary_round_aux_sign sx m e l :
  0 <= m ->
  signBit (binary_round_aux Num.prec Num.emax sx m e l) = sx
  /\ binary_round_aux Num.prec Num.emax sx m e l <> S754_nan.
Proof.
  intros Hm. unfold binary_round_aux.
  pose proof (shr_fexp_nonneg m e l Hm) as H1.
  destruct (shr_fexp Num.prec Num.emax m e l) as [mrs' e']. simpl in H1.
  pose proof (round_nearest_even_nonneg _ (loc_of_shr_record mrs') H1) as H2.
  pose proof (shr_fexp_nonneg _ e' loc_Exact H2) as H3.
  destruct (shr_fexp Num.prec Num.emax _ e' loc_Exact) as [mrs'' e'']. simpl in H3.
  destruct (shr_m mrs'') as [|q|q]; [done| |lia].
  destruct (e'' <=? Num.emax - Num.prec); done.
Qed.

Lemma binary_normalize_sign m :
  0 <= m -> signBit (binary_normalize Num.prec Num.emax m 0 false) = false.
Proof.
  intros Hm. destruct m as [|p|p]; [done| |lia].
  unfold binary_normalize, binary_round.
  destruct (shl_align p 0 _) as [mz ez].
  apply binary_round_aux_sign. lia.
Qed.

Lemma mul_sign x y :
  signBit x = false -> signBit y = false -> signBit (Num.mul x y) = false.
Proof.
  unfold Num.mul, SFmul.
  destruct x as [sx|sx| |sx mx ex], y as [sy|sy| |sy my ey]; simpl;
    intros Hx Hy; subst; try done.
  apply (binary_round_aux_sign false). lia.
Qed.

Lemma ofDecimal_sign m e : signBit (Num.ofDecimal false m e) = false.
Proof.
  unfold Num.ofDecimal. destruct m as [|p|p]; [done| |done].
  destruct (0 <=? e) eqn:He.
  - apply binary_normalize_sign. apply Z.leb_le in He.
    pose proof (Z.pow_pos_nonneg 10 e ltac:(lia) He). lia.
  - unfold SFdiv.
    destruct (SFdiv_core_binary _ _ _ _ _ _) as [[mz ez] lz] eqn:Hd.
    apply binary_round_aux_sign.
    unfold SFdiv_core_binary in Hd.
    set (m' := match _ - _ with Z.pos _ => _ | Z0 => _ | Z.neg _ => _ end) in Hd.
    assert (Hm' : 0 <= m').
    { unfold m'. destruct (_ - _); [lia| |lia]. apply Z.shiftl_nonneg. lia. }
    pose proof (Z_div_mod m' (Z.pos (Z.to_pos (10 ^ - e))) ltac:(lia)) as Hdm.
    destruct (Z.div_eucl m' _) as [q r]. injection Hd as <- _ _.
    destruct Hdm as [Heq Hr]. nia.
Qed.

(** A sign is read only from a [-] of the text. *)
Lemma readSign_minus s :
  minus ∉ s -> (Num.readSign (JS.trimStart s)).1 = false.
Proof.
  intros Hs.
  assert (Ht : minus ∉ JS.trimStart s).
  { intros H. apply Hs. by apply CookieMoreFacts.dropWhile_elem in H. }
  destruct (JS.trimStart s) as [|c r]; [done|].
  destruct (decide (c = 45%N)) as [->|Hc].
  - exfalso. apply Ht. by left.
  - unfold Num.readSign.
    destruct c as [|p]; [done|].
    do 6 (try (destruct p as [p|p|]; try done)).
Qed.

Lemma parseInt_sign s : minus ∉ s -> signBit (Num.parseInt s) = false.
Proof.
  intros Hs. unfold Num.parseInt. pose proof (readSign_minus s Hs) as Hr.
  destruct (Num.readSign (JS.trimStart s)) as [neg r]. simpl in Hr. subst neg.
  destruct (JS.takeWhile JS.isDigit r); [done|]. apply ofDecimal_sign.
Qed.

Lemma parseFloat_sign s : minus ∉ s -> signBit (Num.parseFloat s) = false.
Proof.
  intros Hs. unfold Num.parseFloat. pose proof (readSign_minus s Hs) as Hr.
  destruct (Num.readSign (JS.trimStart s)) as [neg r]. simpl in Hr. subst neg.
  destruct (JS.startsWith _ r); [done|].
  destruct (match JS.dropWhile JS.isDigit r with
            | 46%N :: r' => _ | _ => _ end) as [fp r2].
  destruct (JS.takeWhile JS.isDigit r ++ fp); [done|]. apply ofDecimal_sign.
Qed.

Lemma replace_elem p s x : x ∈ JS.replace p [] s -> x ∈ s.
Proof.
  induction s as [|c r IH]; simpl.
  - destruct (JS.startsWith p []); simpl; [|done].
    intros Hx. by apply (subseteq_drop (length p) []) in Hx.
  - destruct (JS.startsWith p (c :: r)).
    + simpl. intros Hx. by apply (subseteq_drop (length p) (c :: r)) in Hx.
    + intros [->|Hx]%elem_of_cons; [by left|right; auto].
Qed.

Lemma stripCommas_elem s x : x ∈ stripCommas s -> x ∈ s.
Proof.
  unfold stripCommas, JS.removeAll. intros Hx.
  apply list_elem_of_In, filter_In in Hx as [Hx _]. by apply list_elem_of_In.
Qed.

End SignFacts.

(** X6: the normaliser never returns a negative number (nor [-0]) for a
    text without [-], whichever branch it takes; and the counts of the
    detail extractor of xiaohongshu.ts, which accepts runs of digits
    only, are never negative at all: neither the count computed in the
    page for any element, nor the count that arrives, which is [null]
    or a number that is not negative. *)
Theorem X6_counts_not_negative :
  (forall text, minus ∉ text -> signBit (parseNumberWithUnit text) = false)
  /\ (forall el, signBit (Xiaohongshu.countOf el) = false)
  /\ (forall document,
       let i := Xiaohongshu.d_interactions (Xiaohongshu.extractNoteDetail document) in
       (forall x, Xiaohongshu.i_likes i = Some x -> signBit x = false)
       /\ (forall x, Xiaohongshu.i_collects i = Some x -> signBit x = false)
       /\ (forall x, Xiaohongshu.i_comments i = Some x -> signBit x = false)).
Proof.
  assert (Hc : forall el, signBit (Xiaohongshu.countOf el) = false).
  { intros [el|]; [|done]. unfold Xiaohongshu.countOf.
    destruct (textContent el) as [t|]; [|done].
    destruct (JS.truthy_str t); [|done].
    destruct (JS.allDigits _) eqn:Hd; [|done].
    apply SignFacts.parseInt_sign. intros H.
    unfold JS.allDigits in Hd. apply andb_true_iff in Hd as [_ Hd].
    rewrite forallb_forall in Hd. apply list_elem_of_In, Hd in H.
    vm_compute in H. discriminate H. }
  assert (Hv : forall y x, signBit y = false -> byValue y = Some x ->
                           signBit x = false).
  { intros y x Hy. destruct y; simpl; intros [= <-]; done. }
  split; [|split; [exact Hc|]].
  - intros text Hm. unfold parseNumberWithUnit.
    destruct (negb (JS.truthy_str text) || JS.str_eqb text []); [done|].
    destruct (JS.includes wan text).
    { apply SignFacts.mul_sign; [|vm_compute; reflexivity].
      apply SignFacts.parseFloat_sign. intros H. apply Hm.
      by apply SignFacts.replace_elem in H. }
    destruct (JS.includes yi text).
    { apply SignFacts.mul_sign; [|vm_compute; reflexivity].
      apply SignFacts.parseFloat_sign. intros H. apply Hm.
      by apply SignFacts.replace_elem in H. }
    unfold Num.or. destruct (Num.truthy _); [|done].
    apply SignFacts.parseInt_sign. intros H. apply Hm.
    by apply SignFacts.stripCommas_elem in H.
  - intros document. simpl.
    destruct (or_el _ _); simpl; repeat split; intros x Hx;
      try (by injection Hx as <-);
      (eapply Hv; [|exact Hx]); apply Hc.
Qed.

(** X6 at the text [1,234]. *)
Lemma X6_counts_not_negative_witness :
  signBit (parseNumberWithUnit (JS.utf16 "1,234")) = false.
Proof.
  destruct X6_counts_not_negative as (H & _ & _). apply H.
  vm_compute. intros Hin.
  repeat (apply elem_of_cons in Hin as [Hin|Hin]; [discriminate Hin|]).
  by apply elem_of_nil in Hin.
Defined.

(** ** Commas and markers *)

Module MarkerFacts.

Lemma startsWith_self p t : JS.startsWith p (p ++ t) = true.
Proof. induction p as [|x p IH]; [done|]. simpl. by rewrite N.eqb_refl. Qed.

Lemma startsWith_cons x p y s :
  JS.startsWith (x :: p) (y :: s) = (x =? y)%N && JS.startsWith p s.
Proof. reflexivity. Qed.

(** The ten-thousand branch of the normaliser. *)
Lemma parseNumberWithUnit_wan text :
  JS.includes wan text = true ->
  parseNumberWithUnit text
  = Num.mul (Num.parseFloat (JS.replace wan [] text)) (Num.ofZ 10000).
Proof.
  intros Hw. unfold parseNumberWithUnit. rewrite Hw.
  destruct text; [discriminate Hw|reflexivity].
Qed.

Lemma includes_suffix p l : JS.includes p (l ++ p) = true.
Proof.
  induction l as [|x l IH].
  - simpl app. destruct p; simpl; [done|].
    rewrite <- (app_nil_r p) at 2. rewrite N.eqb_refl.
    change (JS.startsWith p (p ++ [])) with (JS.startsWith p (p ++ [])).
    by rewrite startsWith_self.
  - simpl. rewrite IH. apply orb_true_r.
Qed.

Lemma includes_app_r p a s : JS.includes p s = true -> JS.includes p (a ++ s) = true.
Proof.
  intros Hs. induction a as [|x a IH]; [done|].
  simpl. rewrite IH. apply orb_true_r.
Qed.

(** Replacing a pattern of one code unit by nothing removes its first
    occurrence. *)
Lemma replace_single c l r :
  c ∉ l -> JS.replace [c] [] (l ++ c :: r) = l ++ r.
Proof.
  induction l as [|x l IH]; intros Hc.
  - simpl. by rewrite N.eqb_refl.
  - assert (Hx : (c =? x)%N = false).
    { apply N.eqb_neq. intros ->. apply Hc. by left. }
    simpl. rewrite Hx. simpl. f_equal. apply IH.
    intros H. apply Hc. by right.
Qed.

Lemma takeWhile_app p a c b :
  forallb p a = true -> p c = false -> JS.takeWhile p (a ++ c :: b) = a.
Proof.
  intros Ha Hc. induction a as [|x a IH]; simpl.
  - by rewrite Hc.
  - simpl in Ha. apply andb_true_iff in Ha as [Hx Ha]. rewrite Hx. f_equal. auto.
Qed.

Lemma dropWhile_app p a c b :
  forallb p a = true -> p c = false -> JS.dropWhile p (a ++ c :: b) = c :: b.
Proof.
  intros Ha Hc. induction a as [|x a IH]; simpl.
  - by rewrite Hc.
  - simpl in Ha. apply andb_true_iff in Ha as [Hx Ha]. rewrite Hx. auto.
Qed.

Lemma dropWhile_all p a : forallb p a = true -> JS.dropWhile p a = [].
Proof.
  induction a as [|x a IH]; simpl; [done|].
  intros [Hx Ha]%andb_true_iff. rewrite Hx. auto.
Qed.

Lemma digit_not_I c : JS.isDigit c = true -> (73 =? c)%N = false.
Proof.
  unfold JS.isDigit. intros [H1 H2]%andb_true_iff.
  apply N.leb_le in H1, H2. apply N.eqb_neq. lia.
Qed.

(** [parseFloat] of a run of digits followed by a comma stops at the
    comma. *)
Lemma parseFloat_digits_comma a b :
  JS.allDigits a = true ->
  Num.parseFloat (a ++ comma :: b) = Num.ofDecimal false (Num.digitsValue a) 0.
Proof.
  unfold JS.allDigits. intros [Hne Hds]%andb_true_iff.
  destruct a as [|c a']; [done|].
  assert (Hc : JS.isDigit c = true) by (simpl in Hds; by apply andb_true_iff in Hds as [? _]).
  destruct (NormaliserFacts.isDigit_cases c Hc) as (Hws & Hsign & _).
  unfold Num.parseFloat, JS.trimStart.
  simpl app. simpl JS.dropWhile at 1. rewrite Hws, Hsign.
  assert (HI : JS.startsWith (JS.utf16 "Infinity") (c :: a' ++ comma :: b) = false).
  { change (JS.utf16 "Infinity") with (73%N :: JS.utf16 "nfinity").
    rewrite startsWith_cons. by rewrite (digit_not_I c Hc). }
  rewrite HI.
  change (c :: a' ++ comma :: b) with ((c :: a') ++ comma :: b).
  rewrite (takeWhile_app JS.isDigit (c :: a') comma b Hds eq_refl),
    (dropWhile_app JS.isDigit (c :: a') comma b Hds eq_refl).
  simpl. by rewrite app_nil_r.
Qed.

Lemma parseFloat_digits a :
  JS.allDigits a = true ->
  Num.parseFloat a = Num.ofDecimal false (Num.digitsValue a) 0.
Proof.
  unfold JS.allDigits. intros [Hne Hds]%andb_true_iff.
  destruct a as [|c a']; [done|].
  assert (Hc : JS.isDigit c = true) by (simpl in Hds; by apply andb_true_iff in Hds as [? _]).
  destruct (NormaliserFacts.isDigit_cases c Hc) as (Hws & Hsign & _).
  unfold Num.parseFloat, JS.trimStart.
  simpl JS.dropWhile at 1. rewrite Hws, Hsign.
  assert (HI : JS.startsWith (JS.utf16 "Infinity") (c :: a') = false).
  { change (JS.utf16 "Infinity") with (73%N :: JS.utf16 "nfinity").
    rewrite startsWith_cons. by rewrite (digit_not_I c Hc). }
  rewrite HI.
  rewrite (JSFacts.takeWhile_all _ _ Hds), (dropWhile_all _ _ Hds).
  simpl. by rewrite app_nil_r.
Qed.

Lemma digits_no_unit c a :
  JS.isDigit c = false -> forallb JS.isDigit a = true -> c ∉ a.
Proof.
  intros Hc Ha Hin. rewrite forallb_forall in Ha.
  apply list_elem_of_In, Ha in Hin. congruence.
Qed.

Lemma includes_unit_false c s : JS.includes [c] s = false -> c ∉ s.
Proof.
  rewrite JSFacts.includes_single. intros He Hin.
  apply list_elem_of_In in Hin.
  assert (existsb (fun x => (c =? x)%N) s = true).
  { apply existsb_exists. exists c. split; [done|apply N.eqb_refl]. }
  congruence.
Qed.

End MarkerFacts.

(** X7: in the ten-thousand branch the commas are not removed, and
    [parseFloat] stops at the first one: a text made of a run of digits,
    a comma, anything without the marker, and the marker has the value of
    the digits before the comma times 10000 ([1,234万] is read as [1万]). *)
Theorem X7_marker_stops_at_comma (a b : jsstring) :
  JS.allDigits a = true -> JS.includes wan b = false ->
  parseNumberWithUnit (a ++ comma :: b ++ wan)
  = Num.mul (Num.ofDecimal false (Num.digitsValue a) 0) (Num.ofZ 10000)
  /\ parseNumberWithUnit (a ++ comma :: b ++ wan) = parseNumberWithUnit (a ++ wan).
Proof.
  intros Ha Hb.
  assert (Hd : forallb JS.isDigit a = true)
    by (unfold JS.allDigits in Ha; by apply andb_true_iff in Ha as [_ ?]).
  assert (Hna : 19975%N ∉ a) by (by apply MarkerFacts.digits_no_unit).
  assert (Hnb : 19975%N ∉ b) by (by apply MarkerFacts.includes_unit_false).
  assert (H1 : parseNumberWithUnit (a ++ comma :: b ++ wan)
               = Num.mul (Num.ofDecimal false (Num.digitsValue a) 0) (Num.ofZ 10000)).
  { rewrite MarkerFacts.parseNumberWithUnit_wan.
    - change wan with [19975%N].
      replace (a ++ comma :: b ++ [19975%N])
        with ((a ++ comma :: b) ++ 19975%N :: []) by (by rewrite <- app_assoc).
      rewrite MarkerFacts.replace_single.
      + rewrite app_nil_r. by rewrite MarkerFacts.parseFloat_digits_comma.
      + intros [H|H]%elem_of_app; [done|].
        apply elem_of_cons in H as [H|H]; [discriminate H|done].
    - replace (a ++ comma :: b ++ wan) with ((a ++ comma :: b) ++ wan)
        by (by rewrite <- app_assoc).
      apply MarkerFacts.includes_suffix. }
  split; [exact H1|]. rewrite H1.
  rewrite MarkerFacts.parseNumberWithUnit_wan by apply MarkerFacts.includes_suffix.
  change wan with [19975%N].
  rewrite (MarkerFacts.replace_single 19975 a []) by done.
  rewrite app_nil_r. by rewrite MarkerFacts.parseFloat_digits.
Qed.

(** X7 at [1,234万]: the value is 10000. *)
Lemma X7_marker_stops_at_comma_witness :
  parseNumberWithUnit (JS.utf16 "1,234万") = Num.ofZ 10000.
Proof.
  destruct (X7_marker_stops_at_comma (JS.utf16 "1") (JS.utf16 "234")) as [H _];
    [vm_compute; reflexivity..|].
  change (JS.utf16 "1,234万") with (JS.utf16 "1" ++ comma :: JS.utf16 "234" ++ wan).
  rewrite H. vm_compute. reflexivity.
Defined.

(** ** The counts of a summary card *)

(** X8: the count parser written out in the enumeration of weibo.ts
    (ten-thousand marker, else [parseInt(..) || 0]) returns what the
    normaliser of the detail extractor returns for the same element,
    unless the text has the hundred-million marker and no ten-thousand
    marker; the like count of a summary card of xiaohongshu.ts is, under
    the same condition, the normaliser's value as it arrives by value. *)
Theorem X8_card_counts_agree :
  (forall el t,
     textContent el = Some t ->
     JS.includes wan (JS.trim t) = true \/ JS.includes yi (JS.trim t) = false ->
     Weibo.cardCount (Some el) = Weibo.countOf (Some el))
  /\ (forall card el t,
     querySelector card ".like-wrapper .count" = Some el ->
     textContent el = Some t ->
     let text := JS.or_str (JS.trim t) (JS.utf16 "0") in
     JS.includes wan text = true \/ JS.includes yi text = false ->
     Xiaohongshu.likes (Xiaohongshu.cardOf card)
     = byValue (parseNumberWithUnit text)).
Proof.
  split.
  - intros el t Ht Hm. unfold Weibo.cardCount, Weibo.countOf. rewrite Ht.
    destruct (JS.truthy_str t); [|done].
    destruct (JS.includes wan (JS.trim t)) eqn:Hw.
    + by rewrite MarkerFacts.parseNumberWithUnit_wan.
    + destruct Hm as [Hm|Hy]; [done|].
      by rewrite NormaliserFacts.parseNumberWithUnit_plain.
  - intros card el t Hel Ht text Hm.
    unfold Xiaohongshu.cardOf. simpl. rewrite Hel, Ht. fold text.
    assert (Hne : JS.truthy_str text = true).
    { unfold text, JS.or_str. by destruct (JS.trim t). }
    rewrite Hne.
    destruct (JS.includes wan text) eqn:Hw.
    + by rewrite MarkerFacts.parseNumberWithUnit_wan.
    + destruct Hm as [Hm|Hy]; [done|].
      destruct (JS.str_eqb text zan) eqn:Hz; simpl.
      * apply CookieFacts.str_eqb_eq in Hz. rewrite Hz. reflexivity.
      * by rewrite NormaliserFacts.parseNumberWithUnit_plain.
Qed.

(** X8 at a weibo.ts card count of [3.2万]. *)
Lemma X8_card_counts_agree_witness :
  Weibo.cardCount (Some (Samples.textElement "3.2万")) = Num.ofZ 32000.
Proof.
  destruct X8_card_counts_agree as [H _].
  rewrite (H (Samples.textElement "3.2万") (JS.utf16 "3.2万") eq_refl);
    [|left; vm_compute; reflexivity].
  vm_compute. reflexivity.
Defined.

(** ** What the detail extractors keep *)

Module ExtractFacts.

Lemma guardedText_comment_xhs item c :
  Xiaohongshu.commentOf item = Some c -> comment_content c <> [].
Proof.
  unfold Xiaohongshu.commentOf.
  destruct (JS.truthy_str (guardedText (querySelector item ".content"))) eqn:Hc;
    [|done].
  intros [= <-]. simpl. intros H. by rewrite H in Hc.
Qed.

Lemma guardedText_comment_weibo item c :
  Weibo.commentOf item = Some c -> comment_content c <> [].
Proof.
  unfold Weibo.commentOf.
  destruct (JS.truthy_str (guardedText _)) eqn:Hc; [|done].
  intros [= <-]. simpl. intros H. by rewrite H in Hc.
Qed.

Lemma tagOf_clean el tag :
  Xiaohongshu.tagOf el = Some tag ->
  tag <> [] /\ forallb (fun c => negb (JS.isWhiteSpace c)) tag = true.
Proof.
  unfold Xiaohongshu.tagOf. destruct (textContent el) as [t|]; [|done].
  destruct (_ && _); [|done].
  destruct (JS.truthy_str (Xiaohongshu.normalizeTag t)) eqn:Hn; [|done].
  intros [= <-]. split; [intros H; by rewrite H in Hn|].
  apply TagFacts.removeAll_clean.
Qed.

Lemma topicOf_clean el topic :
  Weibo.topicOf el = Some topic ->
  topic <> [] /\ forallb (fun c => negb (JS.isWhiteSpace c)) topic = true.
Proof.
  unfold Weibo.topicOf. destruct (textContent el) as [t|]; [|done].
  destruct (JS.truthy_str t); [|done].
  destruct (JS.truthy_str (Weibo.normalizeTag t)) eqn:Hn; [|done].
  intros [= <-]. split; [intros H; by rewrite H in Hn|].
  apply TagFacts.removeAll_clean.
Qed.

(** What a match of [/<prefix>([^<stop>]+)/] captures. *)
Lemma matchAfter_Some prefix stop s g :
  matchAfter prefix stop s = Some g ->
  g <> [] /\ forallb (fun c => negb (stop c)) g = true
  /\ JS.includes prefix s = true.
Proof.
  induction s as [|c r IH]; simpl.
  - destruct (JS.startsWith prefix []) eqn:Hp; [|done].
    destruct (JS.takeWhile _ _) as [|x g'] eqn:Ht; [done|].
    intros [= <-]. split; [done|]. split; [|done].
    rewrite <- Ht. apply JSFacts.takeWhile_forallb.
  - destruct (JS.startsWith prefix (c :: r)) eqn:Hp.
    + destruct (JS.takeWhile _ _) as [|x g'] eqn:Ht.
      * intros Hm. destruct (IH Hm) as (? & ? & Hi).
        split; [done|]. split; [done|done].
      * intros [= <-]. split; [done|]. split; [|done].
        rewrite <- Ht. apply JSFacts.takeWhile_forallb.
    + intros Hm. destruct (IH Hm) as (? & ? & Hi).
      split; [done|]. split; [done|]. rewrite Hi. apply orb_true_r.
Qed.

End ExtractFacts.

(** X9: a comment whose extracted content is empty is dropped: every
    comment of the list returned by either detail extractor has a
    non-empty content. *)
Theorem X9_comments_have_content :
  (forall document c,
     c ∈ Xiaohongshu.d_commentList (Xiaohongshu.extractNoteDetail document) ->
     comment_content c <> [])
  /\ (forall document c,
     c ∈ Weibo.d_commentList (Weibo.extractWeiboDetail document) ->
     comment_content c <> []).
Proof.
  split; intros document c; simpl;
    intros (item & _ & Hc)%list_elem_of_omap.
  - by eapply ExtractFacts.guardedText_comment_xhs.
  - by eapply ExtractFacts.guardedText_comment_weibo.
Qed.

(** X9 at a page with one comment and one blank comment: one comment is
    returned, and it has a content. *)
Lemma X9_comments_have_content_witness :
  length (Xiaohongshu.d_commentList
            (Xiaohongshu.extractNoteDetail Samples.richNotePage)) = 1%nat
  /\ Forall (fun c => comment_content c <> [])
       (Xiaohongshu.d_commentList
          (Xiaohongshu.extractNoteDetail Samples.richNotePage)).
Proof.
  split; [vm_compute; reflexivity|].
  apply Forall_forall. intros c Hc.
  exact (proj1 X9_comments_have_content Samples.richNotePage c Hc).
Defined.

(** X10: every tag returned by the detail extractor of xiaohongshu.ts
    and every topic returned by that of weibo.ts is non-empty and
    contains no white space. *)
Theorem X10_tags_clean :
  (forall document tag,
     tag ∈ Xiaohongshu.d_tags (Xiaohongshu.extractNoteDetail document) ->
     tag <> [] /\ forallb (fun c => negb (JS.isWhiteSpace c)) tag = true)
  /\ (forall document topic,
     topic ∈ Weibo.d_topics (Weibo.extractWeiboDetail document) ->
     topic <> [] /\ forallb (fun c => negb (JS.isWhiteSpace c)) topic = true).
Proof.
  split; intros document tag; simpl;
    intros (el & _ & Ht)%list_elem_of_omap.
  - by eapply ExtractFacts.tagOf_clean.
  - by eapply ExtractFacts.topicOf_clean.
Qed.

(** X10 at a page with the tag texts [#AI 学习], [#] and [作者]: one tag,
    [AI学习]. *)
Lemma X10_tags_clean_witness :
  Xiaohongshu.d_tags (Xiaohongshu.extractNoteDetail Samples.richNotePage)
  = [JS.utf16 "AI学习"]
  /\ Forall (fun tag => tag <> []
                        /\ forallb (fun c => negb (JS.isWhiteSpace c)) tag = true)
       (Xiaohongshu.d_tags (Xiaohongshu.extractNoteDetail Samples.richNotePage)).
Proof.
  split; [vm_compute; reflexivity|].
  apply Forall_forall. intros tag Ht.
  exact (proj1 X10_tags_clean Samples.richNotePage tag Ht).
Defined.

(** ** The image urls of weibo.ts *)

Module ImageFacts.

Lemma startsWith_eq p s :
  JS.startsWith p s = true -> s = p ++ drop (length p) s.
Proof.
  revert s. induction p as [|x p IH]; intros s; [done|].
  destruct s as [|y s]; [done|]. simpl.
  intros [Hxy Hp]%andb_true_iff. apply N.eqb_eq in Hxy. subst y.
  f_equal. by apply IH.
Qed.

Lemma take_drop_while p s : JS.takeWhile p s ++ JS.dropWhile p s = s.
Proof.
  induction s as [|c r IH]; [done|]. simpl.
  destruct (p c); [|done]. simpl. by rewrite IH.
Qed.

Lemma replaceSized_cons word c r :
  Weibo.replaceSized word (c :: r)
  = match (if JS.startsWith (47%N :: word) (c :: r)
           then match JS.takeWhile JS.isDigit (drop (S (length word)) (c :: r)),
                      JS.dropWhile JS.isDigit (drop (S (length word)) (c :: r)) with
                | _ :: _, 47%N :: rest' => Some rest'
                | _, _ => None
                end
           else None) with
    | Some rest' => Weibo.large ++ rest'
    | None => c :: Weibo.replaceSized word r
    end.
Proof. reflexivity. Qed.

(** The rewrite leaves the url as it is, or replaces one segment between
    two slashes by [large]. *)
Lemma replaceSized_shape word s :
  Weibo.replaceSized word s = s
  \/ exists pre mid rest,
       s = pre ++ 47%N :: mid ++ 47%N :: rest
       /\ Weibo.replaceSized word s
          = pre ++ 47%N :: JS.utf16 "large" ++ 47%N :: rest.
Proof.
  induction s as [|c r IH]; [by left|].
  assert (Hskip : c :: Weibo.replaceSized word r = c :: r
            \/ exists pre mid rest,
                 c :: r = pre ++ 47%N :: mid ++ 47%N :: rest
                 /\ c :: Weibo.replaceSized word r
                    = pre ++ 47%N :: JS.utf16 "large" ++ 47%N :: rest).
  { destruct IH as [->|(pre & mid & rest & -> & ->)]; [by left|].
    right. by exists (c :: pre), mid, rest. }
  rewrite replaceSized_cons.
  destruct (JS.startsWith (47%N :: word) (c :: r)) eqn:Hs; [|exact Hskip].
  destruct (JS.takeWhile JS.isDigit (drop (S (length word)) (c :: r)))
    as [|d ds] eqn:Ht; [exact Hskip|].
  destruct (JS.dropWhile JS.isDigit (drop (S (length word)) (c :: r)))
    as [|x rest'] eqn:Hd; [exact Hskip|].
  destruct (decide (x = 47%N)) as [->|Hx].
  - right. exists [], (word ++ d :: ds), rest'. split; [|reflexivity].
    pose proof (startsWith_eq _ _ Hs) as E.
    pose proof (take_drop_while JS.isDigit (drop (S (length word)) (c :: r))) as E2.
    rewrite Ht, Hd in E2.
    change (length (47%N :: word)) with (S (length word)) in E.
    rewrite <- E2 in E. rewrite E at 1.
    simpl. by rewrite <- app_assoc.
  - assert (Hm : match x :: rest' with
                 | 47%N :: rest'0 => Some rest'0
                 | _ => None
                 end = (None : option jsstring)).
    { destruct x as [|q]; [done|].
      do 6 (try (destruct q as [q|q|]; try done)). }
    rewrite Hm. exact Hskip.
Qed.

(** A word without slash matches across no slash. *)
Lemma startsWith_sep w l b :
  47%N ∉ w -> JS.startsWith w (l ++ 47%N :: b) = JS.startsWith w l.
Proof.
  revert l. induction w as [|y w IH]; intros l Hw; [done|].
  assert (Hy : (y =? 47)%N = false).
  { apply N.eqb_neq. intros ->. apply Hw. by left. }
  destruct l as [|x l]; simpl.
  - by rewrite Hy.
  - f_equal. apply IH. intros H. apply Hw. by right.
Qed.

Lemma includes_sep w a b :
  47%N ∉ w -> w <> [] ->
  JS.includes w (a ++ 47%N :: b) = JS.includes w a || JS.includes w b.
Proof.
  intros Hw Hne. induction a as [|x a IH].
  - destruct w as [|y w]; [done|].
    assert (Hy : (y =? 47)%N = false).
    { apply N.eqb_neq. intros ->. apply Hw. by left. }
    simpl. by rewrite Hy.
  - change ((x :: a) ++ 47%N :: b) with (x :: (a ++ 47%N :: b)).
    change (JS.includes w (x :: a ++ 47%N :: b))
      with (JS.startsWith w (x :: a ++ 47%N :: b) || JS.includes w (a ++ 47%N :: b)).
    change (JS.includes w (x :: a))
      with (JS.startsWith w (x :: a) || JS.includes w a).
    rewrite IH.
    change (x :: a ++ 47%N :: b) with ((x :: a) ++ 47%N :: b).
    rewrite (startsWith_sep w (x :: a) b Hw). by rewrite orb_assoc.
Qed.

(** The rewrite brings no word into the url that was not there, as long
    as the word has no slash and does not occur in [large]. *)
Lemma replaceSized_includes w word s :
  47%N ∉ w -> w <> [] -> JS.includes w (JS.utf16 "large") = false ->
  JS.includes w s = false ->
  JS.includes w (Weibo.replaceSized word s) = false.
Proof.
  intros Hw Hne Hl Hs.
  destruct (replaceSized_shape word s) as [->|(pre & mid & rest & -> & ->)];
    [done|].
  rewrite includes_sep, includes_sep in Hs by done.
  rewrite includes_sep, includes_sep by done.
  apply orb_false_iff in Hs as [Hpre Hs]. apply orb_false_iff in Hs as [_ Hrest].
  by rewrite Hpre, Hl, Hrest.
Qed.

Lemma weibo_detail_images page img :
  img ∈ Weibo.d_images (Weibo.extractWeiboDetail page) ->
  JS.includes avatar_word img = false /\ JS.includes emoji_word img = false.
Proof.
  simpl. intros (el & _ & Hel)%list_elem_of_omap.
  unfold Weibo.imageOf in Hel.
  destruct (keepImage (getAttribute el "src")) eqn:Hk; [|done].
  destruct (getAttribute el "src") as [src|]; [|done].
  injection Hel as <-.
  destruct (UrlFacts.keepImage_clean src Hk) as [Ha He].
  assert (47%N ∉ avatar_word /\ 47%N ∉ emoji_word) as [Hwa Hwe].
  { split; vm_compute; intros Hin;
      repeat (apply elem_of_cons in Hin as [Hin|Hin]; [discriminate Hin|]);
      by apply elem_of_nil in Hin. }
  assert (Hla : JS.includes avatar_word (JS.utf16 "large") = false)
    by (vm_compute; reflexivity).
  assert (Hle : JS.includes emoji_word (JS.utf16 "large") = false)
    by (vm_compute; reflexivity).
  split.
  - apply replaceSized_includes; [done|done|done|].
    by apply replaceSized_includes.
  - apply replaceSized_includes; [done|done|done|].
    by apply replaceSized_includes.
Qed.

End ImageFacts.

(** X12: for every record of a result returned by [fetchLatestWeibo], the
    url is empty or starts with [http], and no image url contains
    [avatar] or [emoji], also after the rewrite of the thumbnail segment
    to [/large/]. *)
Theorem X12_weibo_record_url_images
    (w : World) (limit : Z) (r : FetchResult Weibo.WeiboPost)
    (posts : list Weibo.WeiboPost) (post : Weibo.WeiboPost) :
  Weibo.fetchLatestWeibo w limit = Returns r ->
  records r = Some posts -> post ∈ posts ->
  (Weibo.url post = [] \/ JS.startsWith http (Weibo.url post) = true)
  /\ forall img, img ∈ Weibo.images post ->
       JS.includes avatar_word img = false /\ JS.includes emoji_word img = false.
Proof.
  intros Hw Hr Hn.
  destruct (walk_record_origin _ _ _ _ w limit r posts post Hw Hr Hn)
    as (listing & card & Hcard & Hshape).
  unfold Weibo.enumerate in Hcard.
  apply list_elem_of_In, in_map_iff in Hcard as (el & <- & _).
  destruct Hshape as [->|(page & ->)].
  - split; [apply UrlFacts.weibo_card_url|].
    intros img Himg. simpl in Himg. by apply elem_of_nil in Himg.
  - split; [apply UrlFacts.weibo_card_url|].
    intros img Himg. exact (ImageFacts.weibo_detail_images page img Himg).
Qed.

(** X12 at a run over one card whose detail page shows a thumbnail and an
    avatar: the record has the absolute url and the one rewritten
    image. *)
Lemma X12_weibo_record_url_images_witness :
  exists post,
    Weibo.fetchLatestWeibo Samples.weiboRun 10
      = Returns (mkFetchResult true (Some [post]) None)
    /\ Weibo.url post = JS.utf16 "https://weibo.com/1234567/Nabc"
    /\ Weibo.images post = [JS.utf16 "https://wx1.sinaimg.cn/large/a.jpg"]
    /\ forall img, img ∈ Weibo.images post ->
         JS.includes avatar_word img = false /\ JS.includes emoji_word img = false.
Proof.
  eexists. split; [vm_compute; reflexivity|].
  split; [vm_compute; reflexivity|]. split; [vm_compute; reflexivity|].
  match goal with
  | |- forall img, img ∈ Weibo.images ?p -> _ =>
    refine (proj2 (X12_weibo_record_url_images Samples.weiboRun 10
                     (mkFetchResult true (Some [p]) None) [p] p _ eq_refl _))
  end.
  - vm_compute. reflexivity.
  - by left.
Defined.

(** ** More on the feed walk *)

Section WalkMoreFacts.
Context {Card Detail : Type}.
Variable card_url : Card -> jsstring.
Variable cardOf : Element -> Card.
Variable selector : string.
Variable extract : Document -> Detail.
Variable merge : Card -> Detail -> Card.

Local Abbreviation sliced_ :=
  (fun (document : Document) (limitParam : Z) =>
     List.map cardOf (slice0 limitParam (doc_querySelectorAll document selector))).

(** X13: a run throws to its caller exactly when the browser cannot be
    launched or cannot be closed, with that error; no error of a step
    inside the [try] block is ever thrown. *)
Theorem X13_walk_throws (enumerate : Document -> Z -> list Card)
    (w : World) (limit : Z) (e : jsstring) :
  walk card_url enumerate extract merge w limit = Throws e
  <-> w_launch w = Fails e \/ (w_launch w = Done /\ w_close w = Fails e).
Proof.
  pose proof (walk_cases card_url enumerate extract merge w limit) as Hw.
  destruct (w_launch w) as [|e1].
  - destruct (w_close w) as [|e2].
    + destruct (preludeError w).
      * rewrite Hw. split; [done|]. by intros [?|[_ ?]].
      * destruct Hw as (listing & _ & ->). split; [done|]. by intros [?|[_ ?]].
    + rewrite Hw. split.
      * intros [= ->]. by right.
      * by intros [?|[_ [= ->]]].
  - rewrite Hw. split.
    + intros [= ->]. by left.
    + by intros [[= ->]|[? _]].
Qed.

(** The records of a prefix of the cards are a prefix of the records. *)
Lemma runRecords_prefix w (cards : list Card) n :
  runRecords card_url extract merge w (take n cards)
  `prefix_of` runRecords card_url extract merge w cards.
Proof.
  unfold runRecords.
  rewrite <- (take_drop n cards) at 2.
  rewrite imap_app, concat_app. by eexists.
Qed.

(** In the same world, the records returned for a limit [0 <= L] are a
    prefix of those returned for any larger limit. *)
Lemma walk_limit_prefix (w : World) (limit limit' : Z) :
  0 <= limit -> limit <= limit' ->
  w_launch w = Done -> w_close w = Done -> preludeError w = None ->
  exists notes notes',
    walk card_url sliced_ extract merge w limit
      = Returns (mkFetchResult true (Some notes) None)
    /\ walk card_url sliced_ extract merge w limit'
      = Returns (mkFetchResult true (Some notes') None)
    /\ notes `prefix_of` notes'.
Proof.
  intros Hl Hle Hlaunch Hclose Hp.
  pose proof (walk_cases card_url sliced_ extract merge w limit) as H1.
  pose proof (walk_cases card_url sliced_ extract merge w limit') as H2.
  rewrite Hlaunch, Hclose, Hp in H1, H2.
  destruct H1 as (listing & He & H1). destruct H2 as (listing' & He' & H2).
  rewrite He in He'. injection He' as <-.
  eexists _, _. split; [exact H1|]. split; [exact H2|].
  cbv beta. rewrite !PlatformFacts.slice0_take by lia.
  set (items := doc_querySelectorAll listing selector).
  assert (Ht : take (Z.to_nat limit) items
               = take (Z.to_nat limit) (take (Z.to_nat limit') items)).
  { rewrite take_take. f_equal. lia. }
  rewrite Ht, <- firstn_map. apply runRecords_prefix.
Qed.

End WalkMoreFacts.

(** X13 at a run in which the browser cannot be launched. *)
Lemma X13_walk_throws_witness :
  Xiaohongshu.fetchLatestNotes Samples.runNoLaunch 10
  = Throws (JS.utf16 "Failed to launch the browser process").
Proof.
  apply X13_walk_throws. left. vm_compute. reflexivity.
Defined.

(** X14: raising the limit only appends records: in the same world, the
    records that [fetchLatestNotes] and [fetchLatestWeibo] return for a
    limit [0 <= L] are a prefix of those they return for any larger
    limit. *)
Theorem X14_limit_prefix (w : World) (limit limit' : Z) :
  0 <= limit -> limit <= limit' ->
  w_launch w = Done -> w_close w = Done -> preludeError w = None ->
  (exists notes notes',
     Xiaohongshu.fetchLatestNotes w limit
       = Returns (mkFetchResult true (Some notes) None)
     /\ Xiaohongshu.fetchLatestNotes w limit'
       = Returns (mkFetchResult true (Some notes') None)
     /\ notes `prefix_of` notes')
  /\ (exists posts posts',
     Weibo.fetchLatestWeibo w limit
       = Returns (mkFetchResult true (Some posts) None)
     /\ Weibo.fetchLatestWeibo w limit'
       = Returns (mkFetchResult true (Some posts') None)
     /\ posts `prefix_of` posts').
Proof.
  intros Hl Hle Hlaunch Hclose Hp. split.
  - apply (walk_limit_prefix Xiaohongshu.url Xiaohongshu.cardOf "section.note-item"
             Xiaohongshu.extractNoteDetail Xiaohongshu.mergeNote w limit limit');
      done.
  - apply (walk_limit_prefix Weibo.url Weibo.cardOf ".Feed_item_2xmo1"
             Weibo.extractWeiboDetail Weibo.mergePost w limit limit'); done.
Qed.

(** X14 at the limits 2 and 4 over the listing of five cards. *)
Lemma X14_limit_prefix_witness :
  exists notes notes',
    Xiaohongshu.fetchLatestNotes Samples.runOk 2
      = Returns (mkFetchResult true (Some notes) None)
    /\ Xiaohongshu.fetchLatestNotes Samples.runOk 4
      = Returns (mkFetchResult true (Some notes') None)
    /\ notes `prefix_of` notes'.
Proof.
  apply (X14_limit_prefix Samples.runOk 2 4); try lia; reflexivity.
Defined.



Section RecordSource.
Context {Card Detail : Type}.
Variable card_url : Card -> jsstring.
Variable cardOf : Element -> Card.
Variable selector : string.
Variable extract : Document -> Detail.
Variable merge : Card -> Detail -> Card.

(** Every record of a returned result comes from an element that the
    card selector matches in the listing the run has enumerated. *)
Lemma walk_record_source w limit r notes x :
  walk card_url
    (fun document limitParam =>
       List.map cardOf (slice0 limitParam (doc_querySelectorAll document selector)))
    extract merge w limit = Returns r ->
  records r = Some notes -> x ∈ notes ->
  exists listing el,
    w_evaluate w = Returns listing
    /\ el ∈ doc_querySelectorAll listing selector
    /\ (x = cardOf el \/ exists page, x = merge (cardOf el) (extract page)).
Proof.
  intros Hw Hr Hx.
  match type of Hw with
  | walk _ ?en _ _ _ _ = _ =>
    pose proof (walk_cases card_url en extract merge w limit) as Hc
  end.
  destruct (w_launch w); [|congruence].
  destruct (w_close w); [|congruence].
  destruct (preludeError w).
  { rewrite Hc in Hw. injection Hw as <-. discriminate Hr. }
  destruct Hc as (listing & He & Hc). rewrite Hc in Hw.
  injection Hw as <-. simpl in Hr. injection Hr as <-.
  unfold runRecords in Hx.
  apply list_elem_of_In, in_concat in Hx as (group & Hg & Hx).
  apply list_elem_of_In, elem_of_lookup_imap in Hg as (i & card & -> & Hi).
  apply list_elem_of_lookup_2, list_elem_of_In, in_map_iff in Hi as (el & <- & Hel).
  exists listing, el. split; [done|]. split.
  { unfold slice0 in Hel. apply list_elem_of_In in Hel.
    by eapply subseteq_take. }
  destruct (appended_shape card_url extract merge (w_detail w i) (cardOf el))
    as (r0 & rest & Hap & Hr0 & Hrest).
  rewrite Hap in Hx. destruct Hx as [<-|Hx].
  - destruct Hr0 as [->|(page & _ & ->)]; eauto.
  - destruct Hrest as [-> | ->]; [done|].
    destruct Hx as [<-|Hf]; [by left|destruct Hf].
Qed.
End RecordSource.

(** X16: enrichment never changes what identifies a record: every record
    that [fetchLatestNotes] returns has the id, url, summary and cover
    image of a summary card of the enumerated listing and an empty
    publish time; every record that [fetchLatestWeibo] returns has the
    id, url, cover image and publish time of such a card. *)
Theorem X16_enrichment_keeps_identity (w : World) (limit : Z) :
  (forall r notes note,
     Xiaohongshu.fetchLatestNotes w limit = Returns r ->
     records r = Some notes -> note ∈ notes ->
     exists listing el,
       w_evaluate w = Returns listing
       /\ el ∈ doc_querySelectorAll listing "section.note-item"
       /\ Xiaohongshu.id note = Xiaohongshu.id (Xiaohongshu.cardOf el)
       /\ Xiaohongshu.url note = Xiaohongshu.url (Xiaohongshu.cardOf el)
       /\ Xiaohongshu.summary note = Xiaohongshu.summary (Xiaohongshu.cardOf el)
       /\ Xiaohongshu.coverImage note = Xiaohongshu.coverImage (Xiaohongshu.cardOf el)
       /\ Xiaohongshu.publishTime note = [])
  /\ (forall r posts post,
     Weibo.fetchLatestWeibo w limit = Returns r ->
     records r = Some posts -> post ∈ posts ->
     exists listing el,
       w_evaluate w = Returns listing
       /\ el ∈ doc_querySelectorAll listing ".Feed_item_2xmo1"
       /\ Weibo.id post = Weibo.id (Weibo.cardOf el)
       /\ Weibo.url post = Weibo.url (Weibo.cardOf el)
       /\ Weibo.coverImage post = Weibo.coverImage (Weibo.cardOf el)
       /\ Weibo.publishTime post = Weibo.publishTime (Weibo.cardOf el)).
Proof.
  split.
  - intros r notes note Hw Hr Hn.
    destruct (walk_record_source Xiaohongshu.url Xiaohongshu.cardOf
                "section.note-item" Xiaohongshu.extractNoteDetail
                Xiaohongshu.mergeNote w limit r notes note Hw Hr Hn)
      as (listing & el & He & Hel & Hshape).
    exists listing, el. split; [done|]. split; [done|].
    destruct Hshape as [->|(page & ->)]; repeat split.
  - intros r posts post Hw Hr Hn.
    destruct (walk_record_source Weibo.url Weibo.cardOf
                ".Feed_item_2xmo1" Weibo.extractWeiboDetail
                Weibo.mergePost w limit r posts post Hw Hr Hn)
      as (listing & el & He & Hel & Hshape).
    exists listing, el. split; [done|]. split; [done|].
    destruct Hshape as [->|(page & ->)]; repeat split.
Qed.

(** X16 at the run over one weibo.ts card: the record keeps the card's
    url. *)
Lemma X16_enrichment_keeps_identity_witness :
  exists post el,
    Weibo.fetchLatestWeibo Samples.weiboRun 10
      = Returns (mkFetchResult true (Some [post]) None)
    /\ el ∈ doc_querySelectorAll Samples.weiboListing ".Feed_item_2xmo1"
    /\ Weibo.url post = Weibo.url (Weibo.cardOf el).
Proof.
  eexists. 
  match goal with
  | |- exists el, Weibo.fetchLatestWeibo ?w ?l = Returns (mkFetchResult true (Some [?p]) None) /\ _ =>
    assert (Hrun : Weibo.fetchLatestWeibo w l = Returns (mkFetchResult true (Some [p]) None))
      by (vm_compute; reflexivity);
    destruct (proj2 (X16_enrichment_keeps_identity w l) _ [p] p Hrun eq_refl
                ltac:(by left))
      as (listing & el & He & Hel & _ & Hurl & _)
  end.
  injection He as <-.
  exists el. split; [exact Hrun|]. split; [exact Hel|exact Hurl].
Defined.

(** ** The author id *)

Module AuthorFacts.

Lemma takeWhile_nil p s :
  JS.takeWhile p s = [] ->
  match s with [] => True | c :: _ => p c = false end.
Proof. destruct s as [|c r]; [done|]. simpl. by destruct (p c). Qed.

Lemma dropWhile_stop p s :
  match JS.dropWhile p s with [] => True | c :: _ => p c = false end.
Proof.
  induction s as [|c r IH]; [done|]. simpl.
  destruct (p c) eqn:Hc; [done|]. done.
Qed.

(** What [s.match(/<prefix>([^<stop>]+)/)] captures: the text is
    [before ++ prefix ++ g ++ after], where [g] is a non-empty run of
    code units outside [stop], [after] is empty or starts with a code
    unit of [stop], and every occurrence of the prefix that starts
    inside [before] is followed by the end of the text or by a code
    unit of [stop]. *)
Lemma matchAfter_piece prefix stop s g :
  matchAfter prefix stop s = Some g ->
  exists before after,
    s = before ++ prefix ++ g ++ after
    /\ g <> []
    /\ forallb (fun c => negb (stop c)) g = true
    /\ match after with [] => True | c :: _ => stop c = true end
    /\ forall k, (k < length before)%nat ->
         JS.startsWith prefix (drop k s) = true ->
         match drop (k + length prefix) s with
         | [] => True
         | c :: _ => stop c = true
         end.
Proof.
  induction s as [|c r IH].
  - simpl. destruct (JS.startsWith prefix []); [|done].
    by rewrite drop_nil.
  - simpl matchAfter.
    destruct (JS.startsWith prefix (c :: r)) eqn:Hp.
    + destruct (JS.takeWhile (fun c0 => negb (stop c0))
                  (drop (length prefix) (c :: r))) as [|x g'] eqn:Ht.
      * intros Hm. destruct (IH Hm) as (before & after & Hs & Hne & Hall & Ha & Hleft).
        exists (c :: before), after. split; [by rewrite Hs|].
        split; [done|]. split; [done|]. split; [done|].
        intros [|k] Hk Hstart.
        -- simpl. apply takeWhile_nil in Ht.
           destruct (drop (length prefix) (c :: r)) as [|y rest]; [done|].
           by apply negb_false_iff.
        -- simpl in *. apply Hleft; [lia|done].
      * intros [= <-].
        exists [], (JS.dropWhile (fun c0 => negb (stop c0))
                      (drop (length prefix) (c :: r))).
        split.
        { rewrite <- Ht, app_nil_l, ImageFacts.take_drop_while.
          by apply ImageFacts.startsWith_eq. }
        split; [done|]. split.
        { rewrite <- Ht. apply JSFacts.takeWhile_forallb. }
        split.
        { pose proof (dropWhile_stop (fun c0 => negb (stop c0))
                        (drop (length prefix) (c :: r))) as Hd.
          destruct (JS.dropWhile _ _); [done|]. by apply negb_false_iff. }
        intros k Hk. simpl in Hk. lia.
    + intros Hm. destruct (IH Hm) as (before & after & Hs & Hne & Hall & Ha & Hleft).
      exists (c :: before), after. split; [by rewrite Hs|].
      split; [done|]. split; [done|]. split; [done|].
      intros [|k] Hk Hstart.
      * simpl in Hstart. congruence.
      * simpl in *. apply Hleft; [lia|done].
Qed.

(** Without a match, every occurrence of the prefix is followed by the
    end of the text or by a code unit of [stop]. *)
Lemma matchAfter_none prefix stop s :
  matchAfter prefix stop s = None ->
  forall k, JS.startsWith prefix (drop k s) = true ->
    match drop (k + length prefix) s with
    | [] => True
    | c :: _ => stop c = true
    end.
Proof.
  induction s as [|c r IH].
  - intros _ k _. by rewrite drop_nil.
  - simpl matchAfter.
    destruct (JS.startsWith prefix (c :: r)) eqn:Hp.
    + destruct (JS.takeWhile (fun c0 => negb (stop c0))
                  (drop (length prefix) (c :: r))) as [|x g'] eqn:Ht; [|done].
      intros Hm [|k] Hstart.
      * simpl. apply takeWhile_nil in Ht.
        destruct (drop (length prefix) (c :: r)) as [|y rest]; [done|].
        by apply negb_false_iff.
      * simpl in *. by apply IH.
    + intros Hm [|k] Hstart.
      * simpl in Hstart. congruence.
      * simpl in *. by apply IH.
Qed.

End AuthorFacts.

(** X11: the author id of a detail extraction is the piece of the
    profile url that the pattern captures.  When the id is not empty the
    url is [before ++ marker ++ id ++ after], with the marker [profile/]
    in xiaohongshu.ts and [/u/] in weibo.ts; the id contains no [?]
    (nor [/] in weibo.ts); [after] is empty or starts with [?] (or [/]);
    and no earlier occurrence of the marker is followed by a code unit
    that could start an id.  When the id is empty no occurrence of the
    marker in the url is followed by such a code unit.  In weibo.ts the
    author url is empty or starts with [http]. *)
Theorem X11_author_id :
  (forall document,
     let a := Xiaohongshu.d_author (Xiaohongshu.extractNoteDetail document) in
     let marker := JS.utf16 "profile/" in
     let stop := fun c => (c =? 63)%N in
     63%N ∉ author_id a
     /\ (author_id a <> [] ->
         exists before after,
           author_url a = before ++ marker ++ author_id a ++ after
           /\ match after with [] => True | c :: _ => stop c = true end
           /\ forall k, (k < length before)%nat ->
                JS.startsWith marker (drop k (author_url a)) = true ->
                match drop (k + length marker) (author_url a) with
                | [] => True
                | c :: _ => stop c = true
                end)
     /\ (author_id a = [] ->
         forall k, JS.startsWith marker (drop k (author_url a)) = true ->
           match drop (k + length marker) (author_url a) with
           | [] => True
           | c :: _ => stop c = true
           end))
  /\ (forall document,
     let a := Weibo.d_author (Weibo.extractWeiboDetail document) in
     let marker := JS.utf16 "/u/" in
     let stop := fun c => ((c =? 63) || (c =? 47))%N in
     63%N ∉ author_id a /\ 47%N ∉ author_id a
     /\ (author_id a <> [] ->
         exists before after,
           author_url a = before ++ marker ++ author_id a ++ after
           /\ match after with [] => True | c :: _ => stop c = true end
           /\ forall k, (k < length before)%nat ->
                JS.startsWith marker (drop k (author_url a)) = true ->
                match drop (k + length marker) (author_url a) with
                | [] => True
                | c :: _ => stop c = true
                end)
     /\ (author_id a = [] ->
         forall k, JS.startsWith marker (drop k (author_url a)) = true ->
           match drop (k + length marker) (author_url a) with
           | [] => True
           | c :: _ => stop c = true
           end)
     /\ (author_url a = [] \/ JS.startsWith http (author_url a) = true)).
Proof.
  split; intros document a marker stop; subst a; simpl.
  - unfold Xiaohongshu.authorOf.
    destruct (or_el (doc_querySelector document ".author-wrapper .name") _)
      as [el|]; simpl;
      [|split; [apply not_elem_of_nil|split; [done|intros _ k _; by rewrite drop_nil]]].
    destruct (closest el "a") as [link|]; simpl;
      [|split; [apply not_elem_of_nil|split; [done|intros _ k _; by rewrite drop_nil]]].
    destruct (matchAfter _ _ (attrOrEmpty link "href")) as [g|] eqn:Hm; simpl.
    + destruct (AuthorFacts.matchAfter_piece _ _ _ _ Hm)
        as (before & after & Hs & Hne & Hall & Ha & Hleft).
      split; [|split; [|done]].
      * intros Hin. rewrite forallb_forall in Hall.
        apply list_elem_of_In, Hall in Hin. discriminate Hin.
      * intros _. by exists before, after.
    + split; [apply not_elem_of_nil|]. split; [done|].
      intros _. exact (AuthorFacts.matchAfter_none _ _ _ Hm).
  - unfold Weibo.authorOf.
    destruct (or_el (doc_querySelector document ".Profile_name_3gQf8") _)
      as [el|]; simpl.
    2:{ split; [apply not_elem_of_nil|]. split; [apply not_elem_of_nil|].
        split; [done|]. split; [intros _ k _; by rewrite drop_nil|by left]. }
    assert (Hu : JS.startsWith http (absolute Weibo.origin (attrOrEmpty el "href")) = true).
    { apply UrlFacts.absolute_http. vm_compute. reflexivity. }
    destruct (matchAfter _ _ _) as [g|] eqn:Hm; simpl.
    + destruct (AuthorFacts.matchAfter_piece _ _ _ _ Hm)
        as (before & after & Hs & Hne & Hall & Ha & Hleft).
      rewrite forallb_forall in Hall.
      split; [|split; [|split; [|split; [done|by right]]]].
      * intros Hin. apply list_elem_of_In, Hall in Hin. discriminate Hin.
      * intros Hin. apply list_elem_of_In, Hall in Hin. discriminate Hin.
      * intros _. by exists before, after.
    + split; [apply not_elem_of_nil|]. split; [apply not_elem_of_nil|].
      split; [done|]. split; [|by right].
      intros _. exact (AuthorFacts.matchAfter_none _ _ _ Hm).
Qed.

(** X11 at a page whose author link is [/user/profile/u123?tab=note]:
    the id is [u123], between [/user/profile/] and [?tab=note]. *)
Lemma X11_author_id_witness :
  exists before after,
    author_id (Xiaohongshu.d_author (Xiaohongshu.extractNoteDetail Samples.richNotePage))
    = JS.utf16 "u123"
    /\ author_url (Xiaohongshu.d_author
                     (Xiaohongshu.extractNoteDetail Samples.richNotePage))
       = before ++ JS.utf16 "profile/" ++ JS.utf16 "u123" ++ after.
Proof.
  assert (Hid : author_id (Xiaohongshu.d_author
                             (Xiaohongshu.extractNoteDetail Samples.richNotePage))
                = JS.utf16 "u123") by (vm_compute; reflexivity).
  destruct (proj1 X11_author_id Samples.richNotePage) as (_ & Hpiece & _).
  destruct Hpiece as (before & after & Hurl & _).
  { rewrite Hid. vm_compute. discriminate. }
  exists before, after. split; [exact Hid|]. by rewrite <- Hid.
Defined.

(** ** The scroll loop *)

Module ScrollFacts.

(** The loop from a given tick on: it stops at the first tick whose
    height the total has reached. *)
Lemma autoScrollFrom_stops scrollHeight fuel tick n :
  (tick <= n)%nat -> (n - tick < fuel)%nat ->
  (forall k, (tick <= k < n)%nat -> distance * Z.of_nat (S k) < scrollHeight k) ->
  scrollHeight n <= distance * Z.of_nat (S n) ->
  autoScrollFrom scrollHeight fuel tick (distance * Z.of_nat tick) = Some (S n).
Proof.
  revert tick. induction fuel as [|fuel IH]; intros tick Hle Hfuel Hbefore Hn; [lia|].
  simpl.
  replace (distance * Z.of_nat tick + distance) with (distance * Z.of_nat (S tick))
    by (unfold distance; lia).
  destruct (decide (tick = n)) as [->|Hne].
  - assert (H : (distance * Z.of_nat (S n) >=? scrollHeight n) = true)
      by (apply Z.geb_le; lia).
    by rewrite H.
  - assert (H : (distance * Z.of_nat (S tick) >=? scrollHeight tick) = false).
    { rewrite Z.geb_leb. apply Z.leb_gt.
      apply Hbefore. lia. }
    rewrite H. apply IH; try lia. intros k Hk. apply Hbefore. lia.
Qed.

Lemma autoScrollFrom_never scrollHeight fuel tick :
  (forall k, distance * Z.of_nat (S k) < scrollHeight k) ->
  autoScrollFrom scrollHeight fuel tick (distance * Z.of_nat tick) = None.
Proof.
  intros Hgrow. revert tick. induction fuel as [|fuel IH]; intros tick; [done|].
  simpl.
  replace (distance * Z.of_nat tick + distance) with (distance * Z.of_nat (S tick))
    by (unfold distance; lia).
  assert (H : (distance * Z.of_nat (S tick) >=? scrollHeight tick) = false).
  { rewrite Z.geb_leb. apply Z.leb_gt. apply Hgrow. }
  rewrite H. apply IH.
Qed.

(** Below a bound on the heights there is a first tick at which the
    total has reached the height. *)
Lemma first_reached scrollHeight bound :
  (forall k, scrollHeight k <= distance * Z.of_nat (S bound)) ->
  exists n, (n <= bound)%nat
    /\ scrollHeight n <= distance * Z.of_nat (S n)
    /\ forall k, (k < n)%nat -> distance * Z.of_nat (S k) < scrollHeight k.
Proof.
  intros Hb.
  assert (Hex : forall m, (m <= S bound)%nat ->
            (exists n, (n < m)%nat
               /\ scrollHeight n <= distance * Z.of_nat (S n)
               /\ forall k, (k < n)%nat -> distance * Z.of_nat (S k) < scrollHeight k)
            \/ forall k, (k < m)%nat -> distance * Z.of_nat (S k) < scrollHeight k).
  { induction m as [|m IH]; intros Hm; [right; intros; lia|].
    destruct IH as [(n & Hn & Hr & Hl)|Hnone]; [lia| |].
    - left. exists n. split; [lia|done].
    - destruct (Z_lt_le_dec (distance * Z.of_nat (S m)) (scrollHeight m)) as [Hlt|Hge].
      + right. intros k Hk. destruct (decide (k = m)) as [->|]; [done|].
        apply Hnone. lia.
      + left. exists m. split; [lia|]. split; [lia|done]. }
  destruct (Hex (S bound) ltac:(lia)) as [(n & Hn & Hr & Hl)|Hnone].
  - exists n. split; [lia|done].
  - specialize (Hnone bound ltac:(lia)). specialize (Hb bound). lia.
Qed.

End ScrollFacts.

(** X17: the scroll loop has no bound of its own.  When every height it
    reads is at most [100 * (bound + 1)], it ends after at least one and
    at most [bound + 1] runs of its callback (an empty page is still
    scrolled once), at the first run whose height the total has reached;
    when the page grows so that every height read exceeds the total
    scrolled so far, it never ends. *)
Theorem X17_autoScroll_termination (scrollHeight : nat -> Z) :
  (forall bound fuel,
     (forall k, scrollHeight k <= distance * Z.of_nat (S bound)) ->
     (bound < fuel)%nat ->
     exists runs,
       autoScroll scrollHeight fuel = Some runs
       /\ (1 <= runs <= S bound)%nat
       /\ scrollHeight (runs - 1)%nat <= distance * Z.of_nat runs
       /\ forall k, (S k < runs)%nat -> distance * Z.of_nat (S k) < scrollHeight k)
  /\ ((forall k, distance * Z.of_nat (S k) < scrollHeight k) ->
      forall fuel, autoScroll scrollHeight fuel = None).
Proof.
  split.
  - intros bound fuel Hb Hfuel.
    destruct (ScrollFacts.first_reached scrollHeight bound Hb) as (n & Hn & Hr & Hl).
    exists (S n). split; [|split; [lia|split]].
    + unfold autoScroll.
      change 0 with (distance * Z.of_nat 0) at 1.
      apply ScrollFacts.autoScrollFrom_stops; try lia.
      intros k Hk. apply Hl. lia.
    + by replace (S n - 1)%nat with n by lia.
    + intros k Hk. apply Hl. lia.
  - intros Hgrow fuel. unfold autoScroll.
    change 0 with (distance * Z.of_nat 0) at 1.
    by apply ScrollFacts.autoScrollFrom_never.
Qed.

(** X17 at a page of constant height 250: three runs. *)
Lemma X17_autoScroll_termination_witness :
  autoScroll (fun _ => 250) 10 = Some 3%nat.
Proof.
  destruct (proj1 (X17_autoScroll_termination (fun _ => 250)) 2%nat 10%nat)
    as (runs & Hruns & _); [intros _; vm_compute; discriminate|lia|].
  rewrite Hruns. vm_compute in Hruns. exact (eq_sym Hruns).
Defined.

(** ** The calls on the browser *)

Section LogFacts.
Context {Card Detail : Type}.
Variable card_url : Card -> jsstring.
Variable enumerate : Document -> Z -> list Card.
Variable extract : Document -> Detail.
Variable merge : Card -> Detail -> Card.

Lemma pushed_app (l1 l2 : list (Event Card)) :
  pushed (l1 ++ l2) = pushed l1 ++ pushed l2.
Proof. apply omap_app. Qed.

Lemma calls_app (l1 l2 : list (Event Card)) :
  calls (l1 ++ l2) = calls l1 ++ calls l2.
Proof. apply omap_app. Qed.

(** One iteration never throws; it pushes what [iteration] pushes and
    makes the calls of [tabCalls]. *)
Lemma iterationLog_spec i dw card st :
  exists st',
    iterationLog card_url extract merge i dw card st = (Returns tt, st ++ st')
    /\ iteration card_url extract merge dw card (pushed st)
       = (Returns tt, pushed st ++ pushed st')
    /\ calls st' = tabCalls card_url i dw card.
Proof.
  unfold iterationLog, iteration, tabCalls.
  destruct (negb (JS.truthy_str (card_url card))).
  { exists [Pushed card]. done. }
  unfold try_catch, bind, call, call_value, push, await, await_value, ret.
  destruct (d_newPage dw), (d_setViewport dw), (d_goto dw),
    (d_evaluate dw), (d_close dw); simpl; rewrite <- ?app_assoc; simpl;
    eexists; (split; [reflexivity|]);
    rewrite ?pushed_app; simpl; rewrite <- ?app_assoc; done.
Qed.

Lemma enrichLog_spec details cards : forall i st,
  exists st',
    enrichLog card_url extract merge details i cards st = (Returns tt, st ++ st')
    /\ enrich card_url extract merge details i cards (pushed st)
       = (Returns tt, pushed st ++ pushed st')
    /\ calls st'
       = concat (imap (fun k card => tabCalls card_url (i + k)%nat (details (i + k)%nat) card)
                      cards).
Proof.
  induction cards as [|card rest IH]; intros i st.
  { exists []. simpl. by rewrite !app_nil_r. }
  destruct (iterationLog_spec i (details i) card st) as (st1 & H1 & H1' & Hc1).
  destruct (IH (S i) (st ++ st1)) as (st2 & H2 & H2' & Hc2).
  exists (st1 ++ st2). simpl. unfold bind at 1 2.
  rewrite H1, H1'. rewrite pushed_app in H2'. rewrite H2, H2'.
  rewrite !pushed_app, calls_app, !app_assoc. split; [done|]. split; [done|].
  rewrite Hc1, Hc2, Nat.add_0_r. f_equal. f_equal.
  apply imap_ext. intros k x _. simpl. by replace (i + S k)%nat with (S (i + k)) by lia.
Qed.

Lemma walkBodyLog_spec w limit :
  exists log,
    walkBodyLog card_url enumerate extract merge w limit [Called Launch]
    = (fst (walkBody card_url enumerate extract merge w limit []), log)
    /\ (forall u, fst (walkBody card_url enumerate extract merge w limit []) = Returns u ->
        pushed log = snd (walkBody card_url enumerate extract merge w limit []))
    /\ calls log = Launch :: preludeCalls w ++ loopCalls card_url enumerate w limit.
Proof.
  unfold walkBodyLog, walkBody, preludeCalls, loopCalls, preludeError.
  unfold bind, call, call_value, push, await, await_value.
  destruct (w_newPage w); [|eexists; simpl; split; [reflexivity|by split]].
  destruct (w_setupCookies w); [|eexists; simpl; split; [reflexivity|by split]].
  destruct (w_goto w); [|eexists; simpl; split; [reflexivity|by split]].
  destruct (w_autoScroll w); [|eexists; simpl; split; [reflexivity|by split]].
  destruct (w_evaluate w) as [listing|]; [|eexists; simpl; split; [reflexivity|by split]].
  simpl.
  match goal with
  | |- context [enrichLog _ _ _ _ _ _ ?st] =>
    pose proof (enrichLog_spec (w_detail w) (enumerate listing limit) 0%nat st)
      as Hspec
  end.
  destruct Hspec as (more & H1 & H2 & H3).
  simpl in H2. rewrite H1, H2. eexists. split; [reflexivity|]. split.
  - intros u _. by rewrite pushed_app.
  - rewrite calls_app, H3. done.
Qed.

(** The logged walk returns what [walk] returns. *)
Lemma walkLog_outcome w limit :
  fst (walkLog card_url enumerate extract merge w limit)
  = walk card_url enumerate extract merge w limit.
Proof.
  unfold walkLog, walk.
  destruct (w_launch w); [|done].
  destruct (walkBodyLog_spec w limit) as (log & H1 & H2 & _).
  rewrite H1.
  destruct (walkBody card_url enumerate extract merge w limit []) as [[u|e] st];
    simpl in *; [|done].
  by rewrite (H2 u eq_refl).
Qed.

(** The whole log of calls. *)
Lemma walkLog_calls w limit :
  calls (snd (walkLog card_url enumerate extract merge w limit))
  = match w_launch w with
    | Fails _ => [Launch]
    | Done => Launch :: preludeCalls w ++ loopCalls card_url enumerate w limit ++ [CloseBrowser]
    end.
Proof.
  unfold walkLog.
  destruct (w_launch w); [|done].
  destruct (walkBodyLog_spec w limit) as (log & H1 & _ & H3).
  rewrite H1. simpl. rewrite calls_app, H3. simpl. by rewrite <- app_assoc.
Qed.

Lemma tabCalls_tab k dw (card : Card) c :
  c ∈ tabCalls card_url k dw card -> tabOf c = Some k.
Proof.
  unfold tabCalls.
  destruct (negb (JS.truthy_str (card_url card))); [by intros ?%elem_of_nil|].
  destruct (d_newPage dw), (d_setViewport dw); set_solver.
Qed.

Lemma preludeCalls_tab w c : c ∈ preludeCalls w -> tabOf c = None /\ c <> Launch /\ c <> CloseBrowser.
Proof.
  unfold preludeCalls.
  destruct (w_newPage w), (w_setupCookies w), (w_goto w), (w_autoScroll w);
    set_solver.
Qed.

Lemma elem_of_concat_imap {A B : Type} (f : nat -> A -> list B) (l : list A) (b : B) :
  b ∈ concat (imap f l) <-> exists k a, l !! k = Some a /\ b ∈ f k a.
Proof.
  split.
  - intros Hb. apply list_elem_of_In, in_concat in Hb as (group & Hg & Hb).
    apply list_elem_of_In, elem_of_lookup_imap in Hg as (k & a & -> & Hk).
    exists k, a. split; [done|]. by apply list_elem_of_In.
  - intros (k & a & Hk & Hb).
    apply list_elem_of_In, in_concat. exists (f k a). split.
    + apply list_elem_of_In, elem_of_lookup_imap. eauto.
    + by apply list_elem_of_In.
Qed.

Lemma loopCalls_elem w limit c :
  c ∈ loopCalls card_url enumerate w limit
  <-> exists listing k card,
        preludeError w = None /\ w_evaluate w = Returns listing
        /\ enumerate listing limit !! k = Some card
        /\ c ∈ tabCalls card_url k (w_detail w k) card.
Proof.
  unfold loopCalls.
  destruct (preludeError w) eqn:Hp.
  { split; [by intros ?%elem_of_nil|]. by intros (? & ? & ? & ? & _). }
  destruct (w_evaluate w) as [listing|e] eqn:He.
  2:{ split; [by intros ?%elem_of_nil|]. by intros (? & ? & ? & _ & ? & _). }
  rewrite elem_of_concat_imap. split.
  - intros (k & card & Hk & Hc). by exists listing, k, card.
  - intros (listing' & k & card & _ & [= <-] & Hk & Hc). eauto.
Qed.

(** A call on the tab of index [i] is in the log exactly when the run
    reached the card of index [i] and the iteration of that card makes
    it. *)
Lemma tab_call_logged w limit i c :
  tabOf c = Some i ->
  c ∈ calls (snd (walkLog card_url enumerate extract merge w limit))
  <-> exists listing card,
        w_launch w = Done /\ preludeError w = None
        /\ w_evaluate w = Returns listing
        /\ enumerate listing limit !! i = Some card
        /\ c ∈ tabCalls card_url i (w_detail w i) card.
Proof.
  intros Hc. rewrite walkLog_calls.
  destruct (w_launch w) as [|e].
  - split.
    + intros [->|Hin]%elem_of_cons; [done|].
      apply elem_of_app in Hin as [Hin|Hin].
      { apply preludeCalls_tab in Hin as [? _]. congruence. }
      apply elem_of_app in Hin as [Hin|Hin].
      2:{ apply list_elem_of_singleton in Hin as ->. done. }
      apply loopCalls_elem in Hin as (listing & k & card & Hp & He & Hk & Hin).
      pose proof (tabCalls_tab _ _ _ _ Hin) as Hk'.
      assert (k = i) as -> by congruence.
      by exists listing, card.
    + intros (listing & card & _ & Hp & He & Hk & Hin).
      apply elem_of_cons. right. apply elem_of_app. right.
      apply elem_of_app. left. apply loopCalls_elem.
      by exists listing, i, card.
  - split.
    + intros ->%list_elem_of_singleton. done.
    + by intros (? & ? & ? & _).
Qed.

(** X18: the calls on a detail tab.  The tab of the card of index [i] is
    opened exactly when the run reaches that card and the card has a
    url; it is sized exactly when opening it succeeded; and its close is
    called exactly when sizing it succeeded, whatever the navigation and
    the extraction do.  So a tab that was opened and whose
    [setViewport] throws is never closed by the loop. *)
Theorem X18_tab_calls (w : World) (limit : Z) (i : nat) :
  (OpenTab i ∈ calls (snd (walkLog card_url enumerate extract merge w limit))
   <-> exists listing card,
         w_launch w = Done /\ preludeError w = None
         /\ w_evaluate w = Returns listing
         /\ enumerate listing limit !! i = Some card
         /\ JS.truthy_str (card_url card) = true)
  /\ (SizeTab i ∈ calls (snd (walkLog card_url enumerate extract merge w limit))
      <-> OpenTab i ∈ calls (snd (walkLog card_url enumerate extract merge w limit))
          /\ d_newPage (w_detail w i) = Done)
  /\ (CloseTab i ∈ calls (snd (walkLog card_url enumerate extract merge w limit))
      <-> SizeTab i ∈ calls (snd (walkLog card_url enumerate extract merge w limit))
          /\ d_setViewport (w_detail w i) = Done).
Proof.
  rewrite !(tab_call_logged w limit i) by done.
  split; [|split].
  - split; intros (listing & card & Hl & Hp & He & Hk & Hin);
      exists listing, card; repeat (split; [done|]);
      unfold tabCalls in *;
      destruct (JS.truthy_str (card_url card)); simpl in *; set_solver.
  - split.
    + intros (listing & card & Hl & Hp & He & Hk & Hin).
      split; [exists listing, card; repeat (split; [done|])|];
        unfold tabCalls in *;
        destruct (JS.truthy_str (card_url card)), (d_newPage (w_detail w i));
        simpl in *; set_solver.
    + intros [(listing & card & Hl & Hp & He & Hk & Hin) Hn].
      exists listing, card. repeat (split; [done|]).
      unfold tabCalls in *. rewrite Hn.
      destruct (JS.truthy_str (card_url card)); simpl in *; set_solver.
  - split.
    + intros (listing & card & Hl & Hp & He & Hk & Hin).
      split; [exists listing, card; repeat (split; [done|])|];
        unfold tabCalls in *;
        destruct (JS.truthy_str (card_url card)), (d_newPage (w_detail w i)),
          (d_setViewport (w_detail w i));
        simpl in *; set_solver.
    + intros [(listing & card & Hl & Hp & He & Hk & Hin) Hn].
      exists listing, card. repeat (split; [done|]).
      unfold tabCalls in *. rewrite Hn.
      destruct (JS.truthy_str (card_url card)), (d_newPage (w_detail w i));
        simpl in *; set_solver.
Qed.

(** X19: the browser is closed exactly once and last.  In every run in
    which the launch succeeded, whatever throws afterwards, the log of
    calls is the launch, then calls among which there is no launch and
    no close of the browser, then the close of the browser; when the
    launch throws, nothing else is called. *)
Theorem X19_browser_closed_last (w : World) (limit : Z) :
  (w_launch w = Done ->
   exists between,
     calls (snd (walkLog card_url enumerate extract merge w limit))
     = Launch :: between ++ [CloseBrowser]
     /\ Launch ∉ between /\ CloseBrowser ∉ between)
  /\ (forall e, w_launch w = Fails e ->
      calls (snd (walkLog card_url enumerate extract merge w limit)) = [Launch]).
Proof.
  rewrite walkLog_calls. split.
  - intros ->. exists (preludeCalls w ++ loopCalls card_url enumerate w limit).
    split; [by rewrite <- app_assoc|].
    split; intros [Hin|Hin]%elem_of_app.
    + apply preludeCalls_tab in Hin. tauto.
    + apply loopCalls_elem in Hin as (? & ? & ? & _ & _ & _ & Hin).
      by apply tabCalls_tab in Hin.
    + apply preludeCalls_tab in Hin. tauto.
    + apply loopCalls_elem in Hin as (? & ? & ? & _ & _ & _ & Hin).
      by apply tabCalls_tab in Hin.
  - by intros e ->.
Qed.

(** *** The order of the calls on the detail tabs *)

Lemma tabCalls_sorted k dw (card : Card) :
  StronglySorted tabBefore (tabCalls card_url k dw card).
Proof.
  unfold tabCalls.
  destruct (negb (JS.truthy_str (card_url card))); [constructor|].
  destruct (d_newPage dw), (d_setViewport dw);
    repeat first [apply SSorted_nil | apply SSorted_cons
                 | apply List.Forall_nil | apply List.Forall_cons];
    intros j i [= <-] [= <-]; right; simpl; split; (done || lia).
Qed.

Lemma loop_sorted details (cards : list Card) : forall i0,
  StronglySorted tabBefore
    (concat (imap (fun k card => tabCalls card_url (i0 + k)%nat (details (i0 + k)%nat) card)
                  cards)).
Proof.
  induction cards as [|card rest IH]; intros i0; [constructor|].
  simpl. apply StronglySorted_app_2.
  - intros c d Hc Hd j i Hj Hi. left.
    apply tabCalls_tab in Hc.
    apply elem_of_concat_imap in Hd as (k & a & _ & Hd).
    apply tabCalls_tab in Hd.
    assert (j = (i0 + 0)%nat) by congruence.
    assert (i = (i0 + S k)%nat) by congruence. lia.
  - apply tabCalls_sorted.
  - erewrite imap_ext; [apply (IH (S i0))|].
    intros k x _. simpl. by replace (i0 + S k)%nat with (S i0 + k)%nat by lia.
Qed.

Lemma tabBefore_none_l (c d : Call) : tabOf c = None -> tabBefore c d.
Proof. intros Hc j i. congruence. Qed.

Lemma tabBefore_none_r (c d : Call) : tabOf d = None -> tabBefore c d.
Proof. intros Hd j i. congruence. Qed.

Lemma no_tab_sorted (l : list Call) :
  (forall c, c ∈ l -> tabOf c = None) -> StronglySorted tabBefore l.
Proof.
  induction l as [|c l IH]; intros Hl; [constructor|].
  apply SSorted_cons.
  - apply IH. intros d Hd. apply Hl. by right.
  - apply Forall_forall. intros d _. apply tabBefore_none_l, Hl. by left.
Qed.

Lemma walkLog_sorted w limit :
  StronglySorted tabBefore
    (calls (snd (walkLog card_url enumerate extract merge w limit))).
Proof.
  rewrite walkLog_calls.
  destruct (w_launch w).
  2:{ apply no_tab_sorted. by intros c ->%list_elem_of_singleton. }
  apply SSorted_cons.
  2:{ apply Forall_forall. intros d _. by apply tabBefore_none_l. }
  apply StronglySorted_app_2.
  - intros c d Hc _. apply preludeCalls_tab in Hc as [Hc _]. by apply tabBefore_none_l.
  - apply no_tab_sorted. intros c Hc. by apply preludeCalls_tab in Hc as [Hc _].
  - apply StronglySorted_app_2.
    + intros c d _ ->%list_elem_of_singleton. by apply tabBefore_none_r.
    + unfold loopCalls.
      destruct (preludeError w); [constructor|].
      destruct (w_evaluate w) as [listing|]; [|constructor].
      apply (loop_sorted (w_detail w) (enumerate listing limit) 0%nat).
    + apply no_tab_sorted. by intros c ->%list_elem_of_singleton.
Qed.

(** X20: the detail tabs are used strictly one after the other.  Of two
    calls on detail tabs in the log of a run, the later one is on a
    later tab, or on the same tab at a later place of the sequence open,
    size, navigate, evaluate, close; so no call on a tab follows a call
    on a later tab, and no call on a tab is made twice. *)
Theorem X20_tabs_in_sequence (w : World) (limit : Z)
    (earlier later : list Call) (c d : Call) (j i : nat) :
  calls (snd (walkLog card_url enumerate extract merge w limit))
  = earlier ++ c :: later ->
  d ∈ later -> tabOf c = Some j -> tabOf d = Some i ->
  (j < i)%nat \/ (j = i /\ (stage c < stage d)%nat).
Proof.
  intros Hlog Hd Hj Hi.
  pose proof (walkLog_sorted w limit) as Hs. rewrite Hlog in Hs.
  apply StronglySorted_app_1_r, StronglySorted_cons in Hs as [Hall _].
  rewrite Forall_forall in Hall. exact (Hall d Hd j i Hj Hi).
Qed.
End LogFacts.

(** X18 at the run in which the first detail tab cannot be sized: the
    tab is opened and never closed. *)
Lemma X18_tab_calls_witness :
  OpenTab 0 ∈ fetchLatestNotesLog Samples.runNoViewport 10
  /\ CloseTab 0 ∉ fetchLatestNotesLog Samples.runNoViewport 10.
Proof.
  unfold fetchLatestNotesLog.
  destruct (X18_tab_calls Xiaohongshu.url Xiaohongshu.enumerate
              Xiaohongshu.extractNoteDetail Xiaohongshu.mergeNote
              Samples.runNoViewport 10 0%nat) as (Hopen & _ & Hclose).
  split.
  - apply Hopen. eexists _, _. repeat split; vm_compute; reflexivity.
  - intros [_ Hv]%Hclose. vm_compute in Hv. discriminate Hv.
Defined.

(** X19 at the run in which the first page cannot be opened: the
    browser is still closed. *)
Lemma X19_browser_closed_last_witness :
  exists between,
    fetchLatestNotesLog Samples.runNoPage 10 = Launch :: between ++ [CloseBrowser]
    /\ Launch ∉ between /\ CloseBrowser ∉ between.
Proof.
  unfold fetchLatestNotesLog.
  apply (X19_browser_closed_last Xiaohongshu.url Xiaohongshu.enumerate
           Xiaohongshu.extractNoteDetail Xiaohongshu.mergeNote
           Samples.runNoPage 10).
  vm_compute. reflexivity.
Defined.

(** X20 at the run over five cards: the close of the first tab comes
    before the second tab is opened. *)
Lemma X20_tabs_in_sequence_witness :
  exists earlier later,
    fetchLatestNotesLog Samples.runOk 10 = earlier ++ CloseTab 0 :: later
    /\ OpenTab 1 ∈ later
    /\ ((0 < 1)%nat \/ (0%nat = 1%nat /\ (stage (CloseTab 0) < stage (OpenTab 1))%nat)).
Proof.
  assert (Hlog : exists earlier later,
            fetchLatestNotesLog Samples.runOk 10 = earlier ++ CloseTab 0 :: later
            /\ OpenTab 1 ∈ later).
  { eexists (take 10 (fetchLatestNotesLog Samples.runOk 10)),
            (drop 11 (fetchLatestNotesLog Samples.runOk 10)).
    split; vm_compute; [reflexivity|]. apply list_elem_of_here. }
  destruct Hlog as (earlier & later & Hlog & Hin).
  exists earlier, later. split; [exact Hlog|]. split; [exact Hin|].
  exact (X20_tabs_in_sequence Xiaohongshu.url Xiaohongshu.enumerate
           Xiaohongshu.extractNoteDetail Xiaohongshu.mergeNote
           Samples.runOk 10 earlier later (CloseTab 0) (OpenTab 1) 0%nat 1%nat
           Hlog Hin eq_refl eq_refl).
Defined.

(** ** The digests *)

Module DigestFacts.

Lemma preview_take n s : preview n (take (S n) s) = preview n s.
Proof.
  unfold preview. rewrite take_take, length_take.
  replace (n `min` S n)%nat with n by lia. f_equal.
  destruct (n <? length s)%nat eqn:Hn.
  - apply Nat.ltb_lt in Hn.
    assert (H : (n <? S n `min` length s)%nat = true) by (apply Nat.ltb_lt; lia).
    by rewrite H.
  - apply Nat.ltb_ge in Hn.
    assert (H : (n <? S n `min` length s)%nat = false) by (apply Nat.ltb_ge; lia).
    by rewrite H.
Qed.

Lemma truthy_str_take n s :
  JS.truthy_str (take (S n) s) = JS.truthy_str s.
Proof. by destruct s. Qed.

Lemma commentPreview_clip numberToString (l : list Comment) :
  commentPreview numberToString (clipComment <$> take 3 l)
  = commentPreview numberToString l.
Proof.
  unfold commentPreview.
  rewrite length_fmap, length_take.
  destruct l as [|c1 [|c2 [|c3 l]]]; simpl; [done|..];
    unfold commentLine; simpl; rewrite ?preview_take; done.
Qed.

Lemma join_nil_iff sep (parts : list jsstring) :
  (forall part, part ∈ parts -> part <> []) ->
  join sep parts = [] <-> parts = [].
Proof.
  intros Hne. split; [|by intros ->].
  destruct parts as [|part rest]; [done|].
  intros Hj. exfalso. apply (Hne part); [by left|].
  simpl in Hj. destruct rest; [done|].
  by apply app_eq_nil in Hj as [? _].
Qed.

Lemma imap_nonempty {A : Type} (f : nat -> A -> jsstring) (l : list A) :
  (forall i a, f i a <> []) -> forall part, part ∈ imap f l -> part <> [].
Proof.
  intros Hf part Hin.
  apply elem_of_lookup_imap in Hin as (i & a & -> & _). apply Hf.
Qed.

Lemma digestOf_nil_iff {Card : Type} (item : nat -> Card -> jsstring) cards :
  (forall i a, item i a <> []) ->
  digestOf item (mkFetchResult true (Some cards) None) = Some [] <-> cards = [].
Proof.
  intros Hitem. unfold digestOf. simpl. split.
  - intros [= Hj]. apply join_nil_iff in Hj; [|by apply imap_nonempty].
    by destruct cards.
  - by intros ->.
Qed.

Lemma noteItem_nonempty numberToString i note : noteItem numberToString i note <> [].
Proof. done. Qed.

Lemma postItem_nonempty numberToString i post : postItem numberToString i post <> [].
Proof. done. Qed.

End DigestFacts.

Section DigestWalk.
Context {Card Detail : Type}.
Variable card_url : Card -> jsstring.
Variable enumerate : Document -> Z -> list Card.
Variable extract : Document -> Detail.
Variable merge : Card -> Detail -> Card.
Variable item : nat -> Card -> jsstring.
Hypothesis item_nonempty : forall i card, item i card <> [].

Lemma runRecords_nil w (cards : list Card) :
  runRecords card_url extract merge w cards = [] <-> cards = [].
Proof.
  split; [|by intros ->].
  destruct cards as [|card rest]; [done|].
  unfold runRecords. simpl.
  destruct (appended_shape card_url extract merge (w_detail w 0) card)
    as (r & more & -> & _). done.
Qed.

(** The digest of a walk, by cases on the run. *)
Lemma digest_cases w limit :
  let digest :=
    match walk card_url enumerate extract merge w limit with
    | Throws e => Throws e
    | Returns result => Returns (digestOf item result)
    end in
  (forall e, digest = Throws e
     <-> w_launch w = Fails e \/ (w_launch w = Done /\ w_close w = Fails e))
  /\ (digest = Returns None
      <-> w_launch w = Done /\ w_close w = Done /\ preludeError w <> None)
  /\ (forall text, digest = Returns (Some text) ->
        w_launch w = Done /\ w_close w = Done /\ preludeError w = None
        /\ exists listing, w_evaluate w = Returns listing
             /\ (text = [] <-> enumerate listing limit = [])).
Proof.
  intros digest. subst digest.
  pose proof (walk_cases card_url enumerate extract merge w limit) as Hw.
  destruct (w_launch w) as [|e1].
  2:{ rewrite Hw. split; [|split].
      - intros e. split; [intros [= ->]; by left|by intros [[= ->]|[? _]]].
      - split; [done|by intros [? _]].
      - done. }
  destruct (w_close w) as [|e2].
  2:{ rewrite Hw. split; [|split].
      - intros e. split; [intros [= ->]; by right|by intros [?|[_ [= ->]]]].
      - split; [done|by intros (_ & ? & _)].
      - done. }
  destruct (preludeError w) as [e|].
  - rewrite Hw. split; [|split].
    + intros e'. split; [done|by intros [?|[_ ?]]].
    + split; [done|]. by intros _.
    + done.
  - destruct Hw as (listing & He & ->). split; [|split].
    + intros e'. split; [done|by intros [?|[_ ?]]].
    + split; [done|]. by intros (_ & _ & ?).
    + intros text Htext. repeat (split; [done|]).
      exists listing. split; [done|].
      unfold digestOf in Htext. simpl in Htext.
      assert (text = join nl (imap item (runRecords card_url extract merge w
                                              (enumerate listing limit))))
        as -> by congruence.
      rewrite DigestFacts.join_nil_iff by (by apply DigestFacts.imap_nonempty).
      rewrite <- (runRecords_nil w (enumerate listing limit)).
      by destruct (runRecords card_url extract merge w (enumerate listing limit)).
Qed.
End DigestWalk.

(** X21: what the digest functions give back.  [getLatestNotes] and
    [getLatestWeibo] throw exactly when the browser cannot be launched
    or closed; they return [undefined], without the error, exactly when
    a step before the loop throws; otherwise they return a string, which
    is empty exactly when the enumeration of the listing is empty.  An
    omitted limit is the limit 10. *)
Theorem X21_digest_outcome (numberToString : number -> jsstring)
    (w : World) (limit : option Z) :
  ((forall e, getLatestNotes numberToString w limit = Throws e
      <-> w_launch w = Fails e \/ (w_launch w = Done /\ w_close w = Fails e))
   /\ (getLatestNotes numberToString w limit = Returns None
       <-> w_launch w = Done /\ w_close w = Done /\ preludeError w <> None)
   /\ (forall text, getLatestNotes numberToString w limit = Returns (Some text) ->
         w_launch w = Done /\ w_close w = Done /\ preludeError w = None
         /\ exists listing, w_evaluate w = Returns listing
              /\ (text = [] <-> Xiaohongshu.enumerate listing (limitOf limit) = [])))
  /\ ((forall e, getLatestWeibo numberToString w limit = Throws e
      <-> w_launch w = Fails e \/ (w_launch w = Done /\ w_close w = Fails e))
   /\ (getLatestWeibo numberToString w limit = Returns None
       <-> w_launch w = Done /\ w_close w = Done /\ preludeError w <> None)
   /\ (forall text, getLatestWeibo numberToString w limit = Returns (Some text) ->
         w_launch w = Done /\ w_close w = Done /\ preludeError w = None
         /\ exists listing, w_evaluate w = Returns listing
              /\ (text = [] <-> Weibo.enumerate listing (limitOf limit) = [])))
  /\ getLatestNotes numberToString w None = getLatestNotes numberToString w (Some 10)
  /\ getLatestWeibo numberToString w None = getLatestWeibo numberToString w (Some 10).
Proof.
  split; [|split; [|done]].
  - apply (digest_cases Xiaohongshu.url Xiaohongshu.enumerate
             Xiaohongshu.extractNoteDetail Xiaohongshu.mergeNote
             (noteItem numberToString)
             (DigestFacts.noteItem_nonempty numberToString) w (limitOf limit)).
  - apply (digest_cases Weibo.url Weibo.enumerate
             Weibo.extractWeiboDetail Weibo.mergePost
             (postItem numberToString)
             (DigestFacts.postItem_nonempty numberToString) w (limitOf limit)).
Qed.

(** X21 at a run in which the first page cannot be opened: the digest is
    [undefined]. *)
Lemma X21_digest_outcome_witness :
  getLatestNotes (fun _ => []) Samples.runNoPage None = Returns None.
Proof.
  destruct (X21_digest_outcome (fun _ => []) Samples.runNoPage None)
    as [(_ & Hnone & _) _].
  apply Hnone.
  split; [vm_compute; reflexivity|]. split; [vm_compute; reflexivity|].
  vm_compute. discriminate.
Defined.

(** X22: the digest reads a bounded part of each record.  The block of
    a record is the block of the record without its id, html content and
    cover image, with the summary (in weibo.ts the content) cut after 51
    code units, the full content after 101, and with the first three
    comments only, their contents cut after 31 code units. *)
Theorem X22_digest_reads_clipped (numberToString : number -> jsstring)
    (index : nat) :
  (forall note,
     noteItem numberToString index (clipNote note)
     = noteItem numberToString index note)
  /\ (forall post,
     postItem numberToString index (clipPost post)
     = postItem numberToString index post).
Proof.
  split.
  - intros note. unfold noteItem, clipNote. simpl.
    rewrite (DigestFacts.preview_take 50), (DigestFacts.preview_take 100),
      (DigestFacts.truthy_str_take 100), DigestFacts.commentPreview_clip.
    done.
  - intros post. unfold postItem, clipPost. simpl.
    rewrite (DigestFacts.preview_take 50), DigestFacts.commentPreview_clip.
    done.
Qed.

(** ** Posting *)

Section PostFacts.
Variable selector : string.
Variable submit : option step.

Lemma without_ret {A : Type} c (a : A) : without c (ret a).
Proof. intros st. exists []. simpl. rewrite app_nil_r. split; [done|]. apply not_elem_of_nil. Qed.

Lemma without_throwError {A : Type} c e : without c (throwError (A := A) e).
Proof. intros st. exists []. simpl. rewrite app_nil_r. split; [done|]. apply not_elem_of_nil. Qed.

Lemma without_perform c c' s : c' <> c -> without c (perform c' s).
Proof.
  intros Hc st. exists [c'].
  unfold perform, bind, push, await. destruct s; simpl; (split; [done|]);
    by intros ->%list_elem_of_singleton.
Qed.

Lemma without_lookup c sel l : c <> WaitFor sel -> without c (lookup sel l).
Proof.
  intros Hc st. exists [WaitFor sel]. split; [done|].
  by intros ->%list_elem_of_singleton.
Qed.

Lemma without_bind {A B : Type} c (m : exec A) (k : A -> exec B) :
  without c m -> (forall a, without c (k a)) -> without c (bind m k).
Proof.
  intros Hm Hk st. unfold bind.
  destruct (Hm st) as (more & Hst & Hmore).
  destruct (m st) as [[a|e] st1]; simpl in Hst; subst st1.
  - destruct (Hk a (st ++ more)) as (more' & Hst' & Hmore').
    exists (more ++ more'). rewrite Hst', app_assoc. split; [done|].
    by intros [?|?]%elem_of_app.
  - by exists more.
Qed.

Lemma without_throws_bind {A B : Type} c (m : exec A) (k : A -> exec B) :
  without c m -> throws m -> without c (bind m k).
Proof.
  intros Hm Ht st. unfold bind.
  destruct (Hm st) as (more & Hst & Hmore). destruct (Ht st) as (e & He).
  destruct (m st) as [[a|e'] st1]; simpl in *; [done|]. subst st1. by exists more.
Qed.

Lemma throws_throwError {A : Type} e : throws (throwError (A := A) e).
Proof. intros st. by exists e. Qed.

Lemma throws_bind_l {A B : Type} (m : exec A) (k : A -> exec B) :
  throws m -> throws (bind m k).
Proof.
  intros Ht st. unfold bind. destruct (Ht st) as (e & He).
  destruct (m st) as [[a|e'] st1]; simpl in *; [done|]. by exists e'.
Qed.

Lemma throws_bind_r {A B : Type} (m : exec A) (k : A -> exec B) :
  (forall a, throws (k a)) -> throws (bind m k).
Proof.
  intros Hk st. unfold bind.
  destruct (m st) as [[a|e'] st1]; [apply Hk|by exists e'].
Qed.

Lemma ends_throwError e : endsWithClick selector submit (throwError e).
Proof.
  intros st. exists []. simpl. rewrite app_nil_r. split; [done|].
  left. apply not_elem_of_nil.
Qed.

Lemma ends_bind {A : Type} (m : exec A) (k : A -> exec unit) :
  without (Click selector) m -> (forall a, endsWithClick selector submit (k a)) ->
  endsWithClick selector submit (bind m k).
Proof.
  intros Hm Hk st. unfold bind.
  destruct (Hm st) as (more & Hst & Hmore).
  destruct (m st) as [[a|e] st1]; simpl in Hst; subst st1.
  - destruct (Hk a (st ++ more)) as (more' & Hst' & Hlast).
    exists (more ++ more'). rewrite Hst', app_assoc. split; [done|].
    destruct (fst (k a (st ++ more))) as [u|e]; simpl in *.
    + destruct Hlast as (before & -> & Hb & Hs).
      exists (more ++ before). rewrite app_assoc. split; [done|].
      split; [|done]. by intros [?|?]%elem_of_app.
    + destruct Hlast as [Hno|(before & -> & Hb & Hs)].
      * left. by intros [?|?]%elem_of_app.
      * right. exists (more ++ before). rewrite app_assoc. split; [done|].
        split; [|done]. by intros [?|?]%elem_of_app.
  - exists more. split; [done|]. by left.
Qed.

(** The last step of both functions: the publish button is looked up
    and clicked, or the body throws. *)
Lemma ends_submit l message :
  submit = waitForSelector l ->
  endsWithClick selector submit
    (bind (lookup selector l)
       (fun submitButton =>
          match submitButton with
          | None => throwError message
          | Some click => perform (Click selector) click
          end)).
Proof.
  intros -> st. unfold bind, lookup, push, ret, perform, bind, push, await, throwError.
  destruct (waitForSelector l) as [[|e]|]; simpl.
  - exists [WaitFor selector; Click selector].
    rewrite <- app_assoc. split; [done|].
    exists [WaitFor selector]. split; [done|]. split; [|done].
    by intros [=]%list_elem_of_singleton.
  - exists [WaitFor selector; Click selector].
    rewrite <- app_assoc. split; [done|]. right.
    exists [WaitFor selector]. split; [done|]. split; [|done].
    by intros [=]%list_elem_of_singleton.
  - exists [WaitFor selector]. split; [done|]. left.
    by intros [=]%list_elem_of_singleton.
Qed.

(** The frame: what is thrown, what is returned, and the log. *)
Lemma attempt_cases launch close body :
  match launch with
  | Fails e => attempt launch close body = (Throws e, [LaunchBrowser])
  | Done =>
    snd (attempt launch close body)
    = snd (body [LaunchBrowser]) ++ [CloseTheBrowser]
    /\ match close with
       | Fails e => fst (attempt launch close body) = Throws e
       | Done =>
         fst (attempt launch close body)
         = Returns match fst (body [LaunchBrowser]) with
                   | Returns _ => mkPostResult true None None
                   | Throws e => mkPostResult false None (Some e)
                   end
       end
  end.
Proof.
  unfold attempt. destruct launch; [|done].
  destruct (body [LaunchBrowser]) as [o log]. simpl. split; [done|].
  by destruct close.
Qed.

Lemma attempt_published launch close body r :
  endsWithClick selector submit body ->
  fst (attempt launch close body) = Returns r ->
  (post_success r = true ->
   exists before,
     snd (attempt launch close body)
     = LaunchBrowser :: before ++ [Click selector; CloseTheBrowser]
     /\ Click selector ∉ before /\ submit = Some Done)
  /\ (Click selector ∈ snd (attempt launch close body) ->
      post_success r = true
      \/ exists e, submit = Some (Fails e) /\ post_error r = Some e).
Proof.
  intros Hbody Hr.
  pose proof (attempt_cases launch close body) as Hc.
  destruct launch; [|by rewrite Hc in Hr].
  destruct Hc as [Hlog Hres]. rewrite Hlog.
  destruct close; [|by rewrite Hres in Hr].
  rewrite Hres in Hr. injection Hr as <-.
  destruct (Hbody [LaunchBrowser]) as (more & Hst & Hlast). rewrite Hst.
  destruct (fst (body [LaunchBrowser])) as [u|e]; simpl in *.
  - destruct Hlast as (before & -> & Hb & Hs). split; [|by left].
    intros _. exists before. by rewrite <- !app_assoc.
  - split; [done|]. intros Hin. right. exists e. split; [|done].
    destruct Hlast as [Hno|(before & -> & Hb & Hs)]; [|done].
    exfalso. apply elem_of_cons in Hin as [?|Hin]; [done|].
    apply elem_of_app in Hin as [?|[=]%list_elem_of_singleton]; done.
Qed.
End PostFacts.

Ltac distinct_calls :=
  let H := fresh in intros H; cbv in H; discriminate H.

Ltac without_steps :=
  repeat first
    [ apply without_ret
    | apply without_throwError
    | apply without_perform; distinct_calls
    | apply without_lookup; distinct_calls
    | apply without_bind; [|intros ?]
    | match goal with
      | |- without _ (match ?x with _ => _ end) => destruct x
      end ].

Ltac ends_steps :=
  repeat first
    [ apply ends_throwError
    | apply ends_submit; reflexivity
    | apply ends_bind; [without_steps|intros ?]
    | match goal with
      | |- endsWithClick _ _ (match ?x with _ => _ end) => destruct x
      end ].

Module WeiboPostFacts.
Import WeiboPosting.

Lemma postWeibo_without c options pw :
  (forall sel, c <> Click sel) -> (forall sel, c <> WaitFor sel) ->
  (forall text, c <> TypeText text) -> (forall files, c <> UploadFile files) ->
  c <> OpenPage -> c <> SetCookies -> c <> GotoPublish -> c <> WaitUploaded ->
  without c (postBody options pw).
Proof.
  intros Hclick Hwait Htype Hup H1 H2 H3 H4.
  unfold postBody, uploadImages.
  repeat first
    [ apply without_ret
    | apply without_throwError
    | apply without_perform; congruence
    | apply without_lookup; congruence
    | apply without_bind; [|intros ?]
    | match goal with
      | |- without _ (match ?x with _ => _ end) => destruct x
      end ].
Qed.

Lemma postWeibo_ends options pw :
  endsWithClick submitButtonSelector (waitForSelector (submitButton pw))
    (postBody options pw).
Proof. unfold postBody, uploadImages. ends_steps. Qed.

End WeiboPostFacts.

Module XhsPostFacts.
Import XhsPosting.

Lemma whenFound_without c sel l then_ :
  c <> WaitFor sel -> c <> Click sel -> without c then_ ->
  without c (whenFound sel l then_).
Proof.
  intros H1 H2 Ht. unfold whenFound.
  apply without_bind; [by apply without_lookup|]. intros [click|].
  - apply without_bind; [by apply without_perform|done].
  - apply without_ret.
Qed.

Lemma addTags_without c pw tags : forall i,
  (forall sel, c <> Click sel) -> (forall sel, c <> WaitFor sel) ->
  (forall text, c <> TypeText text) ->
  without c (addTags pw i tags).
Proof.
  induction tags as [|tag rest IH]; intros i Hclick Hwait Htype; simpl.
  { apply without_ret. }
  apply without_bind; [|intros _; by apply IH].
  apply whenFound_without; [done..|].
  apply without_bind; [by apply without_perform|]. intros _.
  apply whenFound_without; [done..|]. apply without_ret.
Qed.

(** The tags are typed into the search box and their suggestions
    clicked; the publish button is not among the selectors. *)
Lemma addTags_no_submit pw tags i :
  without (Click submitBtnSelector) (addTags pw i tags).
Proof.
  revert i. induction tags as [|tag rest IH]; intros i; simpl.
  { apply without_ret. }
  apply without_bind; [|intros _; by apply IH].
  apply whenFound_without; [distinct_calls..|].
  apply without_bind; [apply without_perform; distinct_calls|]. intros _.
  apply whenFound_without; [distinct_calls..|]. apply without_ret.
Qed.

Lemma fillIn_no_submit options pw :
  without (Click submitBtnSelector) (fillIn options pw).
Proof.
  unfold fillIn.
  repeat first
    [ apply without_ret
    | apply addTags_no_submit
    | apply whenFound_without; [distinct_calls..|]
    | apply without_perform; distinct_calls
    | apply without_bind; [|intros ?]
    | match goal with
      | |- without _ (if ?b then _ else _) => destruct b
      end ].
Qed.

Lemma fillIn_without c options pw :
  (forall sel, c <> Click sel) -> (forall sel, c <> WaitFor sel) ->
  (forall text, c <> TypeText text) ->
  without c (fillIn options pw).
Proof.
  intros Hclick Hwait Htype. unfold fillIn.
  repeat first
    [ apply without_ret
    | apply addTags_without; [done..]
    | apply whenFound_without; [done..|]
    | apply without_perform; congruence
    | apply without_bind; [|intros ?]
    | match goal with
      | |- without _ (if ?b then _ else _) => destruct b
      end ].
Qed.

Lemma postXiaohongshu_without c options pw :
  (forall sel, c <> Click sel) -> (forall sel, c <> WaitFor sel) ->
  (forall text, c <> TypeText text) -> (forall files, c <> UploadFile files) ->
  c <> OpenPage -> c <> SetCookies -> c <> GotoPublish -> c <> WaitUploaded ->
  c <> EvaluateHandle -> c <> ClickHandle ->
  without c (postBody options pw).
Proof.
  intros Hclick Hwait Htype Hup H1 H2 H3 H4 H5 H6.
  unfold postBody.
  repeat first
    [ apply without_ret
    | apply without_throwError
    | apply fillIn_without; [done..]
    | apply without_perform; congruence
    | apply without_lookup; congruence
    | apply without_bind; [|intros ?]
    | match goal with
      | |- without _ (match ?x with _ => _ end) => destruct x
      | |- without _ (if ?b then _ else _) => destruct b
      end ].
Qed.

Lemma postXiaohongshu_ends options pw :
  endsWithClick submitBtnSelector (waitForSelector (submitBtn pw))
    (postBody options pw).
Proof.
  unfold postBody.
  repeat first
    [ apply ends_throwError
    | apply ends_submit; reflexivity
    | apply ends_bind;
      [repeat first
         [ apply without_ret
         | apply without_throwError
         | apply fillIn_no_submit
         | apply without_perform; distinct_calls
         | apply without_lookup; distinct_calls
         | apply without_bind; [|intros ?]
         | match goal with
           | |- without _ (if ?b then _ else _) => destruct b
           end ]
      |intros ?]
    | match goal with
      | |- endsWithClick _ _ (match ?x with _ => _ end) => destruct x
      end ].
Qed.

(** Without images the body throws, before anything is looked up after
    the file input. *)
Lemma postXiaohongshu_no_images options pw :
  images options = [] ->
  throws (postBody options pw)
  /\ without (Click submitBtnSelector) (postBody options pw)
  /\ forall files, without (UploadFile files) (postBody options pw).
Proof.
  intros Himages. unfold postBody. rewrite Himages. simpl.
  split; [|split].
  - do 5 (apply throws_bind_r; intros _).
    apply throws_bind_r. intros [upload|]; [|apply throws_throwError].
    apply throws_bind_l, throws_throwError.
  - do 5 (apply without_bind; [apply without_perform; distinct_calls|intros _]).
    apply without_bind; [apply without_lookup; distinct_calls|].
    intros [upload|]; [|apply without_throwError].
    apply without_throws_bind; [apply without_throwError|apply throws_throwError].
  - intros files.
    do 5 (apply without_bind; [apply without_perform; distinct_calls|intros _]).
    apply without_bind; [apply without_lookup; distinct_calls|].
    intros [upload|]; [|apply without_throwError].
    apply without_throws_bind; [apply without_throwError|apply throws_throwError].
Qed.

End XhsPostFacts.

(** X23: the frame of the posting functions.  [postWeibo] and
    [postXiaohongshu] throw exactly when the browser cannot be launched
    or closed; a result they return has no post url, and has an error
    exactly when it is not a success; when the launch succeeded the
    browser is closed once, as the last call, whatever throws in
    between. *)
Theorem X23_post_frame :
  (forall options pw,
     (forall e, fst (WeiboPosting.postWeibo options pw) = Throws e
        <-> WeiboPosting.launch pw = Fails e
            \/ (WeiboPosting.launch pw = Done /\ WeiboPosting.close pw = Fails e))
     /\ (forall r, fst (WeiboPosting.postWeibo options pw) = Returns r ->
           post_url r = None /\ (post_success r = false <-> post_error r <> None))
     /\ (WeiboPosting.launch pw = Done ->
         exists between,
           snd (WeiboPosting.postWeibo options pw)
           = LaunchBrowser :: between ++ [CloseTheBrowser]
           /\ CloseTheBrowser ∉ between /\ LaunchBrowser ∉ between))
  /\ (forall options pw,
     (forall e, fst (XhsPosting.postXiaohongshu options pw) = Throws e
        <-> XhsPosting.launch pw = Fails e
            \/ (XhsPosting.launch pw = Done /\ XhsPosting.close pw = Fails e))
     /\ (forall r, fst (XhsPosting.postXiaohongshu options pw) = Returns r ->
           post_url r = None /\ (post_success r = false <-> post_error r <> None))
     /\ (XhsPosting.launch pw = Done ->
         exists between,
           snd (XhsPosting.postXiaohongshu options pw)
           = LaunchBrowser :: between ++ [CloseTheBrowser]
           /\ CloseTheBrowser ∉ between /\ LaunchBrowser ∉ between)).
Proof.
  assert (Hframe : forall launch close body,
    without CloseTheBrowser body -> without LaunchBrowser body ->
    (forall e, fst (attempt launch close body) = Throws e
       <-> launch = Fails e \/ (launch = Done /\ close = Fails e))
    /\ (forall r, fst (attempt launch close body) = Returns r ->
          post_url r = None /\ (post_success r = false <-> post_error r <> None))
    /\ (launch = Done ->
        exists between,
          snd (attempt launch close body)
          = LaunchBrowser :: between ++ [CloseTheBrowser]
          /\ CloseTheBrowser ∉ between /\ LaunchBrowser ∉ between)).
  { intros launch close body Hc Hl.
    pose proof (attempt_cases launch close body) as Ha.
    destruct launch as [|e1].
    2:{ rewrite Ha. simpl. split; [|split; [done|done]].
        intros e. split; [intros [= ->]; by left|by intros [[= ->]|[? _]]]. }
    destruct Ha as [Hlog Hres].
    split; [|split].
    - intros e. destruct close as [|e2]; rewrite Hres.
      + split; [done|by intros [?|[_ ?]]].
      + split; [intros [= ->]; by right|by intros [?|[_ [= ->]]]].
    - intros r Hr. destruct close as [|e2]; rewrite Hres in Hr; [|done].
      injection Hr as <-.
      destruct (fst (body [LaunchBrowser])); simpl; split; done.
    - intros _. rewrite Hlog.
      destruct (Hc [LaunchBrowser]) as (more & Hst & Hmore).
      destruct (Hl [LaunchBrowser]) as (more' & Hst' & Hmore').
      rewrite Hst in Hst'. apply app_inv_head in Hst' as <-.
      exists more. rewrite Hst. done. }
  split; intros options pw.
  - apply Hframe; by apply WeiboPostFacts.postWeibo_without.
  - apply Hframe; by apply XhsPostFacts.postXiaohongshu_without.
Qed.

(** X24: the result and the publish button.  When a posting function
    returns a success, the click on the publish button is the last call
    before the browser is closed, it is made once and did not throw;
    and when the button was clicked at all, the result is a success or
    carries the error that this click threw.  So a failure with any
    other error means that the button was never clicked. *)
Theorem X24_result_and_publish_click :
  (forall options pw r,
     fst (WeiboPosting.postWeibo options pw) = Returns r ->
     (post_success r = true ->
      exists before,
        snd (WeiboPosting.postWeibo options pw)
        = LaunchBrowser :: before
          ++ [Click WeiboPosting.submitButtonSelector; CloseTheBrowser]
        /\ Click WeiboPosting.submitButtonSelector ∉ before
        /\ waitForSelector (WeiboPosting.submitButton pw) = Some Done)
     /\ (Click WeiboPosting.submitButtonSelector
           ∈ snd (WeiboPosting.postWeibo options pw) ->
         post_success r = true
         \/ exists e, waitForSelector (WeiboPosting.submitButton pw) = Some (Fails e)
                      /\ post_error r = Some e))
  /\ (forall options pw r,
     fst (XhsPosting.postXiaohongshu options pw) = Returns r ->
     (post_success r = true ->
      exists before,
        snd (XhsPosting.postXiaohongshu options pw)
        = LaunchBrowser :: before
          ++ [Click XhsPosting.submitBtnSelector; CloseTheBrowser]
        /\ Click XhsPosting.submitBtnSelector ∉ before
        /\ waitForSelector (XhsPosting.submitBtn pw) = Some Done)
     /\ (Click XhsPosting.submitBtnSelector
           ∈ snd (XhsPosting.postXiaohongshu options pw) ->
         post_success r = true
         \/ exists e, waitForSelector (XhsPosting.submitBtn pw) = Some (Fails e)
                      /\ post_error r = Some e)).
Proof.
  split; intros options pw r Hr.
  - apply (attempt_published _ _ _ _ _ r (WeiboPostFacts.postWeibo_ends options pw) Hr).
  - apply (attempt_published _ _ _ _ _ r (XhsPostFacts.postXiaohongshu_ends options pw) Hr).
Qed.

(** X25: [postXiaohongshu] needs images.  With an empty list of images
    it never returns a success, uploads nothing and never clicks the
    publish button, whatever the page does. *)
Theorem X25_images_required (options : XhsPosting.Options)
    (pw : XhsPosting.PostWorld) :
  XhsPosting.images options = [] ->
  (forall r, fst (XhsPosting.postXiaohongshu options pw) = Returns r ->
     post_success r = false)
  /\ Click XhsPosting.submitBtnSelector ∉ snd (XhsPosting.postXiaohongshu options pw)
  /\ forall files, UploadFile files ∉ snd (XhsPosting.postXiaohongshu options pw).
Proof.
  intros Himages.
  destruct (XhsPostFacts.postXiaohongshu_no_images options pw Himages)
    as (Hthrows & Hsubmit & Hupload).
  unfold XhsPosting.postXiaohongshu.
  pose proof (attempt_cases (XhsPosting.launch pw) (XhsPosting.close pw)
                (XhsPosting.postBody options pw)) as Ha.
  destruct (XhsPosting.launch pw).
  2:{ rewrite Ha. simpl. split; [done|].
      split; [|intros files]; by intros [=]%list_elem_of_singleton. }
  destruct Ha as [Hlog Hres]. rewrite Hlog. split; [|split].
  - intros r Hr. destruct (XhsPosting.close pw); rewrite Hres in Hr; [|done].
    injection Hr as <-.
    destruct (Hthrows [LaunchBrowser]) as (e & ->). done.
  - destruct (Hsubmit [LaunchBrowser]) as (more & -> & Hmore).
    intros [Hin|[=]%list_elem_of_singleton]%elem_of_app.
    apply elem_of_cons in Hin as [?|Hin]; done.
  - intros files. destruct (Hupload files [LaunchBrowser]) as (more & -> & Hmore).
    intros [Hin|[=]%list_elem_of_singleton]%elem_of_app.
    apply elem_of_cons in Hin as [?|Hin]; done.
Qed.

(** X23 at a page of weibo.ts without the publish button: a failure is
    returned, not thrown, after the browser was closed. *)
Lemma X23_post_frame_witness :
  exists r between,
    fst (WeiboPosting.postWeibo Samples.weiboText Samples.weiboPageNoButton)
    = Returns r
    /\ post_url r = None
    /\ snd (WeiboPosting.postWeibo Samples.weiboText Samples.weiboPageNoButton)
       = LaunchBrowser :: between ++ [CloseTheBrowser].
Proof.
  destruct (proj1 X23_post_frame Samples.weiboText Samples.weiboPageNoButton)
    as (_ & Hr & Hlog).
  destruct (Hlog eq_refl) as (between & Hb & _).
  eexists _, between. split; [vm_compute; reflexivity|].
  split; [|exact Hb]. apply Hr. vm_compute. reflexivity.
Defined.

(** X24 at a page of weibo.ts on which everything works. *)
Lemma X24_result_and_publish_click_witness :
  exists before,
    snd (WeiboPosting.postWeibo Samples.weiboText Samples.weiboPage)
    = LaunchBrowser :: before
      ++ [Click WeiboPosting.submitButtonSelector; CloseTheBrowser]
    /\ Click WeiboPosting.submitButtonSelector ∉ before
    /\ waitForSelector (WeiboPosting.submitButton Samples.weiboPage) = Some Done.
Proof.
  apply (proj1 (proj1 X24_result_and_publish_click
                  Samples.weiboText Samples.weiboPage
                  (mkPostResult true None None)
                  ltac:(vm_compute; reflexivity))).
  reflexivity.
Defined.

(** X25 at a note without images. *)
Lemma X25_images_required_witness :
  Click XhsPosting.submitBtnSelector
  ∉ snd (XhsPosting.postXiaohongshu Samples.xhsNoteNoImages Samples.xhsPageBare).
Proof.
  apply (X25_images_required Samples.xhsNoteNoImages Samples.xhsPageBare).
  reflexivity.
Defined.

Module OptionalFacts.
Import XhsPosting.

Lemma returns_ret : returns (ret tt).
Proof. done. Qed.

Lemma returns_perform c s : s = Done -> returns (perform c s).
Proof. by intros -> st. Qed.

Lemma returns_bind (m k : exec (R := PostCall) unit) :
  returns m -> returns k -> returns (m >> k).
Proof.
  intros Hm Hk st. unfold bind. specialize (Hm st).
  destruct (m st) as [[[]|e] st1]; simpl in Hm; [apply Hk|done].
Qed.

Lemma returns_lookup sel l (k : option step -> exec (R := PostCall) unit) :
  returns (k (waitForSelector l)) -> returns (bind (lookup sel l) k).
Proof. intros Hk st. apply Hk. Qed.

Lemma returns_whenFound sel l then_ :
  harmless l -> returns then_ -> returns (whenFound sel l then_).
Proof.
  intros [Hl|Hl] Ht; unfold whenFound; apply returns_lookup; rewrite Hl.
  - apply returns_ret.
  - apply returns_bind; [by apply returns_perform|done].
Qed.

Lemma returns_addTags pw tags : forall i,
  (forall k, harmless (tagInput pw k)) -> (forall k, typeTag pw k = Done) ->
  (forall k, harmless (tagItem pw k)) ->
  returns (addTags pw i tags).
Proof.
  induction tags as [|tag rest IH]; intros i Hin Hty Hit; simpl.
  { apply returns_ret. }
  apply returns_bind; [|by apply IH].
  apply returns_whenFound; [done|].
  apply returns_bind; [by apply returns_perform|].
  apply returns_whenFound; [done|apply returns_ret].
Qed.

End OptionalFacts.

(** X26: no missing element of the form makes [postXiaohongshu] fail.
    The title and content inputs, the tag and location buttons and the
    elements behind them are looked up and skipped when they are not
    found: when each of them is missing or can be clicked, and the
    typing does not throw, the steps between the upload and the publish
    button always return, and the post is a success as soon as the
    other steps succeed -- also when neither title nor content was
    entered. *)
Theorem X26_missing_elements_skipped (options : XhsPosting.Options)
    (pw : XhsPosting.PostWorld) :
  harmless (XhsPosting.titleInput pw) -> XhsPosting.typeTitle pw = Done ->
  harmless (XhsPosting.contentInput pw) -> XhsPosting.typeContent pw = Done ->
  harmless (XhsPosting.tagBtn pw) ->
  (forall k, harmless (XhsPosting.tagInput pw k)) ->
  (forall k, XhsPosting.typeTag pw k = Done) ->
  (forall k, harmless (XhsPosting.tagItem pw k)) ->
  harmless (XhsPosting.closeBtn pw) ->
  harmless (XhsPosting.locationBtn pw) ->
  harmless (XhsPosting.locationInput pw) ->
  XhsPosting.typeLocation pw = Done ->
  harmless (XhsPosting.locationItem pw) ->
  returns (XhsPosting.fillIn options pw)
  /\ (XhsPosting.launch pw = Done -> XhsPosting.newPage pw = Done ->
      XhsPosting.setupCookies pw = Done -> XhsPosting.goto pw = Done ->
      XhsPosting.evaluateHandle pw = Done -> XhsPosting.toPublishBtn pw = Done ->
      waitForSelector (XhsPosting.uploadInput pw) = Some Done ->
      XhsPosting.images options <> [] -> XhsPosting.uploaded pw = Done ->
      waitForSelector (XhsPosting.submitBtn pw) = Some Done ->
      XhsPosting.close pw = Done ->
      fst (XhsPosting.postXiaohongshu options pw)
      = Returns (mkPostResult true None None)).
Proof.
  intros Htitle Htt Hcontent Htc Htag Htin Htty Htit Hclose Hloc Hlin Htl Hlit.
  assert (Hfill : returns (XhsPosting.fillIn options pw)).
  { unfold XhsPosting.fillIn.
    apply OptionalFacts.returns_bind.
    { apply OptionalFacts.returns_whenFound; [done|].
      by apply OptionalFacts.returns_perform. }
    apply OptionalFacts.returns_bind.
    { apply OptionalFacts.returns_whenFound; [done|].
      by apply OptionalFacts.returns_perform. }
    apply OptionalFacts.returns_bind.
    { destruct (0 <? length (XhsPosting.tags options))%nat;
        [|apply OptionalFacts.returns_ret].
      apply OptionalFacts.returns_whenFound; [done|].
      apply OptionalFacts.returns_bind;
        [by apply OptionalFacts.returns_addTags|].
      apply OptionalFacts.returns_whenFound;
        [done|apply OptionalFacts.returns_ret]. }
    destruct (JS.truthy_str (XhsPosting.location options));
      [|apply OptionalFacts.returns_ret].
    apply OptionalFacts.returns_whenFound; [done|].
    apply OptionalFacts.returns_whenFound; [done|].
    apply OptionalFacts.returns_bind;
      [by apply OptionalFacts.returns_perform|].
    apply OptionalFacts.returns_whenFound;
      [done|apply OptionalFacts.returns_ret]. }
  split; [exact Hfill|].
  intros Hlaunch Hnew Hcookies Hgoto Heval Hbtn Hup Himages Huploaded Hsubmit Hcl.
  assert (Hbody : returns (XhsPosting.postBody options pw)).
  { unfold XhsPosting.postBody.
    do 5 (apply OptionalFacts.returns_bind;
          [by apply OptionalFacts.returns_perform|]).
    apply OptionalFacts.returns_lookup. rewrite Hup.
    apply OptionalFacts.returns_bind.
    { destruct (XhsPosting.images options); [done|].
      by apply OptionalFacts.returns_perform. }
    apply OptionalFacts.returns_bind;
      [by apply OptionalFacts.returns_perform|].
    apply OptionalFacts.returns_bind; [exact Hfill|].
    apply OptionalFacts.returns_lookup. rewrite Hsubmit.
    by apply OptionalFacts.returns_perform. }
  unfold XhsPosting.postXiaohongshu.
  pose proof (attempt_cases (XhsPosting.launch pw) (XhsPosting.close pw)
                (XhsPosting.postBody options pw)) as Ha.
  rewrite Hlaunch, Hcl in Ha. rewrite Hlaunch, Hcl. destruct Ha as [_ ->].
  by rewrite (Hbody [LaunchBrowser]).
Qed.

(** X26 at a page on which only the file input and the publish button
    are found: the note is published without its title and text. *)
Lemma X26_missing_elements_skipped_witness :
  fst (XhsPosting.postXiaohongshu Samples.xhsNote Samples.xhsPageBare)
  = Returns (mkPostResult true None None)
  /\ (forall text,
        TypeText text
        ∉ snd (XhsPosting.postXiaohongshu Samples.xhsNote Samples.xhsPageBare)).
Proof.
  split.
  - apply (X26_missing_elements_skipped Samples.xhsNote Samples.xhsPageBare);
      try reflexivity; try (intros k; reflexivity);
      try (left; reflexivity); try (intros k; left; reflexivity).
    discriminate.
  - intros text. vm_compute. intros Hin.
    repeat (apply elem_of_cons in Hin as [Hin|Hin]; [discriminate Hin|]).
    by apply elem_of_nil in Hin.
Defined.

(** ** The loop, card by card *)

Section LoopFacts.
Context {Card Detail : Type}.
Variable card_url : Card -> jsstring.
Variable enumerate : Document -> Z -> list Card.
Variable extract : Document -> Detail.
Variable merge : Card -> Detail -> Card.

Local Abbreviation iteration_ := (iteration card_url extract merge).
Local Abbreviation iterationLog_ := (iterationLog card_url extract merge).
Local Abbreviation appended_ := (appended card_url extract merge).
Local Abbreviation walk_ := (walk card_url enumerate extract merge).
Local Abbreviation log_ :=
  (fun w limit => calls (snd (walkLog card_url enumerate extract merge w limit))).

(** A card that is not visited: it has no url, or its tab cannot be
    opened or sized. *)
Lemma appended_skipped dw card :
  JS.truthy_str (card_url card) = false
  \/ (exists e, d_newPage dw = Fails e)
  \/ (exists e, d_setViewport dw = Fails e) ->
  appended_ dw card = [card].
Proof.
  unfold appended. intros [->|[[e He]|[e He]]]; [done| |].
  - rewrite He. by destruct (negb _).
  - rewrite He. destruct (negb _); [done|]. by destruct (d_newPage dw).
Qed.

(** A card that is visited: the record of the inner [try], then the
    card once more when closing the tab throws. *)
Lemma appended_visited dw card :
  JS.truthy_str (card_url card) = true ->
  d_newPage dw = Done -> d_setViewport dw = Done ->
  appended_ dw card
  = match d_evaluate dw with
    | Returns page => merge card (extract page)
    | Throws _ => card
    end :: match d_close dw with
           | Done => []
           | Fails _ => [card]
           end.
Proof. unfold appended. by intros -> -> ->. Qed.

(** The events of the iteration of a visited card, in order. *)
Lemma iterationLog_visited i dw card st :
  JS.truthy_str (card_url card) = true ->
  d_newPage dw = Done -> d_setViewport dw = Done ->
  snd (iterationLog_ i dw card st)
  = st ++ [Called (OpenTab i); Called (SizeTab i); Called (GotoDetail i);
           Called (EvaluateDetail i);
           Pushed match d_evaluate dw with
                  | Returns page => merge card (extract page)
                  | Throws _ => card
                  end;
           Called (CloseTab i)]
       ++ match d_close dw with
          | Done => []
          | Fails _ => [Pushed card]
          end.
Proof.
  intros Hu Hn Hv. unfold iterationLog. rewrite Hu. simpl.
  unfold try_catch, bind, call, call_value, push, await, await_value, ret.
  rewrite Hn, Hv.
  destruct (d_goto dw), (d_evaluate dw), (d_close dw); simpl;
    rewrite <- ?app_assoc; reflexivity.
Qed.

Lemma appended_length dw card :
  length (appended_ dw card) = 1%nat \/ length (appended_ dw card) = 2%nat.
Proof.
  unfold appended. destruct (negb _); [by left|].
  destruct (d_newPage dw); [|by left]. destruct (d_setViewport dw); [|by left].
  destruct (d_close dw); [by left|by right].
Qed.

Lemma appended_twice dw card :
  length (appended_ dw card) = 2%nat
  <-> JS.truthy_str (card_url card) = true /\ d_newPage dw = Done
      /\ d_setViewport dw = Done /\ exists e, d_close dw = Fails e.
Proof.
  unfold appended. destruct (JS.truthy_str (card_url card)); simpl.
  2:{ split; [done|by intros [? _]]. }
  destruct (d_newPage dw); [|split; [done|by intros (_ & ? & _)]].
  destruct (d_setViewport dw); [|split; [done|by intros (_ & _ & ? & _)]].
  destruct (d_close dw) as [|e]; simpl.
  - split; [done|by intros (_ & _ & _ & ? & ?)].
  - split; [eauto 6|done].
Qed.

Lemma concat_longer {A : Type} (groups : list (list A)) :
  (forall g, g ∈ groups -> length g = 1%nat \/ length g = 2%nat) ->
  (length groups <= length (concat groups))%nat
  /\ ((length groups < length (concat groups))%nat
      <-> exists i g, groups !! i = Some g /\ length g = 2%nat).
Proof.
  induction groups as [|g groups IH]; intros Hg.
  - simpl. split; [lia|]. split; [lia|]. by intros (i & g & ? & _).
  - destruct IH as [Hle Hiff]; [intros g' Hg'; apply Hg; by right|].
    simpl. rewrite length_app.
    destruct (Hg g ltac:(by left)) as [H1|H2].
    + split; [lia|]. split.
      * intros Hlt. destruct (proj1 Hiff ltac:(lia)) as (i & g' & Hi & Hlen).
        by exists (S i), g'.
      * intros ([|i] & g' & Hi & Hlen); simpl in Hi.
        -- injection Hi as <-. lia.
        -- assert (length groups < length (concat groups))%nat
             by (apply Hiff; eauto). lia.
    + split; [lia|]. split; [|lia]. intros _. by exists 0%nat, g.
Qed.

(** The records of a run that reached the loop, group by group. *)
Lemma walk_groups w limit listing :
  w_launch w = Done -> w_close w = Done -> preludeError w = None ->
  w_evaluate w = Returns listing ->
  walk_ w limit
  = Returns (mkFetchResult true
      (Some (concat (imap (fun k card => appended_ (w_detail w k) card)
                          (enumerate listing limit)))) None).
Proof.
  intros Hl Hc Hp He.
  pose proof (walk_cases card_url enumerate extract merge w limit) as Hw.
  rewrite Hl, Hc, Hp in Hw. destruct Hw as (listing' & He' & Hw).
  rewrite He in He'. by injection He' as <-.
Qed.



(** C10: the record of a card is appended before its tab is closed.
    A run that reaches the loop returns the concatenation, in the order
    of the cards, of what the iteration of each card appends.  A card
    that is not visited (no url, or its tab cannot be opened or sized)
    appends itself.  A visited card makes, in this order, the calls to
    open, size, navigate and evaluate, appends the merged record (the
    card itself when the evaluation throws), and only then closes the
    tab; when that close throws, the recovery appends the card once
    more, so that the card has two records.  Hence every card has at
    least one record, and the result is longer than the list of cards
    exactly when the tab of some visited card fails to close. *)
Theorem C10_append_before_close (w : World) (limit : Z) (listing : Document) :
  w_launch w = Done -> w_close w = Done -> preludeError w = None ->
  w_evaluate w = Returns listing ->
  exists groups,
    walk_ w limit = Returns (mkFetchResult true (Some (concat groups)) None)
    /\ length groups = length (enumerate listing limit)
    /\ (forall i card, enumerate listing limit !! i = Some card ->
        exists group,
          groups !! i = Some group
          /\ (forall st, iteration_ (w_detail w i) card st
                         = (Returns tt, st ++ group))
          /\ (length group = 1%nat \/ length group = 2%nat)
          /\ (JS.truthy_str (card_url card) = false
              \/ (exists e, d_newPage (w_detail w i) = Fails e)
              \/ (exists e, d_setViewport (w_detail w i) = Fails e) ->
              group = [card])
          /\ (JS.truthy_str (card_url card) = true ->
              d_newPage (w_detail w i) = Done ->
              d_setViewport (w_detail w i) = Done ->
              exists first,
                (forall page, d_evaluate (w_detail w i) = Returns page ->
                   first = merge card (extract page))
                /\ (forall e, d_evaluate (w_detail w i) = Throws e ->
                   first = card)
                /\ (d_close (w_detail w i) = Done -> group = [first])
                /\ (forall e, d_close (w_detail w i) = Fails e ->
                   group = [first; card])
                /\ (forall st,
                   snd (iterationLog_ i (w_detail w i) card st)
                   = st ++ [Called (OpenTab i); Called (SizeTab i);
                            Called (GotoDetail i); Called (EvaluateDetail i);
                            Pushed first; Called (CloseTab i)]
                        ++ match d_close (w_detail w i) with
                           | Done => []
                           | Fails _ => [Pushed card]
                           end)))
    /\ (length (enumerate listing limit) <= length (concat groups))%nat
    /\ ((length (enumerate listing limit) < length (concat groups))%nat
        <-> exists i card e,
              enumerate listing limit !! i = Some card
              /\ JS.truthy_str (card_url card) = true
              /\ d_newPage (w_detail w i) = Done
              /\ d_setViewport (w_detail w i) = Done
              /\ d_close (w_detail w i) = Fails e).
Proof.
  intros Hl Hc Hp He.
  set (cards := enumerate listing limit).
  set (f := fun k card => appended_ (w_detail w k) card).
  exists (imap f cards).
  split; [by apply walk_groups|].
  split; [apply length_imap|].
  assert (Hgroups : forall g, g ∈ imap f cards ->
            length g = 1%nat \/ length g = 2%nat).
  { intros g (k & card & -> & _)%elem_of_lookup_imap. apply appended_length. }
  destruct (concat_longer (imap f cards) Hgroups) as [Hle Hiff].
  rewrite length_imap in Hle, Hiff.
  split; [|split; [exact Hle|]].
  - intros i card Hi. exists (f i card).
    split; [by rewrite list_lookup_imap, Hi|].
    split; [intros st; apply iteration_appended|].
    split; [apply appended_length|].
    split; [apply appended_skipped|].
    intros Hu Hn Hv.
    exists match d_evaluate (w_detail w i) with
           | Returns page => merge card (extract page)
           | Throws _ => card
           end.
    split; [by intros page ->|]. split; [by intros e ->|].
    unfold f. rewrite (appended_visited _ _ Hu Hn Hv).
    split; [by intros ->|]. split; [by intros e ->|].
    intros st. by apply iterationLog_visited.
  - rewrite Hiff. split.
    + intros (i & g & Hg & Hlen).
      rewrite list_lookup_imap in Hg.
      destruct (cards !! i) as [card|] eqn:Hi; [|done].
      injection Hg as <-. apply appended_twice in Hlen as (Hu & Hn & Hv & e & Hcl).
      by exists i, card, e.
    + intros (i & card & e & Hi & Hu & Hn & Hv & Hcl).
      exists i, (f i card). split; [by rewrite list_lookup_imap, Hi|].
      apply appended_twice. eauto 6.
Qed.
End LoopFacts.

(** C10 at a run over the five-card listing with limit 3 in which the
    detail tab of the first card fails to close: the first card has two
    records, the merged one and the card, and the run returns more than
    three records. *)
Lemma C10_append_before_close_witness :
  exists groups,
    Xiaohongshu.fetchLatestNotes Samples.runCloseFails 3
    = Returns (mkFetchResult true (Some (concat groups)) None)
    /\ groups !! 0%nat
       = Some [Xiaohongshu.mergeNote
                 (Xiaohongshu.cardOf (Samples.linkCard "/explore/n1"))
                 (Xiaohongshu.extractNoteDetail Samples.bodyPage);
               Xiaohongshu.cardOf (Samples.linkCard "/explore/n1")]
    /\ (length (Xiaohongshu.enumerate Samples.listing5 3)
        < length (concat groups))%nat.
Proof.
  destruct (C10_append_before_close Xiaohongshu.url Xiaohongshu.enumerate
              Xiaohongshu.extractNoteDetail Xiaohongshu.mergeNote
              Samples.runCloseFails 3 Samples.listing5
              eq_refl eq_refl eq_refl eq_refl)
    as (groups & Hw & _ & Hcards & _ & Hlong).
  exists groups. split; [exact Hw|]. split.
  - destruct (Hcards 0%nat (Xiaohongshu.cardOf (Samples.linkCard "/explore/n1"))
                eq_refl)
      as (group & Hg & _ & _ & _ & Hvisited).
    destruct (Hvisited eq_refl eq_refl eq_refl)
      as (first & Hfirst & _ & _ & Htwice & _).
    rewrite Hg, (Htwice _ eq_refl), (Hfirst Samples.bodyPage eq_refl).
    reflexivity.
  - apply Hlong.
    exists 0%nat, (Xiaohongshu.cardOf (Samples.linkCard "/explore/n1")),
      (JS.utf16 "Target closed").
    repeat split; vm_compute; reflexivity.
Defined.


